(** * A shallow embedding of the Redux core: store, reducer composition, middleware

    The development follows the three source files:
    - [createStore]      : the store with its dispatch cycle, listener arrays,
                           reentrancy guard and observable ([Module Store]);
    - [combineReducers]  : the composition of keyed reducers with its sanity
                           check ([Module CombineReducers]);
    - [applyMiddleware]  : the enhancer wrapping [dispatch] in a chain of
                           middleware ([Module ApplyMiddleware]), built on
                           [compose] ([Module Compose]).

    How JavaScript is modelled:
    - a value is a [JS.value]; an object is its identity and its own
      enumerable properties in [Object.keys] order, and [===] compares
      objects and functions by identity, never by content; numbers are the
      integers and [NaN];
    - what the engine supplies (inherited and built-in properties, the text
      of [toString] on objects, the class [Object.prototype.toString]
      names) is a parameter of the definitions that read it; an assignment
      to the key [__proto__] of an object literal goes to the setter of
      [Object.prototype] and adds no property;
    - a function of the client is known by its identity and carries no
      property of its own; what calling it does is a parameter: a pure
      function for the reducers handed to [combineReducers], a body that may
      call the methods of the store, and read or change the array it is
      called on, for the reducer and the listeners of a store;
    - code that may not terminate (a listener may dispatch for ever) is run
      with fuel, and gives [None] when the fuel runs out;
    - a [throw] is the completion [Raised e]; the spec's ConfigurationError,
      ValidationError and InvalidOperationError are all [Error] objects in
      the code, told apart by their message. *)

From stdpp Require Import base option list strings gmap pretty.

Open Scope Z_scope.
Set Warnings "-register-all".

(* ================================================================== *)
(** * JavaScript values *)
(* ================================================================== *)

Module JS.

(** What [lodash/isPlainObject] and [Object.prototype.toString] tell apart
    among objects: object literals, arrays, and instances of a class. *)
Inductive obj_kind := Plain | Array | Instance.

(** A value.  Objects are immutable by convention in this code base (state is
    "replaced wholesale"), so an object is its identity [l] together with its
    own enumerable properties, in [Object.keys] order.  Functions are known by
    their identity; what calling them does is given by the client (a table
    from identities to behaviours, a parameter of each module). *)
Inductive value :=
| VUndefined
| VNull
| VBool (b : bool)
| VNum (n : Z)
| VNaN
| VStr (s : string)
| VFun (f : nat)
| VObj (l : nat) (k : obj_kind) (props : list (string * value)).

(** Whatever a [throw] carries: an [Error] or a [TypeError] made by the code
    with its message, or an arbitrary value thrown by client code. *)
Inductive exn :=
| Error (msg : string)
| TypeError (msg : string)
| Thrown (v : value).

(** The completion of a call: it returns or it throws. *)
Inductive result (A : Type) :=
| Normal (a : A)
| Raised (e : exn).
Arguments Normal {A} a.
Arguments Raised {A} e.

Definition dq : string := String (Ascii.ascii_of_nat 34) EmptyString.
Definition quoted (s : string) : string := dq +:+ s +:+ dq.

(** [typeof v] *)
Definition typeof (v : value) : string :=
  match v with
  | VUndefined => "undefined"
  | VNull => "object"
  | VBool _ => "boolean"
  | VNum _ | VNaN => "number"
  | VStr _ => "string"
  | VFun _ => "function"
  | VObj _ _ _ => "object"
  end.

Definition is_undefined (v : value) : bool :=
  match v with VUndefined => true | _ => false end.

Definition is_function (v : value) : bool :=
  match v with VFun _ => true | _ => false end.

(** ToBoolean, as used by [if (x)], [x && y], [x || y] and [!x]. *)
Definition truthy (v : value) : bool :=
  match v with
  | VUndefined | VNull | VNaN => false
  | VBool b => b
  | VNum n => negb (n =? 0)
  | VStr s => negb (String.length s =? 0)%nat
  | VFun _ | VObj _ _ _ => true
  end.

(** [a === b]: primitives by value ([NaN] differs from itself), functions and
    objects by identity, never by content. *)
Definition strict_eq (a b : value) : bool :=
  match a, b with
  | VUndefined, VUndefined => true
  | VNull, VNull => true
  | VBool x, VBool y => Bool.eqb x y
  | VNum x, VNum y => x =? y
  | VStr x, VStr y => String.eqb x y
  | VFun f, VFun g => (f =? g)%nat
  | VObj l _ _, VObj l' _ _ => (l =? l')%nat
  | _, _ => false
  end.

(** [a !== b] *)
Definition strict_neq (a b : value) : bool := negb (strict_eq a b).

(** [lodash/isPlainObject] *)
Definition isPlainObject (v : value) : bool :=
  match v with VObj _ Plain _ => true | _ => false end.

(** Own properties of an object literal: [props[key]], [props[key] = v],
    [Object.keys(props)], [props.hasOwnProperty(key)]. *)
Fixpoint own_prop (key : string) (props : list (string * value)) : option value :=
  match props with
  | [] => None
  | (k, v) :: rest => if String.eqb k key then Some v else own_prop key rest
  end.

Fixpoint set_prop (key : string) (v : value) (props : list (string * value))
  : list (string * value) :=
  match props with
  | [] => [(key, v)]
  | (k, w) :: rest =>
      if String.eqb k key then (k, v) :: rest else (k, w) :: set_prop key v rest
  end.

(** [o[key] = v] for an object literal [o]: the key [__proto__] names the
    accessor of [Object.prototype], whose setter replaces the prototype of
    [o] when [v] is an object, a function or [null], ignores any other [v],
    and in no case adds a property to [o]. *)
Definition assign (key : string) (v : value) (props : list (string * value))
  : list (string * value) :=
  if String.eqb key "__proto__" then props else set_prop key v props.

Definition keys (props : list (string * value)) : list string := map fst props.

Definition hasOwnProperty (props : list (string * value)) (key : string) : bool :=
  match own_prop key props with Some _ => true | None => false end.

Definition own_keys (v : value) : list string :=
  match v with VObj _ _ props => keys props | _ => [] end.

(** [array.join(sep)] on strings *)
Fixpoint join (sep : string) (l : list string) : string :=
  match l with
  | [] => EmptyString
  | [s] => s
  | s :: rest => s +:+ sep +:+ join sep rest
  end.

(** [s.split('')]: the characters of [s], each as a string *)
Fixpoint split_chars (s : string) : list string :=
  match s with
  | EmptyString => []
  | String c rest => String c EmptyString :: split_chars rest
  end.

(** [s.substring(n)] *)
Definition substring_from (n : nat) (s : string) : string :=
  String.substring n (String.length s - n) s.

Section Engine.

(** What the engine supplies and the sources do not define: the properties
    a value inherits or has built in ([Object.prototype]'s members, the
    [length] of a string), and the text [toString()] gives for functions
    and objects. *)
Variable inherited : value -> string -> value.
Variable describe : value -> string.

(** [Object.prototype.toString.call(v).match(/\s([a-z|A-Z]+)/)] for an
    object or a function [v]: the letters that follow the blank of
    [[object Name]] ([Object], [Array], [Date], [GeneratorFunction],
    whatever [Symbol.toStringTag] says), or no match when no letter follows
    a blank. *)
Variable class_match : value -> option string.

(** The same for any value: the class of a primitive is fixed. *)
Definition class_name (v : value) : option string :=
  match v with
  | VUndefined => Some "Undefined"
  | VNull => Some "Null"
  | VBool _ => Some "Boolean"
  | VNum _ | VNaN => Some "Number"
  | VStr _ => Some "String"
  | VFun _ | VObj _ _ _ => class_match v
  end.

(** [o[key]]: a [TypeError] on [undefined] and [null], the own property
    when there is one, what the engine supplies otherwise. *)
Definition get_prop (o : value) (key : string) : result value :=
  match o with
  | VUndefined | VNull =>
      Raised (TypeError ("Cannot read property '" +:+ key +:+ "' of "
                         +:+ (if is_undefined o then "undefined" else "null")))
  | VObj _ _ props =>
      Normal (match own_prop key props with
              | Some v => v
              | None => inherited o key
              end)
  | _ => Normal (inherited o key)
  end.

(** [v.toString()] for the values that have one.  A number is printed
    digit by digit below [10^21]; from there on the engine prints it with an
    exponent. *)
Definition toString (v : value) : string :=
  match v with
  | VBool true => "true"
  | VBool false => "false"
  | VNum n => if Z.abs n <? 10 ^ 21 then pretty n else describe v
  | VNaN => "NaN"
  | VStr s => s
  | _ => describe v
  end.

End Engine.

Lemma typeof_undefined (v : value) :
  String.eqb (typeof v) "undefined" = is_undefined v.
Proof. destruct v; reflexivity. Qed.

Lemma typeof_function (v : value) :
  String.eqb (typeof v) "function" = is_function v.
Proof. destruct v; reflexivity. Qed.

End JS.

(* ================================================================== *)
(** * compose *)
(* ================================================================== *)

Module Compose.

(** Modelled from the spec: [compose.js] is imported by [applyMiddleware.js]
    ([import compose from './compose']) but is not among the sources.  The
    spec words it as right-to-left function composition, where [compose()]
    is the identity function and [compose(f)] is [f] unchanged.  The list is
    the argument list [...fns]. *)
Definition compose {A : Type} (fns : list (A -> A)) : A -> A :=
  match fns with
  | [] => fun x => x
  | f :: rest =>
      (fix go (f : A -> A) (rest : list (A -> A)) : A -> A :=
         match rest with
         | [] => f
         | g :: rest' => fun x => f (go g rest' x)
         end) f rest
  end.

Lemma compose_cons {A : Type} (f : A -> A) (rest : list (A -> A)) (x : A) :
  compose (f :: rest) x = f (compose rest x).
Proof.
  destruct rest as [|g rest]; [reflexivity|]. reflexivity.
Qed.

(** The last function is applied first, the first one last. *)
Lemma compose_fold_right {A : Type} (fns : list (A -> A)) (x : A) :
  compose fns x = fold_right (fun f acc => f acc) x fns.
Proof.
  induction fns as [|f rest IH]; [reflexivity|].
  rewrite compose_cons, IH. reflexivity.
Qed.

(** C8 — [compose] is right-to-left function composition: [compose()] is the
    identity function, [compose(f)] is [f] itself, and
    [compose(f, g, h)(x)] is [f(g(h(x)))]. *)
Theorem compose_right_to_left :
  (forall (A : Type) (x : A), compose [] x = x) /\
  (forall (A : Type) (f : A -> A), compose [f] = f) /\
  (forall (A : Type) (f g h : A -> A) (x : A),
      compose [f; g; h] x = f (g (h x))).
Proof.
  split; [|split].
  - intros A x. reflexivity.
  - intros A f. reflexivity.
  - intros A f g h x. reflexivity.
Qed.

End Compose.

(* ================================================================== *)
(** * combineReducers *)
(* ================================================================== *)

Module CombineReducers.
Import JS.

(** [ActionTypes.INIT], from createStore *)
Definition INIT : string := "@@redux/INIT".

(** What the code can change outside its own variables: the identity given
    to the next object it creates, the advisories reported so far (oldest
    first), the number of calls made to [Math.random], and the objects that
    are mutated after their creation (each composed reducer's
    [unexpectedKeyCache], by identity). *)
Record world := World {
  next_loc : nat;
  console : list string;
  draws : nat;
  heap : gmap nat (list (string * value))
}.

(** A computation: it reads and changes the world, and returns or throws. *)
Definition M (A : Type) : Type := world -> world * result A.

Definition ret {A : Type} (a : A) : M A := fun w => (w, Normal a).

Definition throw {A : Type} (e : exn) : M A := fun w => (w, Raised e).

Definition lift {A : Type} (r : result A) : M A := fun w => (w, r).

Definition bind {A B : Type} (m : M A) (k : A -> M B) : M B :=
  fun w =>
    match m w with
    | (w', Normal a) => k a w'
    | (w', Raised e) => (w', Raised e)
    end.

(** [try { m } catch (e) { h e }] *)
Definition try_catch {A : Type} (m : M A) (h : exn -> M A) : M A :=
  fun w =>
    match m w with
    | (w', Normal a) => (w', Normal a)
    | (w', Raised e) => h e w'
    end.

Notation "'let*' x ':=' m 'in' k" := (bind m (fun x => k))
  (at level 10, x pattern, m at level 100, k at level 200).

(** The identity of a new object *)
Definition alloc : M nat :=
  fun w => (World (S (next_loc w)) (console w) (draws w) (heap w), Normal (next_loc w)).

(** An object literal: a new identity, the given properties *)
Definition new_object (props : list (string * value)) : M value :=
  let* l := alloc in ret (VObj l Plain props).

(** [var o = {}] for an object the code later mutates: it lives in the heap *)
Definition new_mutable : M nat :=
  fun w =>
    (World (S (next_loc w)) (console w) (draws w) (<[next_loc w := []]> (heap w)),
     Normal (next_loc w)).

Definition read_mutable (l : nat) : M (list (string * value)) :=
  fun w => (w, Normal (default [] (heap w !! l))).

Definition write_mutable (l : nat) (props : list (string * value)) : M unit :=
  fun w =>
    (World (next_loc w) (console w) (draws w) (<[l := props]> (heap w)), Normal tt).

(** Modelled from the spec: [utils/warning] is imported but is not among the
    sources; the spec has it record an advisory that is never fatal. *)
Definition warning (message : string) : M unit :=
  fun w =>
    (World (next_loc w) (console w ++ [message]) (draws w) (heap w), Normal tt).

(** [props[key]] for an object literal held in a variable *)
Definition read (props : list (string * value)) (key : string) : value :=
  default VUndefined (own_prop key props).

Section Client.

(** The engine's share of property reads, of [toString] and of the class
    names (see [JS]). *)
Variable inherited : value -> string -> value.
Variable describe : value -> string.
Variable class_match : value -> option string.

(** The client's functions: [apply f s a] is what the function of identity
    [f] does when called as [f(s, a)].  Reducers are pure. *)
Variable apply : nat -> value -> value -> result value.

(** [process.env.NODE_ENV === 'production'] *)
Variable production : bool.

(** [random36 n] is the text of [Math.random().toString(36)] at the [n]-th
    call of [Math.random]. *)
Variable random36 : nat -> string.

Definition random : M string :=
  fun w =>
    (World (next_loc w) (console w) (S (draws w)) (heap w),
     Normal (random36 (draws w))).

(** [fn(s, a)]: what the call returns or throws *)
Definition invoke (fn s a : value) : result value :=
  match fn with
  | VFun f => apply f s a
  | _ => Raised (TypeError "reducer is not a function")
  end.

Definition call (fn s a : value) : M value := lift (invoke fn s a).

Definition getUndefinedStateErrorMessage (key : string) (action : value) : M string :=
  let* actionType :=
    (if truthy action then lift (get_prop inherited action "type") else ret action) in
  let actionName :=
    if truthy actionType then quoted (toString describe actionType) else "an action" in
  ret ("Given action " +:+ actionName +:+ ", reducer " +:+ quoted key
       +:+ " returned undefined. "
       +:+ "To ignore an action, you must explicitly return the previous state.").

(** [reducers.hasOwnProperty(key)]: the property [hasOwnProperty] is
    looked up on [reducers] like any other, so an entry stored under that
    key, a reducer, is what gets called, with [key] as its state and no
    action: what it returns is read as a boolean, what it throws is thrown.
    Without such an entry the call reaches the built-in test. *)
Definition has_own (reducers : list (string * value)) (key : string) : M bool :=
  match own_prop "hasOwnProperty" reducers with
  | Some fn => let* r := call fn (VStr key) VUndefined in ret (truthy r)
  | None => ret (hasOwnProperty reducers key)
  end.

(** [keys.filter(test)] for a test that may throw *)
Fixpoint filter_keys (test : string -> M bool) (l : list string) : M (list string) :=
  match l with
  | [] => ret []
  | key :: rest =>
      let* keep := test key in
      let* kept := filter_keys test rest in
      ret (if keep : bool then key :: kept else kept)
  end.

(** [null[1]], when the class of the state cannot be matched *)
Definition err_no_class : exn := TypeError "Cannot read property '1' of null".

Definition getUnexpectedStateShapeWarningMessage
    (inputState : value) (reducers : list (string * value)) (action : value)
    (unexpectedKeyCache : nat) : M (option string) :=
  let reducerKeys := keys reducers in
  let* isInit :=
    (if truthy action
     then let* type := lift (get_prop inherited action "type") in
          ret (strict_eq type (VStr INIT))
     else ret false) in
  let argumentName :=
    if isInit then "preloadedState argument passed to createStore"
    else "previous state received by the reducer" in
  if (length reducerKeys =? 0)%nat then
    ret (Some ("Store does not have a valid reducer. Make sure the argument passed "
               +:+ "to combineReducers is an object whose values are reducers."))
  else if negb (isPlainObject inputState) then
    match class_name class_match inputState with
    | None => throw err_no_class
    | Some name =>
        ret (Some ("The " +:+ argumentName +:+ " has unexpected type of " +:+ dq
                   +:+ name
                   +:+ dq +:+ ". Expected argument to be an object with the following "
                   +:+ "keys: " +:+ quoted (join (dq +:+ ", " +:+ dq) reducerKeys)))
    end
  else
    let* cache := read_mutable unexpectedKeyCache in
    let* unexpectedKeys :=
      filter_keys
        (fun key =>
           let* own := has_own reducers key in
           ret (negb own
                && negb (truthy (match own_prop key cache with
                                 | Some v => v
                                 | None => inherited (VObj unexpectedKeyCache Plain cache) key
                                 end))))
        (own_keys inputState) in
    let* _ :=
      write_mutable unexpectedKeyCache
        (fold_left (fun c key => assign key (VBool true) c) unexpectedKeys cache) in
    if (0 <? length unexpectedKeys)%nat then
      ret (Some ("Unexpected "
                 +:+ (if (1 <? length unexpectedKeys)%nat then "keys" else "key") +:+ " "
                 +:+ quoted (join (dq +:+ ", " +:+ dq) unexpectedKeys)
                 +:+ " found in " +:+ argumentName +:+ ". "
                 +:+ "Expected to find one of the known reducer keys instead: "
                 +:+ quoted (join (dq +:+ ", " +:+ dq) reducerKeys)
                 +:+ ". Unexpected keys will be ignored."))
    else ret None.

Definition init_error (key : string) : exn :=
  Error ("Reducer " +:+ quoted key +:+ " returned undefined during initialization. "
         +:+ "If the state passed to the reducer is undefined, you must "
         +:+ "explicitly return the initial state. The initial state may "
         +:+ "not be undefined.").

Definition probe_error (key : string) : exn :=
  Error ("Reducer " +:+ quoted key +:+ " returned undefined when probed with a random type. "
         +:+ "Don't try to handle " +:+ INIT +:+ " or other actions in " +:+ quoted "redux/*" +:+ " "
         +:+ "namespace. They are considered private. Instead, you must return the "
         +:+ "current state for any unknown actions, unless it is undefined, "
         +:+ "in which case you must return the initial state, regardless of the "
         +:+ "action type. The initial state may not be undefined.").

(** The probe's action type, from the text of the random number *)
Definition probe_type (r : string) : string :=
  "@@redux/PROBE_UNKNOWN_ACTION_" +:+ join "." (split_chars (substring_from 7 r)).

(** The body of the [forEach] of [assertReducerSanity], for one key *)
Definition assertOneReducer (reducers : list (string * value)) (key : string) : M unit :=
  let reducer := read reducers key in
  let* initAction := new_object [("type", VStr INIT)] in
  let* initialState := call reducer VUndefined initAction in
  if String.eqb (typeof initialState) "undefined" then throw (init_error key)
  else
    let* r := random in
    let type := probe_type r in
    let* probeAction := new_object [("type", VStr type)] in
    let* probed := call reducer VUndefined probeAction in
    if String.eqb (typeof probed) "undefined" then throw (probe_error key)
    else ret tt.

(** [Object.keys(reducers).forEach(key => ...)] *)
Fixpoint forEach (body : string -> M unit) (l : list string) : M unit :=
  match l with
  | [] => ret tt
  | key :: rest => let* _ := body key in forEach body rest
  end.

Definition assertReducerSanity (reducers : list (string * value)) : M unit :=
  forEach (assertOneReducer reducers) (keys reducers).

(** The variables the returned function [combination] closes over.
    [unexpectedKeyCache] stays [undefined] in production, [sanityError] stays
    [undefined] when the sanity check threw nothing. *)
Record closure := Closure {
  finalReducers : list (string * value);
  finalReducerKeys : list string;
  unexpectedKeyCache : option nat;
  sanityError : option exn
}.

(** The first loop of [combineReducers], over [reducerKeys] *)
Fixpoint collect (reducers : list (string * value)) (reducerKeys : list string)
    (finalReducers : list (string * value)) : M (list (string * value)) :=
  match reducerKeys with
  | [] => ret finalReducers
  | key :: rest =>
      let* _ :=
        (if negb production
         then if String.eqb (typeof (read reducers key)) "undefined"
              then warning ("No reducer provided for key " +:+ quoted key)
              else ret tt
         else ret tt) in
      collect reducers rest
        (if String.eqb (typeof (read reducers key)) "function"
         then assign key (read reducers key) finalReducers
         else finalReducers)
  end.

Definition combineReducers (reducers : list (string * value)) : M closure :=
  let reducerKeys := keys reducers in
  let* finalReducers := collect reducers reducerKeys [] in
  let finalReducerKeys := keys finalReducers in
  let* unexpectedKeyCache :=
    (if negb production
     then let* l := new_mutable in ret (Some l)
     else ret None) in
  let* sanityError :=
    try_catch (let* _ := assertReducerSanity finalReducers in ret None)
              (fun e => ret (Some e)) in
  ret (Closure finalReducers finalReducerKeys unexpectedKeyCache sanityError).

(** [if (e)] for a caught [e]: the errors the code makes are objects, a
    client may have thrown anything. *)
Definition exn_truthy (e : exn) : bool :=
  match e with
  | Thrown v => truthy v
  | _ => true
  end.

(** The loop of [combination] over [finalReducerKeys], from index [i] on:
    [keys] are the keys left, [hasChanged] and [nextState] the variables. *)
Fixpoint combination_loop (c : closure) (state action : value) (keys : list string)
    (hasChanged : bool) (nextState : list (string * value))
  : M (bool * list (string * value)) :=
  match keys with
  | [] => ret (hasChanged, nextState)
  | key :: rest =>
      let reducer := read (finalReducers c) key in
      let* previousStateForKey := lift (get_prop inherited state key) in
      let* nextStateForKey := call reducer previousStateForKey action in
      if String.eqb (typeof nextStateForKey) "undefined" then
        let* errorMessage := getUndefinedStateErrorMessage key action in
        throw (Error errorMessage)
      else
        combination_loop c state action rest
          (hasChanged || strict_neq nextStateForKey previousStateForKey)
          (assign key nextStateForKey nextState)
  end.

(** The parameter [state = {}] *)
Definition default_state (state : value) : M value :=
  if is_undefined state then new_object [] else ret state.

(** The first part of [combination]'s body: outside production, the
    advisory about the shape of the state, when there is one. *)
Definition advisory_phase (c : closure) (state action : value) : M unit :=
  if negb production then
    let* warningMessage :=
      getUnexpectedStateShapeWarningMessage state (finalReducers c) action
        (default 0%nat (unexpectedKeyCache c)) in
    match warningMessage with
    | Some message => warning message
    | None => ret tt
    end
  else ret tt.

(** The body of [combination] after the test of [sanityError] *)
Definition combination_body (c : closure) (state action : value) : M value :=
  let* _ := advisory_phase c state action in
  let* l := alloc in
  let* (hasChanged, nextState) :=
    combination_loop c state action (finalReducerKeys c) false [] in
  ret (if hasChanged : bool then VObj l Plain nextState else state).

Definition combination (c : closure) (state action : value) : M value :=
  let* state := default_state state in
  match sanityError c with
  | Some e => if exn_truthy e then throw e else combination_body c state action
  | None => combination_body c state action
  end.

(** ** Properties of the object helpers *)

Lemma own_prop_None (key : string) (props : list (string * value)) :
  own_prop key props = None <-> key ∉ keys props.
Proof.
  induction props as [|[k v] rest IH]; simpl.
  - split; [intros _; apply not_elem_of_nil | reflexivity].
  - destruct (String.eqb_spec k key) as [->|Hne].
    + split; [discriminate|]. intros H. exfalso. apply H. left.
    + rewrite IH. rewrite not_elem_of_cons. split; [intros H; split; congruence | intros [_ H]; exact H].
Qed.

Lemma own_prop_elem (key : string) (v : value) (props : list (string * value)) :
  NoDup (keys props) -> (key, v) ∈ props -> own_prop key props = Some v.
Proof.
  induction props as [|[k w] rest IH]; simpl; intros Hnd Hin.
  - apply elem_of_nil in Hin as [].
  - apply NoDup_cons in Hnd as [Hk Hnd].
    apply elem_of_cons in Hin as [Heq|Hin].
    + inversion Heq; subst. rewrite String.eqb_refl. reflexivity.
    + destruct (String.eqb_spec k key) as [->|Hne]; [|auto].
      exfalso. apply Hk. unfold keys.
      apply (list_elem_of_fmap_2 fst) in Hin. exact Hin.
Qed.

Lemma own_prop_set_prop (key key' : string) (v : value) (props : list (string * value)) :
  own_prop key' (set_prop key v props)
  = if String.eqb key key' then Some v else own_prop key' props.
Proof.
  induction props as [|[k w] rest IH]; simpl.
  - reflexivity.
  - destruct (String.eqb_spec k key) as [->|Hne]; simpl.
    + destruct (String.eqb_spec key key'); reflexivity.
    + rewrite IH. destruct (String.eqb_spec key key') as [<-|Hne'].
      * apply String.eqb_neq in Hne. rewrite Hne. reflexivity.
      * reflexivity.
Qed.

Lemma keys_set_prop (key : string) (v : value) (props : list (string * value)) :
  keys (set_prop key v props)
  = if hasOwnProperty props key then keys props else keys props ++ [key].
Proof.
  unfold hasOwnProperty.
  induction props as [|[k w] rest IH]; simpl.
  - reflexivity.
  - destruct (String.eqb_spec k key) as [->|Hne]; simpl.
    + reflexivity.
    + rewrite IH. destruct (own_prop key rest); reflexivity.
Qed.

Lemma keys_set_prop_fresh (key : string) (v : value) (props : list (string * value)) :
  key ∉ keys props -> set_prop key v props = props ++ [(key, v)].
Proof.
  induction props as [|[k w] rest IH]; simpl; intros Hk.
  - reflexivity.
  - apply not_elem_of_cons in Hk as [Hne Hk].
    destruct (String.eqb_spec k key) as [->|_]; [congruence|].
    rewrite IH by exact Hk. reflexivity.
Qed.

Lemma NoDup_keys_set_prop (key : string) (v : value) (props : list (string * value)) :
  NoDup (keys props) -> NoDup (keys (set_prop key v props)).
Proof.
  intros Hnd. rewrite keys_set_prop. unfold hasOwnProperty.
  destruct (own_prop key props) eqn:E; [exact Hnd|].
  apply own_prop_None in E.
  apply NoDup_app. split; [exact Hnd|]. split.
  - intros x Hx Hx'. apply list_elem_of_singleton in Hx'. subst. contradiction.
  - apply NoDup_singleton.
Qed.

Lemma assign_other (key : string) (v : value) (props : list (string * value)) :
  key <> "__proto__" -> assign key v props = set_prop key v props.
Proof.
  intros H. unfold assign. destruct (String.eqb_spec key "__proto__"); [contradiction|].
  reflexivity.
Qed.

Lemma own_prop_assign (key key' : string) (v : value) (props : list (string * value)) :
  own_prop key' (assign key v props)
  = if String.eqb key key' && negb (String.eqb key "__proto__")
    then Some v else own_prop key' props.
Proof.
  unfold assign. destruct (String.eqb key "__proto__"); cbn [negb].
  - rewrite andb_false_r. reflexivity.
  - rewrite andb_true_r. apply own_prop_set_prop.
Qed.

Lemma NoDup_keys_assign (key : string) (v : value) (props : list (string * value)) :
  NoDup (keys props) -> NoDup (keys (assign key v props)).
Proof.
  unfold assign. destruct (String.eqb key "__proto__"); [auto|apply NoDup_keys_set_prop].
Qed.

(** ** What [combineReducers] builds *)

(** The entries that survive the first loop, and its advisories, as
    functions of the reducer map.  An entry survives when its value is
    callable and its key is not [__proto__]: the assignment of that key
    adds no property to [finalReducers]. *)
Definition survivors (reducers : list (string * value)) (ks : list string)
    (acc : list (string * value)) : list (string * value) :=
  fold_left (fun acc key =>
               if is_function (read reducers key)
               then assign key (read reducers key) acc else acc) ks acc.

Definition survives (reducers : list (string * value)) (key : string) : bool :=
  is_function (read reducers key) && negb (String.eqb key "__proto__").

Definition advisories (reducers : list (string * value)) (ks : list string) : list string :=
  map (fun key => "No reducer provided for key " +:+ quoted key)
      (filter (fun key => is_undefined (read reducers key) = true) ks).

Lemma collect_spec (reducers : list (string * value)) (ks : list string)
    (acc : list (string * value)) (w : world) :
  collect reducers ks acc w
  = (World (next_loc w)
           (console w ++ (if production then [] else advisories reducers ks))
           (draws w) (heap w),
     Normal (survivors reducers ks acc)).
Proof.
  revert acc w. induction ks as [|key rest IH]; intros acc w.
  - destruct w; simpl. unfold ret, advisories. simpl.
    destruct production; rewrite app_nil_r; reflexivity.
  - cbn [collect]. unfold bind at 1.
    rewrite typeof_undefined, typeof_function.
    unfold advisories. rewrite filter_cons. cbn [survivors fold_left].
    destruct production; simpl.
    + rewrite IH. reflexivity.
    + destruct (is_undefined (read reducers key)) eqn:E.
      * unfold warning. rewrite IH. simpl.
        rewrite <- app_assoc. reflexivity.
      * unfold ret at 1. rewrite IH. reflexivity.
Qed.

Lemma survives_true (reducers : list (string * value)) (key : string) :
  survives reducers key = true
  <-> is_function (read reducers key) = true /\ key <> "__proto__".
Proof.
  unfold survives. rewrite andb_true_iff, negb_true_iff. split.
  - intros [H1 H2]. split; [exact H1|]. apply String.eqb_neq. exact H2.
  - intros [H1 H2]. split; [exact H1|]. apply String.eqb_neq. exact H2.
Qed.

Lemma survivors_keys (reducers : list (string * value)) (ks : list string)
    (acc : list (string * value)) (key : string) :
  key ∈ keys (survivors reducers ks acc) ->
  key ∈ keys acc \/ (key ∈ ks /\ survives reducers key = true).
Proof.
  revert acc. induction ks as [|k rest IH]; intros acc; simpl.
  - auto.
  - intros H. apply IH in H as [H|[H1 H2]].
    + destruct (is_function (read reducers k)) eqn:E; [|auto].
      unfold assign in H. destruct (String.eqb_spec k "__proto__") as [->|Hne]; [auto|].
      rewrite keys_set_prop in H.
      destruct (hasOwnProperty acc k); [auto|].
      apply elem_of_app in H as [H|H]; [auto|].
      apply list_elem_of_singleton in H. subst. right. split; [left|].
      apply survives_true. split; assumption.
    + right. split; [right; exact H1 | exact H2].
Qed.

Lemma survivors_keys_acc (reducers : list (string * value)) (ks : list string)
    (acc : list (string * value)) (key : string) :
  key ∈ keys acc -> key ∈ keys (survivors reducers ks acc).
Proof.
  revert acc. induction ks as [|k rest IH]; intros acc H; simpl.
  - exact H.
  - apply IH. destruct (is_function (read reducers k)); [|exact H].
    unfold assign. destruct (String.eqb k "__proto__"); [exact H|].
    rewrite keys_set_prop. destruct (hasOwnProperty acc k); [exact H|].
    apply elem_of_app. left. exact H.
Qed.

Lemma survivors_keys_intro (reducers : list (string * value)) (ks : list string)
    (acc : list (string * value)) (key : string) :
  key ∈ ks -> survives reducers key = true ->
  key ∈ keys (survivors reducers ks acc).
Proof.
  revert acc. induction ks as [|k rest IH]; intros acc Hin Hs; simpl.
  - apply elem_of_nil in Hin as [].
  - apply elem_of_cons in Hin as [->|Hin]; [|apply IH; assumption].
    apply survives_true in Hs as [Hf Hne]. rewrite Hf. apply survivors_keys_acc.
    rewrite assign_other by exact Hne.
    rewrite keys_set_prop. unfold hasOwnProperty.
    destruct (own_prop k acc) eqn:E.
    + destruct (own_prop_None k acc) as [_ H].
      destruct (decide (k ∈ keys acc)) as [Hk|Hk]; [exact Hk|].
      rewrite (H Hk) in E. discriminate.
    + apply elem_of_app. right. left.
Qed.

Lemma survivors_NoDup (reducers : list (string * value)) (ks : list string)
    (acc : list (string * value)) :
  NoDup (keys acc) -> NoDup (keys (survivors reducers ks acc)).
Proof.
  revert acc. induction ks as [|k rest IH]; intros acc H; simpl.
  - exact H.
  - apply IH. destruct (is_function (read reducers k)); [|exact H].
    apply NoDup_keys_assign. exact H.
Qed.

(** With distinct keys, the survivors are the surviving entries in order. *)
Lemma survivors_filter (reducers : list (string * value)) (ks : list string)
    (acc : list (string * value)) :
  NoDup ks -> (forall key, key ∈ ks -> key ∉ keys acc) ->
  survivors reducers ks acc
  = acc ++ map (fun key => (key, read reducers key))
               (filter (fun key => survives reducers key = true) ks).
Proof.
  revert acc. induction ks as [|k rest IH]; intros acc Hnd Hfresh; simpl.
  - rewrite app_nil_r. reflexivity.
  - apply NoDup_cons in Hnd as [Hk Hnd]. rewrite filter_cons.
    destruct (survives reducers k) eqn:E.
    + rewrite decide_True by reflexivity.
      apply survives_true in E as [Hf Hne]. rewrite Hf.
      rewrite assign_other by exact Hne.
      rewrite keys_set_prop_fresh by (apply Hfresh; left).
      rewrite IH; [rewrite <- app_assoc; reflexivity | exact Hnd |].
      intros key Hin. unfold keys. rewrite fmap_app. simpl.
      intros H. apply elem_of_app in H as [H|H].
      * apply (Hfresh key); [right; exact Hin | exact H].
      * apply list_elem_of_singleton in H. subst. contradiction.
    + rewrite decide_False by discriminate.
      assert (Hsame : (if is_function (read reducers k)
                       then assign k (read reducers k) acc else acc) = acc).
      { unfold survives in E. destruct (is_function (read reducers k)); [|reflexivity].
        cbn [andb] in E. apply negb_false_iff in E. unfold assign. rewrite E. reflexivity. }
      rewrite Hsame.
      apply IH; [exact Hnd|]. intros key Hin. apply Hfresh. right. exact Hin.
Qed.

Lemma survivors_callable (reducers : list (string * value)) (key : string) :
  key ∈ keys (survivors reducers (keys reducers) [])
  <-> key ∈ keys reducers /\ is_function (read reducers key) = true
      /\ key <> "__proto__".
Proof.
  split.
  - intros Hin. apply survivors_keys in Hin as [Hin|[Hin Hs]];
      [apply elem_of_nil in Hin as []|].
    apply survives_true in Hs. split; [exact Hin|exact Hs].
  - intros [Hin Hs]. apply survivors_keys_intro; [exact Hin|].
    apply survives_true. exact Hs.
Qed.

(** The key [__proto__] never survives. *)
Lemma survivors_no_proto (reducers : list (string * value)) (ks : list string) :
  "__proto__" ∉ keys (survivors reducers ks []).
Proof.
  intros H. apply survivors_keys in H as [H|[_ H]]; [apply elem_of_nil in H as []|].
  apply survives_true in H as [_ H]. congruence.
Qed.

(** The sanity check reports nothing and mutates no object. *)
Lemma assertOneReducer_console (reducers : list (string * value)) (key : string) (w : world) :
  console (assertOneReducer reducers key w).1 = console w.
Proof.
  unfold assertOneReducer, new_object, alloc, call, lift, random, bind, ret, throw.
  simpl. destruct (invoke _ _ _) as [v|e]; [|reflexivity].
  destruct (String.eqb _ _); [reflexivity|]. simpl.
  destruct (invoke _ _ _) as [v'|e']; [|reflexivity].
  destruct (String.eqb _ _); reflexivity.
Qed.

Lemma forEach_console (body : string -> M unit) (l : list string) (w : world) :
  (forall key w, console (body key w).1 = console w) ->
  console (forEach body l w).1 = console w.
Proof.
  intros Hbody. revert w. induction l as [|key rest IH]; intros w; simpl.
  - reflexivity.
  - unfold bind. specialize (Hbody key w).
    destruct (body key w) as [w' [[]|e]]; simpl in *.
    + rewrite IH. exact Hbody.
    + exact Hbody.
Qed.

(** [combineReducers] always returns; the closure holds the callable
    entries, and the console has grown by the advisories of the first loop
    and by nothing else. *)
Lemma combineReducers_spec (reducers : list (string * value)) (w : world) :
  exists w' cache err,
    combineReducers reducers w
    = (w', Normal (Closure (survivors reducers (keys reducers) [])
                           (keys (survivors reducers (keys reducers) []))
                           cache err))
    /\ console w'
       = console w ++ (if production then [] else advisories reducers (keys reducers)).
Proof.
  unfold combineReducers. unfold bind at 1. rewrite collect_spec.
  set (fr := survivors reducers (keys reducers) []).
  set (w1 := World _ _ _ _).
  unfold bind at 1.
  assert (Hc : exists w2 cache,
             (if negb production
              then let* l := new_mutable in ret (Some l)
              else ret None) w1 = (w2, Normal cache) /\ console w2 = console w1).
  { destruct production; simpl.
    - exists w1, None. split; reflexivity.
    - unfold bind, new_mutable, ret. simpl. eexists _, _. split; reflexivity. }
  destruct Hc as (w2 & cache & -> & Hw2).
  unfold bind at 1, try_catch.
  pose proof (forEach_console (assertOneReducer fr) (keys fr) w2
                (assertOneReducer_console fr)) as Hcons.
  fold (assertReducerSanity fr) in Hcons.
  unfold bind at 1.
  destruct (assertReducerSanity fr w2) as [w3 [[]|e]]; simpl in *.
  - exists w3, cache, None. split; [reflexivity|]. rewrite Hcons, Hw2. reflexivity.
  - exists w3, cache, (Some e). split; [reflexivity|]. rewrite Hcons, Hw2. reflexivity.
Qed.

Lemma combineReducers_closure (reducers : list (string * value)) (w w' : world) (c : closure) :
  combineReducers reducers w = (w', Normal c) ->
  finalReducers c = survivors reducers (keys reducers) []
  /\ finalReducerKeys c = keys (finalReducers c)
  /\ NoDup (finalReducerKeys c).
Proof.
  intros H. destruct (combineReducers_spec reducers w) as (w1 & cache & err & Heq & _).
  rewrite Heq in H. inversion H; subst; simpl.
  split; [reflexivity|]. split; [reflexivity|].
  apply survivors_NoDup. apply NoDup_nil_2.
Qed.

Lemma combineReducers_no_proto (reducers : list (string * value)) (w w' : world)
    (c : closure) :
  combineReducers reducers w = (w', Normal c) -> "__proto__" ∉ finalReducerKeys c.
Proof.
  intros H. destruct (combineReducers_closure reducers w w' c H) as (Hfr & Hk & _).
  rewrite Hk, Hfr. apply survivors_no_proto.
Qed.

(** What [sanityError] holds is what [assertReducerSanity] threw. *)
Lemma combineReducers_sanityError (reducers : list (string * value)) (w w' : world) (c : closure) :
  combineReducers reducers w = (w', Normal c) ->
  exists w1,
    sanityError c
    = match (assertReducerSanity (finalReducers c) w1).2 with
      | Normal _ => None
      | Raised e => Some e
      end.
Proof.
  unfold combineReducers. unfold bind at 1. rewrite collect_spec.
  set (fr := survivors reducers (keys reducers) []).
  set (w1 := World _ _ _ _).
  unfold bind at 1.
  destruct ((if negb production
             then let* l := new_mutable in ret (Some l)
             else ret None) w1) as [w2 [cache|e]] eqn:E.
  2:{ destruct production; simpl in E; unfold bind, new_mutable, ret in E;
      simpl in E; discriminate. }
  unfold bind at 1, try_catch. unfold bind at 1.
  destruct (assertReducerSanity fr w2) as [w3 [[]|e]] eqn:E'; simpl;
    intros H; inversion H; subst; simpl; exists w2; rewrite E'; reflexivity.
Qed.

(** When the sanity check throws, a reducer returned [undefined] for the
    init action or for the probe, or threw itself. *)
Lemma assertReducerSanity_raised (reducers : list (string * value)) (w w' : world) (e : exn) :
  assertReducerSanity reducers w = (w', Raised e) ->
  exists key, key ∈ keys reducers /\
    ((exists l, invoke (read reducers key) VUndefined (VObj l Plain [("type", VStr INIT)])
                = Normal VUndefined /\ e = init_error key)
     \/ (exists l n, invoke (read reducers key) VUndefined
                       (VObj l Plain [("type", VStr (probe_type (random36 n)))])
                     = Normal VUndefined /\ e = probe_error key)
     \/ (exists a, invoke (read reducers key) VUndefined a = Raised e)).
Proof.
  unfold assertReducerSanity. generalize (keys reducers) as ks.
  intros ks. revert w. induction ks as [|key rest IH]; intros w; simpl.
  - unfold ret. discriminate.
  - unfold bind at 1.
    destruct (assertOneReducer reducers key w) as [w1 [[]|e1]] eqn:E.
    + intros H. apply IH in H as (k & Hk & H). exists k. split; [right; exact Hk | exact H].
    + intros H. inversion H; subst. exists key. split; [left|].
      revert E. unfold assertOneReducer, new_object, alloc, call, lift, random, bind, ret, throw.
      simpl.
      destruct (invoke (read reducers key) VUndefined
                  (VObj (next_loc w) Plain [("type", VStr INIT)])) as [v|e0] eqn:E1.
      2:{ intros H'; inversion H'; subst. right. right. eexists. exact E1. }
      rewrite typeof_undefined. destruct (is_undefined v) eqn:Ev.
      { intros H'. inversion H'; subst. left. exists (next_loc w).
        destruct v; try discriminate. split; [exact E1|reflexivity]. }
      simpl.
      destruct (invoke (read reducers key) VUndefined
                  (VObj (S (next_loc w)) Plain
                     [("type", VStr (probe_type (random36 (draws w))))]))
        as [v'|e0] eqn:E2.
      2:{ intros H'; inversion H'; subst. right. right. eexists. exact E2. }
      rewrite typeof_undefined. destruct (is_undefined v') eqn:Ev'; [|discriminate].
      intros H'. inversion H'; subst. right. left. eexists _, _.
      destruct v'; try discriminate. split; [exact E2|reflexivity].
Qed.

Lemma advisories_entries (reducers l : list (string * value)) :
  (forall kv, kv ∈ l -> read reducers kv.1 = kv.2) ->
  advisories reducers (keys l)
  = map (fun kv => "No reducer provided for key " +:+ quoted kv.1)
        (filter (fun kv => is_undefined kv.2 = true) l).
Proof.
  unfold advisories. induction l as [|[k v] rest IH]; intros Hread; [reflexivity|].
  pose proof (Hread (k, v) ltac:(left)) as Hkv. simpl in Hkv.
  simpl. rewrite !filter_cons. simpl. rewrite Hkv.
  destruct (decide (is_undefined v = true)); simpl;
    rewrite IH by (intros kv Hin; apply Hread; right; exact Hin); reflexivity.
Qed.

(** ** What [combination] returns *)

(** The value of the parameter [state = {}] in a call made in world [w]:
    the argument, or a new empty object when the argument is [undefined]. *)
Definition state_parameter (state : value) (w : world) : value :=
  if is_undefined state then VObj (next_loc w) Plain [] else state.

(** Successive calls of one composed reducer, each in the world the
    previous one left. *)
Fixpoint run_calls (c : closure) (calls : list (value * value)) (w : world)
  : list (result value) :=
  match calls with
  | [] => []
  | (state, action) :: rest =>
      let (w', r) := combination c state action w in r :: run_calls c rest w'
  end.

Lemma get_prop_truthy (o : value) (key : string) :
  truthy o = true -> exists v, get_prop inherited o key = Normal v.
Proof. destruct o; simpl; try discriminate; eauto. Qed.

Lemma action_is_init_returns (action : value) :
  exists b, forall w,
    (if truthy action
     then let* type := lift (get_prop inherited action "type") in
          ret (strict_eq type (VStr INIT))
     else ret false) w = (w, Normal b).
Proof.
  destruct (truthy action) eqn:E; [|eexists; reflexivity].
  destruct (get_prop_truthy action "type" E) as [v Hv].
  unfold bind, lift, ret. rewrite Hv. eexists; reflexivity.
Qed.

(** What [reducers.hasOwnProperty(key)] comes to *)
Definition own_answer (reducers : list (string * value)) (key : string) : result bool :=
  match own_prop "hasOwnProperty" reducers with
  | Some fn =>
      match invoke fn (VStr key) VUndefined with
      | Normal r => Normal (truthy r)
      | Raised e => Raised e
      end
  | None => Normal (hasOwnProperty reducers key)
  end.

Lemma has_own_answer (reducers : list (string * value)) (key : string) (w : world) :
  has_own reducers key w = (w, own_answer reducers key).
Proof.
  unfold has_own, own_answer. destruct (own_prop "hasOwnProperty" reducers) as [fn|];
    [|reflexivity].
  unfold bind, call, lift, ret. destruct (invoke fn (VStr key) VUndefined); reflexivity.
Qed.

(** The test of the filter, for the cache [l] holding [cache] *)
Definition is_unexpected (reducers : list (string * value)) (l : nat)
    (cache : list (string * value)) (key : string) : result bool :=
  match own_answer reducers key with
  | Normal own =>
      Normal (negb own
              && negb (truthy (match own_prop key cache with
                               | Some v => v
                               | None => inherited (VObj l Plain cache) key
                               end)))
  | Raised e => Raised e
  end.

(** The filter stops at the first test that throws. *)
Fixpoint filter_result (test : string -> result bool) (ks : list string)
  : result (list string) :=
  match ks with
  | [] => Normal []
  | key :: rest =>
      match test key with
      | Raised e => Raised e
      | Normal keep =>
          match filter_result test rest with
          | Raised e => Raised e
          | Normal kept => Normal (if keep : bool then key :: kept else kept)
          end
      end
  end.

Lemma filter_keys_result (reducers : list (string * value)) (l : nat)
    (cache : list (string * value)) (ks : list string) (w : world) :
  filter_keys
    (fun key =>
       let* own := has_own reducers key in
       ret (negb own
            && negb (truthy (match own_prop key cache with
                             | Some v => v
                             | None => inherited (VObj l Plain cache) key
                             end)))) ks w
  = (w, filter_result (is_unexpected reducers l cache) ks).
Proof.
  induction ks as [|key rest IH]; [reflexivity|].
  cbn [filter_keys filter_result]. unfold bind at 1. unfold bind at 1.
  rewrite has_own_answer. unfold is_unexpected at 1.
  destruct (own_answer reducers key) as [own|e]; [|reflexivity].
  unfold ret at 1. unfold bind at 1. rewrite IH.
  destruct (filter_result _ rest); reflexivity.
Qed.

Lemma filter_result_returns (test : string -> result bool) (ks : list string) :
  (forall key, key ∈ ks -> exists b, test key = Normal b) ->
  exists kept, filter_result test ks = Normal kept.
Proof.
  induction ks as [|key rest IH]; intros H; [eexists; reflexivity|].
  cbn [filter_result]. destruct (H key ltac:(left)) as [b ->].
  destruct IH as [kept ->]; [intros k Hk; apply H; right; exact Hk|].
  eexists. reflexivity.
Qed.

(** When the shape check of a call returns.  It throws in two places only:
    where the class of a state that is not a plain object has no match, and
    where a reducer stored under the key [hasOwnProperty], called with a key
    of the state in place of the built-in test, throws. *)
Definition shape_check_returns (reducers : list (string * value)) (inputState : value)
  : Prop :=
  reducers = []
  \/ (isPlainObject inputState = false
      /\ exists name, class_name class_match inputState = Some name)
  \/ (isPlainObject inputState = true
      /\ forall key, key ∈ own_keys inputState ->
           exists b, own_answer reducers key = Normal b).

(** The advisory phase of a call returns: in production it does nothing. *)
Definition advisory_returns (c : closure) (state : value) : Prop :=
  production = true \/ shape_check_returns (finalReducers c) state.

Lemma getUnexpectedStateShapeWarningMessage_returns
    (inputState : value) (reducers : list (string * value)) (action : value)
    (cache : nat) (w : world) :
  shape_check_returns reducers inputState ->
  exists w' r,
    getUnexpectedStateShapeWarningMessage inputState reducers action cache w
    = (w', Normal r)
    /\ next_loc w' = next_loc w.
Proof.
  intros Hs.
  unfold getUnexpectedStateShapeWarningMessage. unfold bind at 1.
  destruct (action_is_init_returns action) as [b Hb]. rewrite Hb.
  destruct reducers as [|kv reducers]; [eexists _, _; split; reflexivity|].
  cbn [keys map length Nat.eqb].
  destruct Hs as [Hs|[[Hp (name & Hn)]|[Hp Hk]]]; [discriminate| |].
  - rewrite Hp, Hn. cbn [negb]. eexists _, _; split; reflexivity.
  - rewrite Hp. cbn [negb]. unfold bind at 1, read_mutable at 1.
    unfold bind at 1. rewrite filter_keys_result.
    destruct (filter_result_returns
                (is_unexpected (kv :: reducers) cache (default [] (heap w !! cache)))
                (own_keys inputState)) as [kept ->].
    { intros key Hin. unfold is_unexpected. destruct (Hk key Hin) as [own ->].
      eexists. reflexivity. }
    unfold bind, write_mutable, ret; simpl.
    destruct (0 <? _)%nat; eexists _, _; split; reflexivity.
Qed.

Lemma advisory_phase_returns (c : closure) (state action : value) (w : world) :
  advisory_returns c state ->
  exists w', advisory_phase c state action w = (w', Normal tt)
             /\ next_loc w' = next_loc w.
Proof.
  intros [Hp|Hs]; unfold advisory_phase.
  - rewrite Hp. exists w. split; reflexivity.
  - destruct production; [exists w; split; reflexivity|]. cbn [negb].
    destruct (getUnexpectedStateShapeWarningMessage_returns state (finalReducers c)
                action (default 0%nat (unexpectedKeyCache c)) w Hs) as (w1 & r & Hr & Hl).
    unfold bind. rewrite Hr. destruct r as [message|].
    + unfold warning. eexists. split; [reflexivity|exact Hl].
    + unfold ret. eexists. split; [reflexivity|exact Hl].
Qed.

Section Loop.

Variable c : closure.
Variables state action : value.

(** [prev key] and [next key]: the previous sub-state read under [key] and
    what the reducer of [key] returns for it. *)
Variables prev next : string -> value.

Definition defined_results (ks : list string) : Prop :=
  forall key, key ∈ ks ->
    get_prop inherited state key = Normal (prev key)
    /\ invoke (read (finalReducers c) key) (prev key) action = Normal (next key)
    /\ is_undefined (next key) = false.

Lemma combination_loop_spec (ks : list string) (hasChanged : bool)
    (nextState : list (string * value)) (w : world) :
  defined_results ks ->
  combination_loop c state action ks hasChanged nextState w
  = (w, Normal (hasChanged || existsb (fun key => strict_neq (next key) (prev key)) ks,
                fold_left (fun ns key => assign key (next key) ns) ks nextState)).
Proof.
  revert hasChanged nextState. induction ks as [|key rest IH]; intros hc ns H.
  - simpl. unfold ret. rewrite orb_false_r. reflexivity.
  - destruct (H key) as (Hp & Hn & Hd); [left|].
    cbn [combination_loop]. unfold bind at 1, lift at 1. rewrite Hp.
    unfold bind at 1, call, lift at 1. rewrite Hn.
    rewrite typeof_undefined, Hd.
    rewrite IH by (intros k Hk; apply H; right; exact Hk).
    simpl. rewrite orb_assoc. reflexivity.
Qed.

Lemma fold_assign_fresh (ks : list string) (ns : list (string * value)) :
  NoDup ks -> "__proto__" ∉ ks -> (forall key, key ∈ ks -> key ∉ keys ns) ->
  fold_left (fun ns key => assign key (next key) ns) ks ns
  = ns ++ map (fun key => (key, next key)) ks.
Proof.
  revert ns. induction ks as [|k rest IH]; intros ns Hnd Hproto Hfresh; simpl.
  - rewrite app_nil_r. reflexivity.
  - apply NoDup_cons in Hnd as [Hk Hnd].
    apply not_elem_of_cons in Hproto as [Hne Hproto].
    rewrite assign_other by congruence.
    rewrite keys_set_prop_fresh by (apply Hfresh; left).
    rewrite IH; [rewrite <- app_assoc; reflexivity | exact Hnd | exact Hproto |].
    intros key Hin. unfold keys. rewrite fmap_app. simpl.
    intros H. apply elem_of_app in H as [H|H].
    + apply (Hfresh key); [right; exact Hin | exact H].
    + apply list_elem_of_singleton in H. subst. contradiction.
Qed.

Lemma some_changed (ks : list string) :
  existsb (fun key => strict_neq (next key) (prev key)) ks
  = negb (forallb (fun key => strict_eq (next key) (prev key)) ks).
Proof.
  induction ks as [|k rest IH]; simpl; [reflexivity|].
  rewrite IH, negb_andb. reflexivity.
Qed.

Lemma combination_body_spec (w : world) :
  NoDup (finalReducerKeys c) -> "__proto__" ∉ finalReducerKeys c ->
  advisory_returns c state ->
  defined_results (finalReducerKeys c) ->
  exists w',
    combination_body c state action w
    = (w', Normal (if forallb (fun key => strict_eq (next key) (prev key)) (finalReducerKeys c)
                   then state
                   else VObj (next_loc w) Plain
                          (map (fun key => (key, next key)) (finalReducerKeys c))))
    /\ next_loc w' = S (next_loc w).
Proof.
  intros Hnd Hproto Hadv H. unfold combination_body. unfold bind at 1.
  destruct (advisory_phase_returns c state action w Hadv) as (w1 & -> & Hl).
  unfold bind at 1, alloc. unfold bind at 1.
  rewrite combination_loop_spec by exact H.
  rewrite fold_assign_fresh;
    [|exact Hnd|exact Hproto|intros; apply not_elem_of_nil].
  unfold ret. simpl.
  exists (World (S (next_loc w1)) (console w1) (draws w1) (heap w1)).
  split; [|simpl; rewrite Hl; reflexivity].
  rewrite Hl. f_equal. f_equal.
  rewrite some_changed. destruct (forallb _ _); reflexivity.
Qed.

End Loop.

(** The composed reducer on states whose sub-reducers all return defined
    results, when its advisory phase returns: the state it was given when no
    key changed by [!==], a new object with the results otherwise. *)
Lemma combination_spec (c : closure) (state action : value) (w : world)
    (prev next : string -> value) :
  NoDup (finalReducerKeys c) -> "__proto__" ∉ finalReducerKeys c ->
  sanityError c = None ->
  advisory_returns c (state_parameter state w) ->
  defined_results c (state_parameter state w) action prev next (finalReducerKeys c) ->
  exists w' l,
    combination c state action w
    = (w', Normal (if forallb (fun key => strict_eq (next key) (prev key)) (finalReducerKeys c)
                   then state_parameter state w
                   else VObj l Plain (map (fun key => (key, next key)) (finalReducerKeys c))))
    /\ (next_loc w <= l < next_loc w')%nat
    /\ (forall l0 k props, state = VObj l0 k props -> (l0 < next_loc w)%nat -> l <> l0).
Proof.
  intros Hnd Hproto Hs Hadv H. unfold combination, default_state, state_parameter in *.
  rewrite Hs. unfold bind at 1.
  destruct (is_undefined state) eqn:Eu.
  - unfold new_object, bind, alloc, ret. simpl.
    set (w1 := World _ _ _ _).
    destruct (combination_body_spec c (VObj (next_loc w) Plain []) action prev next w1
                Hnd Hproto Hadv H) as (w' & -> & Hl).
    exists w', (next_loc w1). split; [reflexivity|]. subst w1; simpl in *.
    split; [lia|]. intros l0 k props ->. discriminate.
  - unfold ret.
    destruct (combination_body_spec c state action prev next w Hnd Hproto Hadv H)
      as (w' & -> & Hl).
    exists w', (next_loc w). split; [reflexivity|]. split; [lia|].
    intros l0 k props _ Hlt. lia.
Qed.

Lemma combination_raises (c : closure) (e : exn) (state action : value) (w : world) :
  sanityError c = Some e -> exn_truthy e = true ->
  (combination c state action w).2 = Raised e.
Proof.
  intros Hs He. unfold combination, default_state. rewrite Hs, He.
  unfold bind. destruct (is_undefined state); reflexivity.
Qed.

(** ** The claims *)

(** C1 — When the sanity check made at composition time captured a failure
    (a surviving reducer returned [undefined] for the init action, or for the
    probe), every call of the composed reducer raises that same error,
    whatever the state, the action and the world it is called in: the first
    call and every later one. *)
Theorem sanity_failure_raised_on_every_call
    (reducers : list (string * value)) (w0 w1 : world) (c : closure)
    (key : string) (e : exn) :
  combineReducers reducers w0 = (w1, Normal c) ->
  sanityError c = Some e ->
  e = init_error key \/ e = probe_error key ->
  (forall state action w, (combination c state action w).2 = Raised e)
  /\ (forall calls w, Forall (fun r => r = Raised e) (run_calls c calls w)).
Proof.
  intros _ Hs He.
  assert (Ht : exn_truthy e = true) by (destruct He; subst; reflexivity).
  split.
  - intros state action w. apply combination_raises; assumption.
  - intros calls. induction calls as [|[state action] rest IH]; intros w; simpl.
    + constructor.
    + pose proof (combination_raises c e state action w Hs Ht) as H.
      destruct (combination c state action w) as [w' r]. simpl in H. subst r.
      constructor; [reflexivity|apply IH].
Qed.

(** X24 — With no captured sanity failure, every surviving reducer
    returning a defined result, and an advisory phase that returns (in
    production it always does): when each result is identical ([===]) to
    the previous sub-state of its key, the composed reducer returns the very
    state it was given (for an [undefined] argument, the object the
    parameter defaults to); otherwise it returns a newly created object
    holding, for each surviving key, the result of its reducer. *)
Theorem combination_same_reference_or_new_map
    (reducers : list (string * value)) (w0 w1 : world) (c : closure)
    (state action : value) (w : world) (prev next : string -> value) :
  combineReducers reducers w0 = (w1, Normal c) ->
  sanityError c = None ->
  advisory_returns c (state_parameter state w) ->
  defined_results c (state_parameter state w) action prev next (finalReducerKeys c) ->
  exists w' l,
    combination c state action w
    = (w', Normal (if forallb (fun key => strict_eq (next key) (prev key)) (finalReducerKeys c)
                   then state_parameter state w
                   else VObj l Plain (map (fun key => (key, next key)) (finalReducerKeys c))))
    /\ (next_loc w <= l < next_loc w')%nat
    /\ (forall l0 k props, state = VObj l0 k props -> (l0 < next_loc w)%nat -> l <> l0)
    /\ (is_undefined state = false -> state_parameter state w = state).
Proof.
  intros Hc Hs Hadv H.
  destruct (combineReducers_closure _ _ _ _ Hc) as (_ & _ & Hnd).
  pose proof (combineReducers_no_proto _ _ _ _ Hc) as Hproto.
  destruct (combination_spec c state action w prev next Hnd Hproto Hs Hadv H)
    as (w' & l & Heq & Hl & Hne).
  exists w', l. repeat split; try assumption; try lia.
  intros Hu. unfold state_parameter. rewrite Hu. reflexivity.
Qed.


(** X25 — Under the conditions of X24: when some surviving key changed by
    [!==], the own keys of the returned object are exactly the surviving
    reducer keys, so a key of the input state outside of them is not a key
    of the result; when none changed, the state given is returned as it is,
    with all its keys.  The surviving keys are the keys of the map whose
    value is callable, but for the key [__proto__], which never survives. *)
Theorem combination_result_keys
    (reducers : list (string * value)) (w0 w1 : world) (c : closure)
    (state action : value) (w : world) (prev next : string -> value) :
  combineReducers reducers w0 = (w1, Normal c) ->
  sanityError c = None ->
  advisory_returns c (state_parameter state w) ->
  defined_results c (state_parameter state w) action prev next (finalReducerKeys c) ->
  exists w' result,
    combination c state action w = (w', Normal result)
    /\ (if existsb (fun key => strict_neq (next key) (prev key)) (finalReducerKeys c)
        then own_keys result = finalReducerKeys c
             /\ (forall key, key ∈ own_keys (state_parameter state w) ->
                   key ∉ finalReducerKeys c -> key ∉ own_keys result)
        else result = state_parameter state w
             /\ own_keys result = own_keys (state_parameter state w))
    /\ (forall key, key ∈ finalReducerKeys c
          <-> key ∈ keys reducers /\ is_function (read reducers key) = true
              /\ key <> "__proto__").
Proof.
  intros Hc Hs Hadv H.
  destruct (combineReducers_closure _ _ _ _ Hc) as (Hfr & Hk & Hnd).
  pose proof (combineReducers_no_proto _ _ _ _ Hc) as Hproto.
  destruct (combination_spec c state action w prev next Hnd Hproto Hs Hadv H)
    as (w' & l & Heq & _).
  eexists _, _. split; [exact Heq|]. split.
  - rewrite some_changed. destruct (forallb _ _); simpl.
    + split; reflexivity.
    + assert (Hkeys : keys (map (fun key => (key, next key)) (finalReducerKeys c))
                      = finalReducerKeys c).
      { unfold keys. rewrite map_map. simpl. apply map_id. }
      rewrite Hkeys. split; [reflexivity|]. intros key _ Hn. exact Hn.
  - intros key. rewrite Hk, Hfr. apply survivors_callable.
Qed.

(** ** The sanity check, key by key *)

(** A reducer the sanity check accepts whatever it probes with: called on
    an [undefined] state, it returns a defined value for every action. *)
Definition well_behaved (fn : value) : Prop :=
  forall a, exists v, invoke fn VUndefined a = Normal v /\ is_undefined v = false.

(** The ways a reducer fails the check made for its key, with the error
    the check then throws: it returns [undefined] for the init action; it
    returns [undefined] for the probe; it throws, for the init action or
    for the probe. *)
Inductive fails_with (fn : value) (key : string) : exn -> Prop :=
| fails_init :
    (forall l, invoke fn VUndefined (VObj l Plain [("type", VStr INIT)]) = Normal VUndefined) ->
    fails_with fn key (init_error key)
| fails_probe :
    (forall l, exists v,
        invoke fn VUndefined (VObj l Plain [("type", VStr INIT)]) = Normal v
        /\ is_undefined v = false) ->
    (forall l n,
        invoke fn VUndefined (VObj l Plain [("type", VStr (probe_type (random36 n)))])
        = Normal VUndefined) ->
    fails_with fn key (probe_error key)
| fails_throw (e : exn) :
    (forall l, invoke fn VUndefined (VObj l Plain [("type", VStr INIT)]) = Raised e) ->
    fails_with fn key e
| fails_throw_probe (e : exn) :
    (forall l, exists v,
        invoke fn VUndefined (VObj l Plain [("type", VStr INIT)]) = Normal v
        /\ is_undefined v = false) ->
    (forall l n,
        invoke fn VUndefined (VObj l Plain [("type", VStr (probe_type (random36 n)))])
        = Raised e) ->
    fails_with fn key e.

Lemma assertOneReducer_passes (reducers : list (string * value)) (key : string) (w : world) :
  well_behaved (read reducers key) ->
  exists w', assertOneReducer reducers key w = (w', Normal tt).
Proof.
  intros H. unfold assertOneReducer, new_object, alloc, call, lift, random, bind, ret, throw.
  simpl.
  destruct (H (VObj (next_loc w) Plain [("type", VStr INIT)])) as (v & -> & Hv).
  rewrite typeof_undefined, Hv. simpl.
  destruct (H (VObj (S (next_loc w)) Plain
                 [("type", VStr (probe_type (random36 (draws w))))])) as (v' & -> & Hv').
  rewrite typeof_undefined, Hv'. eexists. reflexivity.
Qed.

Lemma assertOneReducer_fails (reducers : list (string * value)) (key : string) (e : exn)
    (w : world) :
  fails_with (read reducers key) key e ->
  exists w', assertOneReducer reducers key w = (w', Raised e).
Proof.
  intros H. unfold assertOneReducer, new_object, alloc, call, lift, random, bind, ret, throw.
  simpl. destruct H as [Hi|Hi Hp|e Hi|e Hi Hp].
  - rewrite Hi. simpl. eexists. reflexivity.
  - destruct (Hi (next_loc w)) as (v & -> & Hv). rewrite typeof_undefined, Hv. simpl.
    rewrite Hp. simpl. eexists. reflexivity.
  - rewrite Hi. eexists. reflexivity.
  - destruct (Hi (next_loc w)) as (v & -> & Hv). rewrite typeof_undefined, Hv. simpl.
    rewrite Hp. eexists. reflexivity.
Qed.

Lemma forEach_app (body : string -> M unit) (l1 l2 : list string) (w : world) :
  forEach body (l1 ++ l2) w
  = match forEach body l1 w with
    | (w', Normal _) => forEach body l2 w'
    | (w', Raised e) => (w', Raised e)
    end.
Proof.
  revert w. induction l1 as [|key rest IH]; intros w; simpl; [reflexivity|].
  unfold bind. destruct (body key w) as [w1 [[]|e]]; [apply IH|reflexivity].
Qed.

Lemma forEach_passes (body : string -> M unit) (l : list string) :
  (forall key, key ∈ l -> forall w, exists w', body key w = (w', Normal tt)) ->
  forall w, exists w', forEach body l w = (w', Normal tt).
Proof.
  induction l as [|key rest IH]; intros H w; simpl.
  - eexists. reflexivity.
  - unfold bind. destruct (H key ltac:(left) w) as [w1 ->].
    apply IH. intros k Hk. apply H. right. exact Hk.
Qed.

(** What the composed reducer keeps under a key is what the map holds
    under it, and it is callable. *)
Lemma survivors_read (reducers : list (string * value)) (ks : list string)
    (acc : list (string * value)) :
  (forall k v, own_prop k acc = Some v -> v = read reducers k /\ is_function v = true) ->
  forall k v, own_prop k (survivors reducers ks acc) = Some v ->
              v = read reducers k /\ is_function v = true.
Proof.
  revert acc. induction ks as [|key rest IH]; intros acc Hacc; simpl; [exact Hacc|].
  apply IH. destruct (is_function (read reducers key)) eqn:E; [|exact Hacc].
  intros k v. rewrite own_prop_assign.
  destruct (String.eqb_spec key k) as [->|_]; [|apply Hacc].
  destruct (negb (String.eqb k "__proto__")); [|apply Hacc].
  intros H. inversion H; subst. split; [reflexivity|exact E].
Qed.

Lemma read_survivors (reducers : list (string * value)) (key : string) :
  key ∈ keys (survivors reducers (keys reducers) []) ->
  read (survivors reducers (keys reducers) []) key = read reducers key
  /\ is_function (read reducers key) = true.
Proof.
  intros Hk. unfold read at 1.
  destruct (own_prop key (survivors reducers (keys reducers) [])) as [v|] eqn:E.
  - apply survivors_read in E as [-> Hf]; [split; [reflexivity|exact Hf]|].
    intros k v0 H. discriminate.
  - apply own_prop_None in E. contradiction.
Qed.

Lemma read_elem (reducers : list (string * value)) (key : string) :
  key ∈ keys reducers -> (key, read reducers key) ∈ reducers.
Proof.
  unfold read. induction reducers as [|[k v] rest IH]; simpl; intros H.
  - apply elem_of_nil in H as [].
  - destruct (String.eqb_spec k key) as [->|Hne]; [left|].
    apply elem_of_cons in H as [H|H]; [congruence|]. right. apply IH. exact H.
Qed.



(** ** A reducer that returns [undefined] during a call *)

Lemma getUndefinedStateErrorMessage_returns (key : string) (action : value) (w : world) :
  exists name,
    getUndefinedStateErrorMessage key action w
    = (w, Normal ("Given action " +:+ name +:+ ", reducer " +:+ quoted key
                  +:+ " returned undefined. "
                  +:+ "To ignore an action, you must explicitly return the previous state."))
    /\ (truthy action = false -> name = "an action")
    /\ (forall t, truthy action = true ->
          get_prop inherited action "type" = Normal (VStr t) -> t <> EmptyString ->
          name = quoted t).
Proof.
  unfold getUndefinedStateErrorMessage. unfold bind at 1.
  destruct (truthy action) eqn:Ea.
  - destruct (get_prop_truthy action "type" Ea) as [v Hv].
    unfold lift. rewrite Hv. unfold ret. eexists. split; [reflexivity|].
    split; [discriminate|]. intros t _ Ht Hne. inversion Ht; subst v. simpl.
    destruct t; [congruence|reflexivity].
  - unfold ret. rewrite Ea. eexists. split; [reflexivity|].
    split; [reflexivity|discriminate].
Qed.

Lemma combination_loop_app (c : closure) (state action : value) (prev next : string -> value)
    (pre rest : list string) (hasChanged : bool) (nextState : list (string * value))
    (w : world) :
  defined_results c state action prev next pre ->
  combination_loop c state action (pre ++ rest) hasChanged nextState w
  = combination_loop c state action rest
      (hasChanged || existsb (fun key => strict_neq (next key) (prev key)) pre)
      (fold_left (fun ns key => assign key (next key) ns) pre nextState) w.
Proof.
  revert hasChanged nextState. induction pre as [|key pre IH]; intros hc ns H.
  - simpl. rewrite orb_false_r. reflexivity.
  - destruct (H key) as (Hp & Hn & Hd); [left|].
    cbn [app combination_loop]. unfold bind at 1, lift at 1. rewrite Hp.
    unfold bind at 1, call, lift at 1. rewrite Hn.
    rewrite typeof_undefined, Hd.
    rewrite IH by (intros k Hk; apply H; right; exact Hk).
    simpl. rewrite orb_assoc. reflexivity.
Qed.

(** The loop over the reducers changes nothing in the world. *)
Lemma combination_loop_world (c : closure) (state action : value) (ks : list string)
    (hasChanged : bool) (nextState : list (string * value)) (w : world) :
  (combination_loop c state action ks hasChanged nextState w).1 = w.
Proof.
  revert hasChanged nextState. induction ks as [|key rest IH]; intros hc ns; [reflexivity|].
  cbn [combination_loop]. unfold bind at 1, lift at 1.
  destruct (get_prop inherited state key) as [p|e]; [|reflexivity].
  unfold bind at 1, call, lift at 1.
  destruct (invoke (read (finalReducers c) key) p action) as [n|e]; [|reflexivity].
  destruct (String.eqb (typeof n) "undefined"); [|apply IH].
  unfold bind. destruct (getUndefinedStateErrorMessage_returns key action w) as (name & -> & _).
  reflexivity.
Qed.


(** ** Advisories about the shape of the state *)

(** The world a call leaves differs from the one its advisory phase left
    by one identity. *)
Lemma combination_body_world (c : closure) (state action : value) (w w1 : world) :
  advisory_phase c state action w = (w1, Normal tt) ->
  (combination_body c state action w).1
  = World (S (next_loc w1)) (console w1) (draws w1) (heap w1).
Proof.
  intros Ha. unfold combination_body. unfold bind at 1. rewrite Ha.
  unfold bind at 1, alloc. unfold bind at 1.
  set (w2 := World _ _ _ _).
  pose proof (combination_loop_world c state action (finalReducerKeys c) false [] w2) as Hl.
  destruct (combination_loop c state action (finalReducerKeys c) false [] w2)
    as [w3 [[hc ns]|e]]; simpl in Hl; subst w3; reflexivity.
Qed.

(** X4 — In production a call of the composed reducer records no advisory
    and leaves the objects it keeps as they are, whatever the state and
    the action, and whether it returns or throws. *)
Theorem production_call_is_silent (c : closure) (state action : value) (w : world) :
  production = true ->
  console (combination c state action w).1 = console w
  /\ heap (combination c state action w).1 = heap w.
Proof.
  intros Hp.
  assert (Hbody : forall st w0,
             console (combination_body c st action w0).1 = console w0
             /\ heap (combination_body c st action w0).1 = heap w0).
  { intros st w0. rewrite (combination_body_world c st action w0 w0).
    - split; reflexivity.
    - unfold advisory_phase. rewrite Hp. reflexivity. }
  unfold combination, default_state. unfold bind at 1.
  destruct (is_undefined state).
  - unfold new_object, bind, alloc, ret. simpl.
    destruct (sanityError c) as [e|]; [destruct (exn_truthy e); [split; reflexivity|]|];
      match goal with
      | |- context [combination_body c ?st action ?w0] =>
          destruct (Hbody st w0) as [H1 H2]; rewrite H1, H2; split; reflexivity
      end.
  - unfold ret.
    destruct (sanityError c) as [e|]; [destruct (exn_truthy e); [split; reflexivity|]|];
      apply Hbody.
Qed.

(** The keys of [state] that a call reports when no reducer is stored under
    [hasOwnProperty]: those that are no key of the reducers and that the
    cache [l], holding [cache], does not mark yet. *)
Definition unexpected (reducers : list (string * value)) (l : nat)
    (cache : list (string * value)) (state : value) : list string :=
  filter (fun key =>
            negb (hasOwnProperty reducers key)
            && negb (truthy (match own_prop key cache with
                             | Some v => v
                             | None => inherited (VObj l Plain cache) key
                             end)) = true)
         (own_keys state).

Lemma filter_result_pure (test : string -> result bool) (f : string -> bool)
    (ks : list string) :
  (forall key, key ∈ ks -> test key = Normal (f key)) ->
  filter_result test ks = Normal (filter (fun key => f key = true) ks).
Proof.
  induction ks as [|key rest IH]; intros H; [reflexivity|].
  cbn [filter_result]. rewrite (H key) by left.
  rewrite IH by (intros k Hk; apply H; right; exact Hk).
  rewrite filter_cons. destruct (f key).
  - rewrite decide_True by reflexivity. reflexivity.
  - rewrite decide_False by discriminate. reflexivity.
Qed.

Lemma fold_assign_mark (ks : list string) (cache : list (string * value)) :
  "__proto__" ∉ ks ->
  fold_left (fun c k => assign k (VBool true) c) ks cache
  = fold_left (fun c k => set_prop k (VBool true) c) ks cache.
Proof.
  revert cache. induction ks as [|k rest IH]; intros cache H; [reflexivity|].
  apply not_elem_of_cons in H as [Hne H]. cbn [fold_left].
  rewrite assign_other by congruence. apply IH. exact H.
Qed.

Lemma own_prop_mark (ks : list string) (cache : list (string * value)) (key : string) :
  own_prop key (fold_left (fun c k => set_prop k (VBool true) c) ks cache)
  = if decide (key ∈ ks) then Some (VBool true) else own_prop key cache.
Proof.
  revert cache. induction ks as [|k rest IH]; intros cache; cbn [fold_left].
  - rewrite decide_False by apply not_elem_of_nil. reflexivity.
  - rewrite IH, own_prop_set_prop.
    destruct (decide (key ∈ rest)) as [Hin|Hnin].
    + rewrite decide_True by (right; exact Hin). reflexivity.
    + destruct (String.eqb_spec k key) as [->|Hne].
      * rewrite decide_True by left. reflexivity.
      * rewrite decide_False; [reflexivity|].
        intros H. apply elem_of_cons in H as [H|H]; congruence.
Qed.

Lemma advisory_phase_plain (c : closure) (l : nat) (state action : value) (w : world) :
  production = false -> unexpectedKeyCache c = Some l ->
  finalReducers c <> [] -> own_prop "hasOwnProperty" (finalReducers c) = None ->
  isPlainObject state = true -> "__proto__" ∉ own_keys state ->
  exists msg,
    advisory_phase c state action w
    = (World (next_loc w)
         (console w
          ++ (if (0 <? length (unexpected (finalReducers c) l (default [] (heap w !! l)) state))%nat
              then [msg] else []))
         (draws w)
         (<[l := fold_left (fun c key => set_prop key (VBool true) c)
                   (unexpected (finalReducers c) l (default [] (heap w !! l)) state)
                   (default [] (heap w !! l))]> (heap w)),
       Normal tt).
Proof.
  intros Hp Hc Hne Hown Hplain Hproto. unfold advisory_phase. rewrite Hp, Hc. cbn [negb default].
  unfold getUnexpectedStateShapeWarningMessage. unfold bind at 1. unfold bind at 1.
  destruct (action_is_init_returns action) as [b Hb]. rewrite Hb.
  assert (Hlen : (length (keys (finalReducers c)) =? 0)%nat = false).
  { destruct (finalReducers c); [congruence|reflexivity]. }
  rewrite Hlen, Hplain. cbn [negb].
  unfold bind at 1, read_mutable at 1. unfold bind at 1. rewrite filter_keys_result.
  rewrite (filter_result_pure _
             (fun key =>
                negb (hasOwnProperty (finalReducers c) key)
                && negb (truthy (match own_prop key (default [] (heap w !! l)) with
                                 | Some v => v
                                 | None => inherited (VObj l Plain (default [] (heap w !! l))) key
                                 end))));
    [|intros key _; unfold is_unexpected, own_answer; rewrite Hown; reflexivity].
  fold (unexpected (finalReducers c) l (default [] (heap w !! l)) state).
  rewrite fold_assign_mark.
  2:{ intros H. apply Hproto. unfold unexpected in H.
      apply list_elem_of_filter in H as [_ H]. exact H. }
  unfold bind, write_mutable, ret. cbn [heap next_loc console draws].
  destruct (0 <? _)%nat.
  - eexists. unfold warning. cbn [heap next_loc console draws]. reflexivity.
  - exists EmptyString. rewrite app_nil_r. reflexivity.
Qed.

(** X5 — Outside production, and with no reducer stored under the key
    [hasOwnProperty], a key of the state that is no key of the reducers is
    reported by the call that meets it first, and by no later call of the
    same composed reducer: a second call, on a state whose keys are keys of
    the reducers or keys of the first state, records nothing.  (The keys
    are taken not to be names of members the cache object inherits, nor
    [__proto__], which cannot be marked.) *)
Theorem unexpected_key_reported_once
    (c : closure) (l : nat) (st1 st2 a1 a2 : value) (x : string) (w : world) :
  production = false ->
  sanityError c = None ->
  unexpectedKeyCache c = Some l ->
  finalReducers c <> [] ->
  own_prop "hasOwnProperty" (finalReducers c) = None ->
  isPlainObject st1 = true -> isPlainObject st2 = true ->
  "__proto__" ∉ own_keys st1 ++ own_keys st2 ->
  (forall props key, key ∈ own_keys st1 ++ own_keys st2 ->
     truthy (inherited (VObj l Plain props) key) = false) ->
  x ∈ own_keys st1 ->
  hasOwnProperty (finalReducers c) x = false ->
  own_prop x (default [] (heap w !! l)) = None ->
  (forall key, key ∈ own_keys st2 ->
     hasOwnProperty (finalReducers c) key = true \/ key ∈ own_keys st1) ->
  (exists msg, console (combination c st1 a1 w).1 = console w ++ [msg])
  /\ console (combination c st2 a2 (combination c st1 a1 w).1).1
     = console (combination c st1 a1 w).1.
Proof.
  intros Hp Hs Hc Hne Hown Hp1 Hp2 Hproto Hinh Hx Hxr Hxc Hsub.
  assert (Hproto1 : "__proto__" ∉ own_keys st1).
  { intros H. apply Hproto. apply elem_of_app. left. exact H. }
  assert (Hproto2 : "__proto__" ∉ own_keys st2).
  { intros H. apply Hproto. apply elem_of_app. right. exact H. }
  assert (Hcomb : forall st a w0, isPlainObject st = true ->
             (combination c st a w0).1 = (combination_body c st a w0).1).
  { intros st a w0 Hst. unfold combination, default_state. rewrite Hs.
    destruct st as [| | | | | | |l0 [] props]; try discriminate. reflexivity. }
  set (cache0 := default [] (heap w !! l)) in *.
  set (K1 := unexpected (finalReducers c) l cache0 st1).
  set (cache1 := fold_left (fun c key => set_prop key (VBool true) c) K1 cache0).
  destruct (advisory_phase_plain c l st1 a1 w Hp Hc Hne Hown Hp1 Hproto1) as [msg Hw1].
  fold cache0 K1 cache1 in Hw1.
  assert (HxK : x ∈ K1).
  { subst K1. unfold unexpected. apply list_elem_of_filter. split; [|exact Hx].
    rewrite Hxr, Hxc, (Hinh cache0 x); [reflexivity|]. apply elem_of_app. left. exact Hx. }
  assert (Hlen : (0 <? length K1)%nat = true).
  { destruct K1; [apply elem_of_nil in HxK as []|reflexivity]. }
  rewrite Hlen in Hw1.
  assert (Hcons1 : console (combination c st1 a1 w).1 = console w ++ [msg]).
  { rewrite Hcomb by exact Hp1. rewrite (combination_body_world _ _ _ _ _ Hw1). reflexivity. }
  assert (Hheap1 : heap (combination c st1 a1 w).1 = <[l := cache1]> (heap w)).
  { rewrite Hcomb by exact Hp1. rewrite (combination_body_world _ _ _ _ _ Hw1). reflexivity. }
  split; [exists msg; exact Hcons1|].
  set (w1 := (combination c st1 a1 w).1) in *.
  destruct (advisory_phase_plain c l st2 a2 w1 Hp Hc Hne Hown Hp2 Hproto2) as [msg2 Hw2].
  rewrite Hheap1, lookup_insert_eq in Hw2.
  change (default [] (Some cache1)) with cache1 in Hw2.
  assert (HK2 : unexpected (finalReducers c) l cache1 st2 = []).
  { apply elem_of_nil_inv. intros key Hk. unfold unexpected in Hk.
    apply list_elem_of_filter in Hk as [Hk Hin].
    apply andb_true_iff in Hk as [Hk1 Hk2].
    apply negb_true_iff in Hk1. apply negb_true_iff in Hk2.
    destruct (Hsub key Hin) as [Hr|Hin1]; [congruence|].
    assert (Hf0 : truthy (inherited (VObj l Plain cache0) key) = false).
    { apply Hinh. apply elem_of_app. left. exact Hin1. }
    pose proof (own_prop_mark K1 cache0 key) as Hm. fold cache1 in Hm.
    destruct (decide (key ∈ K1)) as [HinK|HninK].
    - rewrite Hm in Hk2. discriminate.
    - assert (Hcond : negb (hasOwnProperty (finalReducers c) key)
                      && negb (truthy (match own_prop key cache0 with
                                       | Some v => v
                                       | None => inherited (VObj l Plain cache0) key
                                       end)) <> true).
      { intros Hcond. apply HninK. unfold K1, unexpected.
        apply list_elem_of_filter. split; [exact Hcond|exact Hin1]. }
      rewrite Hk1 in Hcond. cbn [negb andb] in Hcond. rewrite Hm in Hk2.
      destruct (own_prop key cache0) as [v|].
      + rewrite Hk2 in Hcond. apply Hcond. reflexivity.
      + rewrite Hf0 in Hcond. apply Hcond. reflexivity. }
  rewrite HK2 in Hw2. cbn [length Nat.ltb Nat.leb] in Hw2. rewrite app_nil_r in Hw2.
  rewrite Hcomb by exact Hp2. rewrite (combination_body_world _ _ _ _ _ Hw2). reflexivity.
Qed.

(** X6 — A map with no callable entry gives a composed reducer that
    returns the state it is given, whatever the action; outside production
    each call records that the store has no valid reducer. *)
Theorem no_reducer_returns_state
    (reducers : list (string * value)) (w0 w1 : world) (c : closure)
    (state action : value) (w : world) :
  (forall key v, (key, v) ∈ reducers -> is_function v = false) ->
  combineReducers reducers w0 = (w1, Normal c) ->
  exists w',
    combination c state action w = (w', Normal (state_parameter state w))
    /\ console w'
       = console w
         ++ (if production then []
             else ["Store does not have a valid reducer. Make sure the argument passed "
                   +:+ "to combineReducers is an object whose values are reducers."]).
Proof.
  intros Hnone Hc.
  destruct (combineReducers_closure _ _ _ _ Hc) as (Hfr & Hk & _).
  destruct (combineReducers_sanityError _ _ _ _ Hc) as [w2 Hs].
  assert (Hempty : finalReducers c = []).
  { rewrite Hfr. apply (fmap_nil_inv fst). apply elem_of_nil_inv. intros key Hin.
    apply survivors_keys in Hin as [Hin|[Hin Hf]]; [apply elem_of_nil in Hin as []|].
    apply survives_true in Hf as [Hf _].
    apply read_elem in Hin. apply Hnone in Hin. congruence. }
  rewrite Hempty in Hk, Hs. simpl in Hk, Hs.
  assert (Hbody : forall st w3,
             exists w',
               combination_body c st action w3 = (w', Normal st)
               /\ console w'
                  = console w3
                    ++ (if production then []
                        else ["Store does not have a valid reducer. Make sure the argument passed "
                              +:+ "to combineReducers is an object whose values are reducers."])).
  { intros st w3. unfold combination_body, advisory_phase. rewrite Hempty, Hk.
    unfold bind at 1.
    destruct production; cbn [negb].
    - unfold ret at 1. unfold bind, alloc, ret. simpl. eexists. split; [reflexivity|].
      simpl. rewrite app_nil_r. reflexivity.
    - unfold getUnexpectedStateShapeWarningMessage. unfold bind at 1. unfold bind at 1.
      destruct (action_is_init_returns action) as [b Hb]. rewrite Hb.
      cbn [keys map length Nat.eqb]. unfold ret at 1. unfold warning at 1.
      unfold bind, alloc, ret. simpl. eexists. split; reflexivity. }
  unfold combination, default_state, state_parameter. rewrite Hs. unfold bind at 1.
  destruct (is_undefined state).
  - unfold new_object, bind, alloc, ret. simpl.
    destruct (Hbody (VObj (next_loc w) Plain [])
                (World (S (next_loc w)) (console w) (draws w) (heap w))) as (w' & -> & Hw).
    exists w'. split; [reflexivity|exact Hw].
  - unfold ret. apply Hbody.
Qed.

(** X7 — Outside production, a state that is neither [undefined] nor a
    plain object (an array, a number, an instance of a class) and whose
    class is [cls] is reported by every call of the composed reducer, with
    the same advisory, which gives that class and the keys expected: this
    advisory is not kept from one call to the next.  For a primitive the
    class is fixed ([Number], [String], ...); for an object it is what
    [Object.prototype.toString] names ([Array], [Date], ...). *)
Theorem nonplain_state_reported_each_call (c : closure) (state action : value)
    (cls : string) :
  production = false ->
  sanityError c = None ->
  finalReducers c <> [] ->
  isPlainObject state = false -> is_undefined state = false ->
  class_name class_match state = Some cls ->
  exists name,
    (name = "preloadedState argument passed to createStore"
     \/ name = "previous state received by the reducer")
    /\ forall w,
         console (combination c state action w).1
         = console w
           ++ ["The " +:+ name +:+ " has unexpected type of " +:+ dq
               +:+ cls
               +:+ dq +:+ ". Expected argument to be an object with the following "
               +:+ "keys: " +:+ quoted (join (dq +:+ ", " +:+ dq) (keys (finalReducers c)))].
Proof.
  intros Hp Hs Hne Hplain Hu Hcls.
  destruct (action_is_init_returns action) as [b Hb].
  exists (if b then "preloadedState argument passed to createStore"
          else "previous state received by the reducer").
  split; [destruct b; [left|right]; reflexivity|].
  intros w. unfold combination, default_state. rewrite Hs, Hu. unfold bind at 1, ret at 1.
  assert (Hlen : (length (keys (finalReducers c)) =? 0)%nat = false).
  { destruct (finalReducers c); [congruence|reflexivity]. }
  rewrite (combination_body_world c state action w
             (World (next_loc w)
                (console w
                 ++ ["The " +:+ (if b then "preloadedState argument passed to createStore"
                                 else "previous state received by the reducer")
                     +:+ " has unexpected type of " +:+ dq +:+ cls
                     +:+ dq +:+ ". Expected argument to be an object with the following "
                     +:+ "keys: "
                     +:+ quoted (join (dq +:+ ", " +:+ dq) (keys (finalReducers c)))])
                (draws w) (heap w))); [reflexivity|].
  unfold advisory_phase. rewrite Hp. cbn [negb].
  unfold getUnexpectedStateShapeWarningMessage. unfold bind at 1. unfold bind at 1.
  rewrite Hb, Hlen, Hplain, Hcls. reflexivity.
Qed.

(** A state that is not a plain object and whose class has no match makes
    the advisory phase, hence the call, throw. *)
Lemma unnamed_class_raises (c : closure) (state action : value) (w : world) :
  production = false ->
  sanityError c = None ->
  finalReducers c <> [] ->
  isPlainObject state = false -> is_undefined state = false ->
  class_name class_match state = None ->
  combination c state action w = (w, Raised err_no_class).
Proof.
  intros Hp Hs Hne Hplain Hu Hcls.
  destruct (action_is_init_returns action) as [b Hb].
  unfold combination, default_state. rewrite Hs, Hu. unfold bind at 1, ret at 1.
  unfold combination_body, advisory_phase. rewrite Hp. cbn [negb].
  unfold getUnexpectedStateShapeWarningMessage. unfold bind at 1. unfold bind at 1.
  unfold bind at 1. rewrite Hb.
  assert (Hlen : (length (keys (finalReducers c)) =? 0)%nat = false).
  { destruct (finalReducers c); [congruence|reflexivity]. }
  rewrite Hlen, Hplain, Hcls. reflexivity.
Qed.

End Client.

(** ** Instances *)

(** A client with four functions: 0 is [(s = 0, a) => s], 1 returns
    [undefined] whatever it is given, 2 counts the actions it sees, 3 returns
    a copy of the object it is given (same content, another identity). *)
Definition sample_apply (f : nat) (s a : value) : result value :=
  match f with
  | 0%nat => Normal (if is_undefined s then VNum 0 else s)
  | 1%nat => Normal VUndefined
  | 2%nat => Normal (match s with VNum n => VNum (n + 1) | _ => VNum 0 end)
  | _ => Normal (match s with VObj _ k props => VObj 999 k props | _ => VNum 0 end)
  end.

Definition sample_inherited (o : value) (key : string) : value := VUndefined.
Definition sample_describe (v : value) : string := "[object Object]".
Definition sample_class (v : value) : option string :=
  match v with
  | VFun _ => Some "Function"
  | VObj _ Array _ => Some "Array"
  | _ => Some "Object"
  end.
Definition sample_random36 (n : nat) : string := "0.4fzyo82mvyr".
Definition sample_world : world := World 0 [] 0 ∅.
Definition sample_action : value := VObj 101 Plain [("type", VStr "tick")].

(** [{bad: () => undefined}]: the sanity check fails on the init action. *)
Definition bad_closure : closure :=
  Closure [("bad", VFun 1)] ["bad"] (Some 0%nat) (Some (init_error "bad")).

Lemma sanity_failure_raised_on_every_call_witness :
  combineReducers sample_apply false sample_random36 [("bad", VFun 1)] sample_world
  = (World 2 [] 0 (<[0%nat := []]> ∅), Normal bad_closure)
  /\ (forall state action w,
        (combination sample_inherited sample_describe sample_class sample_apply false
           bad_closure state action w).2 = Raised (init_error "bad"))
  /\ (forall calls w,
        Forall (fun r => r = Raised (init_error "bad"))
          (run_calls sample_inherited sample_describe sample_class sample_apply false bad_closure calls w)).
Proof.
  assert (H : combineReducers sample_apply false sample_random36 [("bad", VFun 1)] sample_world
              = (World 2 [] 0 (<[0%nat := []]> ∅), Normal bad_closure))
    by (vm_compute; reflexivity).
  split; [exact H|].
  exact (sanity_failure_raised_on_every_call sample_inherited sample_describe sample_class
           sample_apply false sample_random36 [("bad", VFun 1)] sample_world _ bad_closure
           "bad" (init_error "bad") H eq_refl (or_introl eq_refl)).
Defined.

(** [{a: (s = 0, _) => s}] applied to [{a: 1, x: 2}]: nothing changes. *)
Definition stable_closure : closure :=
  Closure [("a", VFun 0)] ["a"] (Some 0%nat) None.

Definition stable_state : value := VObj 100 Plain [("a", VNum 1); ("x", VNum 2)].

Lemma combination_same_reference_or_new_map_witness :
  exists w' l,
    combination sample_inherited sample_describe sample_class sample_apply false
      stable_closure stable_state sample_action (World 200 [] 1 (<[0%nat := []]> ∅))
    = (w', Normal stable_state)
    /\ (200 <= l < next_loc w')%nat
    /\ (forall l0 k props, stable_state = VObj l0 k props -> (l0 < 200)%nat -> l <> l0)
    /\ (is_undefined stable_state = false ->
        state_parameter stable_state (World 200 [] 1 (<[0%nat := []]> ∅)) = stable_state).
Proof.
  assert (H : combineReducers sample_apply false sample_random36 [("a", VFun 0)] sample_world
              = (World 3 [] 1 (<[0%nat := []]> ∅), Normal stable_closure))
    by (vm_compute; reflexivity).
  refine (combination_same_reference_or_new_map sample_inherited sample_describe sample_class
            sample_apply false sample_random36 [("a", VFun 0)] sample_world _ stable_closure
            stable_state sample_action (World 200 [] 1 (<[0%nat := []]> ∅))
            (fun _ => VNum 1) (fun _ => VNum 1) H eq_refl _ _).
  - right. right. right. split; [reflexivity|]. intros key _. eexists. reflexivity.
  - intros key Hk. apply list_elem_of_singleton in Hk. subst key.
    vm_compute. repeat split.
Defined.



(** The comparison is by identity: a reducer that returns a copy of its
    sub-state, equal in content, makes the composed reducer return a new
    object. *)
Example copy_is_a_change :
  combination sample_inherited sample_describe sample_class sample_apply true
    (Closure [("c", VFun 3)] ["c"] None None)
    (VObj 100 Plain [("c", VObj 5 Plain [("k", VNum 1)])]) sample_action
    (World 200 [] 0 ∅)
  = (World 201 [] 0 ∅, Normal (VObj 200 Plain [("c", VObj 999 Plain [("k", VNum 1)])])).
Proof. vm_compute. reflexivity. Qed.

(** [{n: counter}] applied to [{n: 1, x: 2}]: [n] changes, [x] is dropped. *)
Definition counter_closure : closure :=
  Closure [("n", VFun 2)] ["n"] (Some 0%nat) None.

Definition counter_state : value := VObj 100 Plain [("n", VNum 1); ("x", VNum 2)].

Lemma combination_result_keys_witness :
  exists w' result,
    combination sample_inherited sample_describe sample_class sample_apply false
      counter_closure counter_state sample_action (World 200 [] 1 (<[0%nat := []]> ∅))
    = (w', Normal result)
    /\ (own_keys result = ["n"]
        /\ (forall key, key ∈ own_keys counter_state -> key ∉ ["n"] -> key ∉ own_keys result))
    /\ (forall key, key ∈ ["n"]
          <-> key ∈ keys [("n", VFun 2)] /\ is_function (read [("n", VFun 2)] key) = true
              /\ key <> "__proto__").
Proof.
  assert (H : combineReducers sample_apply false sample_random36 [("n", VFun 2)] sample_world
              = (World 3 [] 1 (<[0%nat := []]> ∅), Normal counter_closure))
    by (vm_compute; reflexivity).
  refine (combination_result_keys sample_inherited sample_describe sample_class
            sample_apply false sample_random36 [("n", VFun 2)] sample_world _ counter_closure
            counter_state sample_action (World 200 [] 1 (<[0%nat := []]> ∅))
            (fun _ => VNum 1) (fun _ => VNum 2) H eq_refl _ _).
  - right. right. right. split; [reflexivity|]. intros key _. eexists. reflexivity.
  - intros key Hk. apply list_elem_of_singleton in Hk. subst key.
    vm_compute. repeat split.
Defined.



(** A client whose function 5 keeps its state, but returns [undefined] for
    the action of type [drop]; function 2 counts, as in [sample_apply]. *)
Definition picky_apply (f : nat) (s a : value) : result value :=
  match f with
  | 5%nat =>
      match a with
      | VObj _ _ [("type", VStr "drop")] => Normal VUndefined
      | _ => Normal (if is_undefined s then VNum 0 else s)
      end
  | _ => sample_apply f s a
  end.

Definition picky_closure : closure :=
  Closure [("n", VFun 2); ("u", VFun 5)] ["n"; "u"] (Some 0%nat) None.

Definition drop_action : value := VObj 102 Plain [("type", VStr "drop")].


(** [{a: reducer}] called twice on [{a: 1, x: 2}]: the key [x] is reported
    by the first call only. *)
Lemma unexpected_key_reported_once_witness :
  (exists msg,
      console (combination sample_inherited sample_describe sample_class sample_apply false
                 stable_closure stable_state sample_action
                 (World 200 [] 1 (<[0%nat := []]> ∅))).1 = [] ++ [msg])
  /\ console (combination sample_inherited sample_describe sample_class sample_apply false
                stable_closure stable_state sample_action
                (combination sample_inherited sample_describe sample_class sample_apply false
                   stable_closure stable_state sample_action
                   (World 200 [] 1 (<[0%nat := []]> ∅))).1).1
     = console (combination sample_inherited sample_describe sample_class sample_apply false
                  stable_closure stable_state sample_action
                  (World 200 [] 1 (<[0%nat := []]> ∅))).1.
Proof.
  refine (unexpected_key_reported_once sample_inherited sample_describe sample_class sample_apply false
            stable_closure 0 stable_state stable_state sample_action sample_action "x"
            (World 200 [] 1 (<[0%nat := []]> ∅))
            eq_refl eq_refl eq_refl _ eq_refl eq_refl eq_refl _ _ _ eq_refl _ _).
  - discriminate.
  - apply (bool_decide_unpack _). vm_compute. reflexivity.
  - intros props key _. reflexivity.
  - right. left.
  - vm_compute. reflexivity.
  - intros key Hk. right. exact Hk.
Defined.

(** What the first call of the witness records, and that the second call
    records nothing more. *)
Example unexpected_key_advisory :
  console (combination sample_inherited sample_describe sample_class sample_apply false
             stable_closure stable_state sample_action
             (combination sample_inherited sample_describe sample_class sample_apply false
                stable_closure stable_state sample_action
                (World 200 [] 1 (<[0%nat := []]> ∅))).1).1
  = ["Unexpected key " +:+ quoted "x" +:+ " found in previous state received by the reducer. "
     +:+ "Expected to find one of the known reducer keys instead: " +:+ quoted "a"
     +:+ ". Unexpected keys will be ignored."].
Proof. vm_compute. reflexivity. Qed.

Lemma production_call_is_silent_witness :
  console (combination sample_inherited sample_describe sample_class sample_apply true
             (Closure [("a", VFun 0)] ["a"] None None) stable_state sample_action
             (World 200 [] 1 ∅)).1 = []
  /\ heap (combination sample_inherited sample_describe sample_class sample_apply true
             (Closure [("a", VFun 0)] ["a"] None None) stable_state sample_action
             (World 200 [] 1 ∅)).1 = ∅.
Proof.
  exact (production_call_is_silent sample_inherited sample_describe sample_class sample_apply true
           (Closure [("a", VFun 0)] ["a"] None None) stable_state sample_action
           (World 200 [] 1 ∅) eq_refl).
Defined.

(** [{a: reducer}] called on an array *)
Lemma nonplain_state_reported_each_call_witness :
  exists name,
    (name = "preloadedState argument passed to createStore"
     \/ name = "previous state received by the reducer")
    /\ forall w,
         console (combination sample_inherited sample_describe sample_class sample_apply false
                    stable_closure (VObj 100 Array []) sample_action w).1
         = console w
           ++ ["The " +:+ name +:+ " has unexpected type of " +:+ dq
               +:+ "Array"
               +:+ dq +:+ ". Expected argument to be an object with the following "
               +:+ "keys: " +:+ quoted "a"].
Proof.
  refine (nonplain_state_reported_each_call sample_inherited sample_describe sample_class sample_apply
            false stable_closure (VObj 100 Array []) sample_action "Array"
            eq_refl eq_refl _ eq_refl eq_refl eq_refl).
  discriminate.
Defined.

(** [{b: 3}]: no callable entry. *)
Lemma no_reducer_returns_state_witness :
  exists w',
    combination sample_inherited sample_describe sample_class sample_apply false
      (Closure [] [] (Some 0%nat) None) stable_state sample_action
      (World 200 [] 0 (<[0%nat := []]> ∅))
    = (w', Normal stable_state)
    /\ console w'
       = [] ++ ["Store does not have a valid reducer. Make sure the argument passed "
                +:+ "to combineReducers is an object whose values are reducers."].
Proof.
  refine (no_reducer_returns_state sample_inherited sample_describe sample_class sample_apply false
            sample_random36 [("b", VNum 3)] sample_world
            (World 1 [] 0 (<[0%nat := []]> ∅)) (Closure [] [] (Some 0%nat) None)
            stable_state sample_action (World 200 [] 0 (<[0%nat := []]> ∅)) _ _).
  - intros key v Hin. apply list_elem_of_singleton in Hin. inversion Hin; subst. reflexivity.
  - vm_compute. reflexivity.
Defined.

(** A client whose function 7 is a reducer that looks at the type of the
    action: [(s = 0, a) => a.type === 'inc' ? s + 1 : s].  Called without
    an action it throws, as reading [undefined.type] does. *)
Definition typed_apply (f : nat) (s a : value) : result value :=
  match f with
  | 7%nat =>
      match get_prop sample_inherited a "type" with
      | Raised e => Raised e
      | Normal type =>
          let s := if is_undefined s then VNum 0 else s in
          Normal (if strict_eq type (VStr "inc")
                  then match s with VNum n => VNum (n + 1) | _ => VNaN end
                  else s)
      end
  | _ => sample_apply f s a
  end.

(** [{hasOwnProperty: typed}]: the reducer passes the sanity check, which
    calls it with actions. *)
Definition shadowing_closure : closure :=
  Closure [("hasOwnProperty", VFun 7)] ["hasOwnProperty"] (Some 0%nat) None.

Lemma shadowing_closure_built :
  combineReducers typed_apply false sample_random36
    [("hasOwnProperty", VFun 7)] sample_world
  = (World 3 [] 1 (<[0%nat := []]> ∅), Normal shadowing_closure).
Proof. vm_compute. reflexivity. Qed.

(** C2, on the code — Outside production, the composed reducer of
    [{hasOwnProperty: typed}] called on [{hasOwnProperty: 5}]: the only
    surviving reducer returns 5 for its slice, the very value it was given,
    and yet the call does not return the state.  Its shape check evaluates
    [reducers.hasOwnProperty("hasOwnProperty")], which calls the reducer
    with the key and no action, and the reducer throws. *)
Example shadowed_hasOwnProperty_breaks_same_reference :
  sanityError shadowing_closure = None
  /\ invoke typed_apply (VFun 7) (VNum 5) sample_action = Normal (VNum 5)
  /\ combination sample_inherited sample_describe sample_class typed_apply false
       shadowing_closure (VObj 100 Plain [("hasOwnProperty", VNum 5)]) sample_action
       (World 200 [] 1 (<[0%nat := []]> ∅))
     = (World 200 [] 1 (<[0%nat := []]> ∅),
        Raised (TypeError "Cannot read property 'type' of undefined")).
Proof. split; [reflexivity|]. split; vm_compute; reflexivity. Qed.

Definition inc_action : value := VObj 103 Plain [("type", VStr "inc")].

(** C10, on the code — The same composed reducer called on
    [{hasOwnProperty: 5, extra: 1}] with an action that changes the slice
    (the reducer returns 6 for it): no object holding the surviving key
    alone is returned, the call throws in its shape check. *)
Example shadowed_hasOwnProperty_breaks_result_keys :
  sanityError shadowing_closure = None
  /\ invoke typed_apply (VFun 7) (VNum 5) inc_action = Normal (VNum 6)
  /\ combination sample_inherited sample_describe sample_class typed_apply false
       shadowing_closure
       (VObj 100 Plain [("hasOwnProperty", VNum 5); ("extra", VNum 1)]) inc_action
       (World 200 [] 1 (<[0%nat := []]> ∅))
     = (World 200 [] 1 (<[0%nat := []]> ∅),
        Raised (TypeError "Cannot read property 'type' of undefined")).
Proof. split; [reflexivity|]. split; vm_compute; reflexivity. Qed.

(** In production the shape check is skipped, and both calls return. *)
Example shadowed_hasOwnProperty_in_production :
  combination sample_inherited sample_describe sample_class typed_apply true
    (Closure [("hasOwnProperty", VFun 7)] ["hasOwnProperty"] None None)
    (VObj 100 Plain [("hasOwnProperty", VNum 5)]) sample_action (World 200 [] 1 ∅)
  = (World 201 [] 1 ∅, Normal (VObj 100 Plain [("hasOwnProperty", VNum 5)]))
  /\ combination sample_inherited sample_describe sample_class typed_apply true
       (Closure [("hasOwnProperty", VFun 7)] ["hasOwnProperty"] None None)
       (VObj 100 Plain [("hasOwnProperty", VNum 5); ("extra", VNum 1)]) inc_action
       (World 200 [] 1 ∅)
     = (World 201 [] 1 ∅, Normal (VObj 200 Plain [("hasOwnProperty", VNum 6)])).
Proof. split; vm_compute; reflexivity. Qed.

(** A reducer stored under [hasOwnProperty] that returns: [(s = 0, _) => s]
    answers the key it is given, which is truthy, so every key of the state
    passes for a key of the reducers and none is reported. *)
Example shadowed_hasOwnProperty_hides_keys :
  console (combination sample_inherited sample_describe sample_class sample_apply false
             (Closure [("hasOwnProperty", VFun 0)] ["hasOwnProperty"] (Some 0%nat) None)
             (VObj 100 Plain [("x", VNum 2)]) sample_action
             (World 200 [] 1 (<[0%nat := []]> ∅))).1
  = [].
Proof. vm_compute. reflexivity. Qed.

(** [{["__proto__"]: reducer, a: reducer}]: the entry under [__proto__] is
    callable and does not survive. *)
Example proto_entry_is_left_out :
  exists w' c,
    combineReducers sample_apply false sample_random36
      [("__proto__", VFun 0); ("a", VFun 0)] sample_world = (w', Normal c)
    /\ finalReducerKeys c = ["a"]
    /\ sanityError c = None.
Proof. eexists _, _. split; [vm_compute; reflexivity|]. split; reflexivity. Qed.

End CombineReducers.

(* ================================================================== *)
(** * createStore *)
(* ================================================================== *)

Module Store.
Import JS.

(** [ActionTypes.INIT] *)
Definition INIT : string := "@@redux/INIT".

(** ** Client code

    The reducer and the listeners are the client's functions, and they may
    call back into the store.  The body of a client function is a tree: it
    returns, it throws, or it calls a method of the store and goes on with
    the completion of that call (the value returned or the error thrown, as
    a [try]/[catch] around the call would see it).  [Subscribe] gives back
    the [unsubscribe] function it created, known by a handle.  The client's
    own variables are one value, which a body reads ([ReadVars]) and
    replaces ([WriteVars]).

    The loop of [dispatch] calls [listeners[i]()], so a listener runs with
    the array being iterated as its [this].  A body reads the array it was
    called on ([ReadThis], which finds nothing when the function was called
    on no array of the store, as the reducer is) and changes it in place
    ([WriteThis content]: [this.push(x)], [this.splice(i, n)], [this.length =
    n], [this[i] = x] all come to giving the array a new content; a hole is
    read as [undefined]).  The receiver serves during the call: a body that
    keeps it for a later call is not among these bodies. *)
Inductive prog :=
| Return (v : value)
| Throw (e : exn)
| GetState (k : result value -> prog)
| Dispatch (action : value) (k : result value -> prog)
| Subscribe (listener : value) (k : result nat -> prog)
| Unsubscribe (handle : nat) (k : result value -> prog)
| ReplaceReducer (nextReducer : value) (k : result value -> prog)
| ReadVars (k : value -> prog)
| WriteVars (vars : value) (p : prog)
| ReadThis (k : option (list value) -> prog)
| WriteThis (content : list value) (p : prog).

(** ** The variables of one store

    [createStore]'s local variables, which its inner functions close over.
    [currentListeners] and [nextListeners] are references into [arrays], the
    listener arrays created so far: two variables may hold the same array.
    Each call of [subscribe] has its own [listener] and [isSubscribed]; they
    are kept in [subscriptions] under the handle of its [unsubscribe].
    [next_loc] is the identity of the next object the store creates.
    The last two fields are no variables of [createStore]: [notified]
    records each call the loop of [dispatch] makes to a listener, oldest
    first, with the nesting depth of that [dispatch]; [client_vars] holds the
    client's own variables. *)
Record store := Store_ {
  currentReducer : value;
  currentState : value;
  arrays : list (list value);
  currentListeners : nat;
  nextListeners : nat;
  isDispatching : bool;
  subscriptions : list (value * bool);
  next_loc : nat;
  notified : list (nat * value);
  client_vars : value
}.

Definition array (s : store) (r : nat) : list value := default [] (arrays s !! r).

Definition set_currentReducer (v : value) (s : store) : store :=
  Store_ v (currentState s) (arrays s) (currentListeners s) (nextListeners s)
         (isDispatching s) (subscriptions s) (next_loc s) (notified s) (client_vars s).

Definition set_currentState (v : value) (s : store) : store :=
  Store_ (currentReducer s) v (arrays s) (currentListeners s) (nextListeners s)
         (isDispatching s) (subscriptions s) (next_loc s) (notified s) (client_vars s).

Definition set_arrays (a : list (list value)) (s : store) : store :=
  Store_ (currentReducer s) (currentState s) a (currentListeners s) (nextListeners s)
         (isDispatching s) (subscriptions s) (next_loc s) (notified s) (client_vars s).

Definition set_currentListeners (r : nat) (s : store) : store :=
  Store_ (currentReducer s) (currentState s) (arrays s) r (nextListeners s)
         (isDispatching s) (subscriptions s) (next_loc s) (notified s) (client_vars s).

Definition set_nextListeners (r : nat) (s : store) : store :=
  Store_ (currentReducer s) (currentState s) (arrays s) (currentListeners s) r
         (isDispatching s) (subscriptions s) (next_loc s) (notified s) (client_vars s).

Definition set_isDispatching (b : bool) (s : store) : store :=
  Store_ (currentReducer s) (currentState s) (arrays s) (currentListeners s)
         (nextListeners s) b (subscriptions s) (next_loc s) (notified s) (client_vars s).

Definition set_subscriptions (l : list (value * bool)) (s : store) : store :=
  Store_ (currentReducer s) (currentState s) (arrays s) (currentListeners s)
         (nextListeners s) (isDispatching s) l (next_loc s) (notified s) (client_vars s).

Definition set_next_loc (n : nat) (s : store) : store :=
  Store_ (currentReducer s) (currentState s) (arrays s) (currentListeners s)
         (nextListeners s) (isDispatching s) (subscriptions s) n (notified s)
         (client_vars s).

Definition record_call (d : nat) (listener : value) (s : store) : store :=
  Store_ (currentReducer s) (currentState s) (arrays s) (currentListeners s)
         (nextListeners s) (isDispatching s) (subscriptions s) (next_loc s)
         (notified s ++ [(d, listener)]) (client_vars s).

Definition set_client_vars (vars : value) (s : store) : store :=
  Store_ (currentReducer s) (currentState s) (arrays s) (currentListeners s)
         (nextListeners s) (isDispatching s) (subscriptions s) (next_loc s)
         (notified s) vars.

(** ** Arrays *)

(** The array [this] refers to, when it is one of the store's *)
Definition read_this (this : option nat) (s : store) : option (list value) :=
  match this with
  | Some r => Some (array s r)
  | None => None
  end.

(** The array [this] refers to, given the content [content] *)
Definition write_this (this : option nat) (content : list value) (s : store) : store :=
  match this with
  | Some r => set_arrays (<[r := content]> (arrays s)) s
  | None => s
  end.

(** [l.indexOf(x)]: the first index holding a value [=== x], or [-1] *)
Fixpoint indexOf_from (x : value) (l : list value) (i : Z) : Z :=
  match l with
  | [] => -1
  | y :: rest => if strict_eq y x then i else indexOf_from x rest (i + 1)
  end.

Definition indexOf (l : list value) (x : value) : Z := indexOf_from x l 0.

(** [l.splice(index, 1)]: a negative index counts from the end *)
Definition splice1 (index : Z) (l : list value) : list value :=
  let len := Z.of_nat (length l) in
  let start := if index <? 0 then Z.max (len + index) 0 else Z.min index len in
  delete (Z.to_nat start) l.

(** ** The errors of the store *)

Definition err_enhancer : exn := Error "Expected the enhancer to be a function.".
Definition err_reducer : exn := Error "Expected the reducer to be a function.".
Definition err_getState : exn :=
  Error ("You may not call store.getState() while the reducer is executing. "
         +:+ "The reducer has already received the state as an argument. "
         +:+ "Pass it down from the top reducer instead of reading it from the store.").
Definition err_listener : exn := Error "Expected listener to be a function.".
Definition err_subscribe : exn :=
  Error ("You may not call store.subscribe() while the reducer is executing. "
         +:+ "If you would like to be notified after the store has been updated, subscribe from a "
         +:+ "component and invoke store.getState() in the callback to access the latest state. "
         +:+ "See http://redux.js.org/docs/api/Store.html#subscribe for more details.").
Definition err_unsubscribe : exn :=
  Error ("You may not unsubscribe from a store listener while the reducer is executing. "
         +:+ "See http://redux.js.org/docs/api/Store.html#subscribe for more details.").
Definition err_plain : exn :=
  Error ("Actions must be plain objects. "
         +:+ "Use custom middleware for async actions.").
Definition err_type : exn :=
  Error ("Actions may not have an undefined " +:+ quoted "type" +:+ " property. "
         +:+ "Have you misspelled a constant?").
Definition err_dispatch : exn := Error "Reducers may not dispatch actions.".
Definition err_nextReducer : exn := Error "Expected the nextReducer to be a function.".
Definition err_not_a_function : exn := TypeError "unsubscribe is not a function".

(** ** The methods that call no client code *)

Definition ensureCanMutateNextListeners (s : store) : store :=
  if (nextListeners s =? currentListeners s)%nat
  then set_nextListeners (length (arrays s))
         (set_arrays (arrays s ++ [array s (currentListeners s)]) s)
  else s.

Definition getState (s : store) : store * result value :=
  if isDispatching s then (s, Raised err_getState)
  else (s, Normal (currentState s)).

(** [nextListeners.push(listener)] *)
Definition push (listener : value) (s : store) : store :=
  set_arrays (<[nextListeners s := array s (nextListeners s) ++ [listener]]> (arrays s)) s.

(** [subscribe(listener)]; the function it returns is the handle. *)
Definition subscribe (listener : value) (s : store) : store * result nat :=
  if negb (String.eqb (typeof listener) "function") then (s, Raised err_listener)
  else if isDispatching s then (s, Raised err_subscribe)
  else
    let handle := length (subscriptions s) in
    let s := set_subscriptions (subscriptions s ++ [(listener, true)]) s in
    let s := ensureCanMutateNextListeners s in
    let s := push listener s in
    (s, Normal handle).

(** The function [unsubscribe] returned by the call of [subscribe] with
    this handle.  Client code holds only handles that [subscribe] gave it; a
    handle it made up is no function. *)
Definition unsubscribe (handle : nat) (s : store) : store * result value :=
  match subscriptions s !! handle with
  | None => (s, Raised err_not_a_function)
  | Some (listener, isSubscribed) =>
      if negb isSubscribed then (s, Normal VUndefined)
      else if isDispatching s then (s, Raised err_unsubscribe)
      else
        let s := set_subscriptions (<[handle := (listener, false)]> (subscriptions s)) s in
        let s := ensureCanMutateNextListeners s in
        let index := indexOf (array s (nextListeners s)) listener in
        let s :=
          set_arrays (<[nextListeners s := splice1 index (array s (nextListeners s))]> (arrays s)) s in
        (s, Normal VUndefined)
  end.

(** [{ type: ActionTypes.INIT }] *)
Definition init_action (l : nat) : value := VObj l Plain [("type", VStr INIT)].

Section Client.

(** The engine's share of property reads (see [JS]). *)
Variable inherited : value -> string -> value.

(** The client's functions: [body f args] is the body of the function of
    identity [f] called with the arguments [args]. *)
Variable body : nat -> list value -> prog.

(** What a call of [dispatch] does, when it is known: [None] when the model
    ran out of fuel before the call completed. *)
Definition dispatcher : Type := value -> store -> option (store * result value).

(** [replaceReducer(nextReducer)], given [dispatch] *)
Definition replaceReducer_with (dispatch : dispatcher) (nextReducer : value) (s : store)
  : option (store * result value) :=
  if negb (String.eqb (typeof nextReducer) "function") then Some (s, Raised err_nextReducer)
  else
    let s := set_currentReducer nextReducer s in
    let action := init_action (next_loc s) in
    match dispatch action (set_next_loc (S (next_loc s)) s) with
    | None => None
    | Some (s', Normal _) => Some (s', Normal VUndefined)
    | Some (s', Raised e) => Some (s', Raised e)
    end.

(** Running a client body called on [this], given [dispatch] *)
Fixpoint exec (dispatch : dispatcher) (this : option nat) (p : prog) (s : store)
  : option (store * result value) :=
  match p with
  | Return v => Some (s, Normal v)
  | Throw e => Some (s, Raised e)
  | GetState k =>
      let (s', r) := getState s in exec dispatch this (k r) s'
  | Dispatch action k =>
      match dispatch action s with
      | None => None
      | Some (s', r) => exec dispatch this (k r) s'
      end
  | Subscribe listener k =>
      let (s', r) := subscribe listener s in exec dispatch this (k r) s'
  | Unsubscribe handle k =>
      let (s', r) := unsubscribe handle s in exec dispatch this (k r) s'
  | ReplaceReducer nextReducer k =>
      match replaceReducer_with dispatch nextReducer s with
      | None => None
      | Some (s', r) => exec dispatch this (k r) s'
      end
  | ReadVars k => exec dispatch this (k (client_vars s)) s
  | WriteVars vars p => exec dispatch this p (set_client_vars vars s)
  | ReadThis k => exec dispatch this (k (read_this this s)) s
  | WriteThis content p => exec dispatch this p (write_this this content s)
  end.

(** [fn(...args)] for a client function, and [array[i](...args)], where the
    function is called on the array: [this] is the array, or nothing. *)
Definition call (dispatch : dispatcher) (fn : value) (this : option nat)
    (args : list value) (s : store)
  : option (store * result value) :=
  match fn with
  | VFun f => exec dispatch this (body f args) s
  | _ => Some (s, Raised (TypeError "not a function"))
  end.

(** [dispatch(action)], and the loop over [listeners] from index [i] on:
    [listeners] is a reference, and the loop reads the length and the
    element from the array at each turn.  The reducer is called as a
    function, the listener as [listeners[i]()], on the array.  [fuel] bounds
    the nesting of client calls and the iterations; [d] is the nesting depth
    of this [dispatch], for [notified]. *)
Fixpoint dispatch (fuel : nat) (d : nat) (action : value) (s : store) {struct fuel}
  : option (store * result value) :=
  if negb (isPlainObject action) then Some (s, Raised err_plain)
  else
    match get_prop inherited action "type" with
    | Raised e => Some (s, Raised e)
    | Normal type =>
        if String.eqb (typeof type) "undefined" then Some (s, Raised err_type)
        else if isDispatching s then Some (s, Raised err_dispatch)
        else
          match fuel with
          | O => None
          | S fuel' =>
              let s := set_isDispatching true s in
              match call (dispatch fuel' (S d)) (currentReducer s) None
                      [currentState s; action] s with
              | None => None
              | Some (s, Raised e) => Some (set_isDispatching false s, Raised e)
              | Some (s, Normal nextState) =>
                  let s := set_currentState nextState s in
                  let s := set_isDispatching false s in
                  let s := set_currentListeners (nextListeners s) s in
                  let listeners := currentListeners s in
                  match notify fuel' d listeners 0 s with
                  | None => None
                  | Some (s, Raised e) => Some (s, Raised e)
                  | Some (s, Normal _) => Some (s, Normal action)
                  end
              end
          end
    end
with notify (fuel : nat) (d : nat) (listeners : nat) (i : nat) (s : store) {struct fuel}
  : option (store * result unit) :=
  match array s listeners !! i with
  | None => Some (s, Normal tt)
  | Some listener =>
      match fuel with
      | O => None
      | S fuel' =>
          match call (dispatch fuel' (S d)) listener (Some listeners) []
                  (record_call d listener s) with
          | None => None
          | Some (s, Raised e) => Some (s, Raised e)
          | Some (s, Normal _) => notify fuel' d listeners (S i) s
          end
      end
  end.

Definition replaceReducer (fuel : nat) (nextReducer : value) (s : store)
  : option (store * result value) :=
  replaceReducer_with (dispatch fuel 0) nextReducer s.

(** What [createStore] returns: the handle of a new store, whose methods
    work on the variables [s]; or, when an enhancer was given, whatever
    [enhancer(createStore)(reducer, preloadedState)] returns. *)
Inductive created :=
| Handle (s : store)
| Enhanced (enhancer reducer preloadedState : value).

(** [createStore(reducer, preloadedState, enhancer)], where [l] is the
    identity of the next object to be created and [vars] are the client's
    variables at that time. *)
Definition createStore (fuel : nat) (l : nat) (vars : value)
    (reducer preloadedState enhancer : value)
  : option (result created) :=
  let normalize :=
    String.eqb (typeof preloadedState) "function"
    && String.eqb (typeof enhancer) "undefined" in
  let enhancer' := if normalize then preloadedState else enhancer in
  let preloadedState' := if normalize then VUndefined else preloadedState in
  if negb (String.eqb (typeof enhancer') "undefined") then
    if negb (String.eqb (typeof enhancer') "function") then Some (Raised err_enhancer)
    else Some (Normal (Enhanced enhancer' reducer preloadedState'))
  else if negb (String.eqb (typeof reducer) "function") then Some (Raised err_reducer)
  else
    let s := Store_ reducer preloadedState' [[]] 0 0 false [] (S l) [] vars in
    match dispatch fuel 0 (init_action l) s with
    | None => None
    | Some (s', Normal _) => Some (Normal (Handle s'))
    | Some (_, Raised e) => Some (Raised e)
    end.

(** ** Valid actions, idle stores *)

(** An action [dispatch] accepts: a plain object whose [type] is defined. *)
Definition valid_action (action : value) : Prop :=
  isPlainObject action = true
  /\ exists type, get_prop inherited action "type" = Normal type
                  /\ is_undefined type = false.

Lemma valid_init_action (l : nat) : valid_action (init_action l).
Proof. split; [reflexivity|]. exists (VStr INIT). split; reflexivity. Qed.

(** [dispatch] on a valid action, past its three guards *)
Lemma dispatch_reentrant (fuel d : nat) (action : value) (s : store) :
  valid_action action -> isDispatching s = true ->
  dispatch fuel d action s = Some (s, Raised err_dispatch).
Proof.
  intros (Hp & type & Ht & Hd) Hs.
  destruct fuel; simpl; rewrite Hp, Ht, typeof_undefined, Hd, Hs; reflexivity.
Qed.

Lemma dispatch_idle (fuel d : nat) (action : value) (s : store) :
  valid_action action -> isDispatching s = false ->
  dispatch (S fuel) d action s
  = match call (dispatch fuel (S d)) (currentReducer s) None [currentState s; action]
            (set_isDispatching true s) with
    | None => None
    | Some (s, Raised e) => Some (set_isDispatching false s, Raised e)
    | Some (s, Normal nextState) =>
        match notify fuel d (nextListeners s) 0
                (set_currentListeners (nextListeners s)
                   (set_isDispatching false (set_currentState nextState s))) with
        | None => None
        | Some (s, Raised e) => Some (s, Raised e)
        | Some (s, Normal _) => Some (s, Normal action)
        end
    end.
Proof.
  intros (Hp & type & Ht & Hd) Hs.
  cbn [dispatch]. rewrite Hp, Ht, typeof_undefined, Hd, Hs. cbn [negb].
  reflexivity.
Qed.

(** ** While the reducer runs

    A store whose [isDispatching] is set rejects [getState], [subscribe],
    a first [unsubscribe] and [dispatch]; a call of [replaceReducer] changes
    the reducer and then fails in its [dispatch].  So client code run in such
    a store changes nothing but [currentReducer], [next_loc] and its own
    variables. *)
Definition same_transition (s s' : store) : Prop :=
  currentState s' = currentState s
  /\ arrays s' = arrays s
  /\ currentListeners s' = currentListeners s
  /\ nextListeners s' = nextListeners s
  /\ isDispatching s' = isDispatching s
  /\ subscriptions s' = subscriptions s
  /\ notified s' = notified s.

Lemma same_transition_refl (s : store) : same_transition s s.
Proof. repeat split. Qed.

Lemma same_transition_trans (s1 s2 s3 : store) :
  same_transition s1 s2 -> same_transition s2 s3 -> same_transition s1 s3.
Proof.
  intros (H1 & H2 & H3 & H4 & H5 & H6 & H7) (G1 & G2 & G3 & G4 & G5 & G6 & G7).
  repeat split; congruence.
Qed.

Lemma getState_reentrant (s : store) :
  isDispatching s = true -> getState s = (s, Raised err_getState).
Proof. intros H. unfold getState. rewrite H. reflexivity. Qed.

Lemma subscribe_reentrant (listener : value) (s : store) :
  is_function listener = true -> isDispatching s = true ->
  subscribe listener s = (s, Raised err_subscribe).
Proof.
  intros Hf H. unfold subscribe. rewrite typeof_function, Hf, H. reflexivity.
Qed.

Lemma unsubscribe_reentrant (handle : nat) (listener : value) (s : store) :
  subscriptions s !! handle = Some (listener, true) -> isDispatching s = true ->
  unsubscribe handle s = (s, Raised err_unsubscribe).
Proof. intros Hh H. unfold unsubscribe. rewrite Hh, H. reflexivity. Qed.

Lemma subscribe_while_dispatching (listener : value) (s : store) :
  isDispatching s = true -> (subscribe listener s).1 = s.
Proof.
  intros H. unfold subscribe. destruct (negb _); [reflexivity|]. rewrite H. reflexivity.
Qed.

Lemma unsubscribe_while_dispatching (handle : nat) (s : store) :
  isDispatching s = true -> (unsubscribe handle s).1 = s.
Proof.
  intros H. unfold unsubscribe. destruct (subscriptions s !! handle) as [[l b]|]; [|reflexivity].
  destruct b; simpl; [|reflexivity]. rewrite H. reflexivity.
Qed.

Lemma dispatch_while_dispatching (fuel d : nat) (action : value) (s : store) :
  isDispatching s = true ->
  exists r, dispatch fuel d action s = Some (s, Raised r).
Proof.
  intros H. destruct fuel; simpl.
  - destruct (negb _); [eauto|]. destruct (get_prop _ _ _); [|eauto].
    destruct (String.eqb _ _); [eauto|]. rewrite H. eauto.
  - destruct (negb _); [eauto|]. destruct (get_prop _ _ _); [|eauto].
    destruct (String.eqb _ _); [eauto|]. rewrite H. eauto.
Qed.

Lemma exec_while_dispatching (fuel d : nat) (p : prog) (s : store) :
  isDispatching s = true ->
  exists s' r, exec (dispatch fuel d) None p s = Some (s', r) /\ same_transition s s'.
Proof.
  revert s. induction p as [v|e|k IH|action k IH|listener k IH|handle k IH|nextReducer k IH
                            |k IH|vars p IH|k IH|content p IH];
    intros s Hs; cbn [exec].
  - eexists _, _. split; [reflexivity|apply same_transition_refl].
  - eexists _, _. split; [reflexivity|apply same_transition_refl].
  - rewrite (getState_reentrant s Hs). apply IH. exact Hs.
  - destruct (dispatch_while_dispatching fuel d action s Hs) as [r ->]. apply IH. exact Hs.
  - pose proof (subscribe_while_dispatching listener s Hs) as H.
    destruct (subscribe listener s) as [s1 r]. simpl in H. subst s1. apply IH. exact Hs.
  - pose proof (unsubscribe_while_dispatching handle s Hs) as H.
    destruct (unsubscribe handle s) as [s1 r]. simpl in H. subst s1. apply IH. exact Hs.
  - unfold replaceReducer_with. destruct (negb _).
    + apply IH. exact Hs.
    + set (s1 := set_next_loc _ (set_currentReducer nextReducer s)).
      assert (Hs1 : isDispatching s1 = true) by exact Hs.
      destruct (dispatch_while_dispatching fuel d
                  (init_action (next_loc (set_currentReducer nextReducer s))) s1 Hs1) as [r ->].
      destruct (IH (Raised r) s1 Hs1) as (s' & r' & He & Hf).
      exists s', r'. split; [exact He|].
      apply (same_transition_trans s s1 s'); [repeat split | exact Hf].
  - apply IH. exact Hs.
  - destruct (IH (set_client_vars vars s) Hs) as (s' & r' & He & Hf).
    exists s', r'. split; [exact He|].
    apply (same_transition_trans s (set_client_vars vars s) s'); [repeat split | exact Hf].
  - apply IH. exact Hs.
  - apply IH. exact Hs.
Qed.

(** What [dispatch] goes on to do once the reducer has completed. *)
Definition after_reducer (fuel d : nat) (action : value) (s2 : store) (r : result value)
  : option (store * result value) :=
  match r with
  | Raised e => Some (set_isDispatching false s2, Raised e)
  | Normal nextState =>
      match notify fuel d (nextListeners s2) 0
              (set_currentListeners (nextListeners s2)
                 (set_isDispatching false (set_currentState nextState s2))) with
      | None => None
      | Some (s, Raised e) => Some (s, Raised e)
      | Some (s, Normal _) => Some (s, Normal action)
      end
  end.

Lemma dispatch_runs_reducer (fuel d : nat) (action : value) (f : nat) (s : store) :
  valid_action action -> isDispatching s = false -> currentReducer s = VFun f ->
  exists s2 r,
    exec (dispatch fuel (S d)) None (body f [currentState s; action])
      (set_isDispatching true s)
    = Some (s2, r)
    /\ same_transition (set_isDispatching true s) s2
    /\ dispatch (S fuel) d action s = after_reducer fuel d action s2 r.
Proof.
  intros Hv Hs Hf.
  destruct (exec_while_dispatching fuel (S d) (body f [currentState s; action])
              (set_isDispatching true s) eq_refl) as (s2 & r & He & Hfr).
  exists s2, r. split; [exact He|]. split; [exact Hfr|].
  rewrite (dispatch_idle fuel d action s Hv Hs). rewrite Hf. cbn [call]. rewrite He.
  destruct r; reflexivity.
Qed.

Lemma call_while_dispatching (fuel d : nat) (fn : value) (args : list value) (s : store) :
  isDispatching s = true ->
  exists s' r, call (dispatch fuel d) fn None args s = Some (s', r) /\ same_transition s s'.
Proof.
  intros Hs. destruct fn; cbn [call];
    try (eexists _, _; split; [reflexivity|apply same_transition_refl]).
  apply exec_while_dispatching. exact Hs.
Qed.

(** After the reducer has run, the store is the one before the call but
    for [currentReducer], [next_loc] and the client's variables. *)
Lemma after_same_transition (s s2 : store) :
  isDispatching s = false ->
  same_transition (set_isDispatching true s) s2 ->
  set_isDispatching false s2
  = set_client_vars (client_vars s2)
      (set_next_loc (next_loc s2) (set_currentReducer (currentReducer s2) s)).
Proof.
  destruct s, s2. unfold same_transition. simpl.
  intros -> (-> & -> & -> & -> & _ & -> & ->). reflexivity.
Qed.

(** ** What every call preserves

    A relation between the store before and after, indexed by the nesting
    depth, that holds of each elementary change holds of every completed
    [dispatch], notification loop and client body.  A relation that a
    change of a listener array would break holds when no listener writes to
    the array it is called on. *)

(** A body that does not change the array it is called on *)
Inductive no_write : prog -> Prop :=
| no_write_Return (v : value) : no_write (Return v)
| no_write_Throw (e : exn) : no_write (Throw e)
| no_write_GetState (k : result value -> prog) :
    (forall r, no_write (k r)) -> no_write (GetState k)
| no_write_Dispatch (action : value) (k : result value -> prog) :
    (forall r, no_write (k r)) -> no_write (Dispatch action k)
| no_write_Subscribe (listener : value) (k : result nat -> prog) :
    (forall r, no_write (k r)) -> no_write (Subscribe listener k)
| no_write_Unsubscribe (handle : nat) (k : result value -> prog) :
    (forall r, no_write (k r)) -> no_write (Unsubscribe handle k)
| no_write_ReplaceReducer (nextReducer : value) (k : result value -> prog) :
    (forall r, no_write (k r)) -> no_write (ReplaceReducer nextReducer k)
| no_write_ReadVars (k : value -> prog) :
    (forall vars, no_write (k vars)) -> no_write (ReadVars k)
| no_write_WriteVars (vars : value) (p : prog) :
    no_write p -> no_write (WriteVars vars p)
| no_write_ReadThis (k : option (list value) -> prog) :
    (forall content, no_write (k content)) -> no_write (ReadThis k).

Section Preservation.

Variable R : nat -> store -> store -> Prop.

(** Whether the listeners may write to the array they are called on *)
Variable writes : bool.

Hypothesis R_refl : forall d s, R d s s.
Hypothesis R_trans : forall d s1 s2 s3, R d s1 s2 -> R d s2 s3 -> R d s1 s3.
Hypothesis R_deeper : forall d s s', R (S d) s s' -> R d s s'.
Hypothesis R_subscribe : forall d listener s, R d s (subscribe listener s).1.
Hypothesis R_unsubscribe : forall d handle s, R d s (unsubscribe handle s).1.
Hypothesis R_currentReducer : forall d v s, R d s (set_currentReducer v s).
Hypothesis R_next_loc : forall d n s, R d s (set_next_loc n s).
Hypothesis R_client_vars : forall d v s, R d s (set_client_vars v s).
Hypothesis R_currentState : forall d v s, R d s (set_currentState v s).
Hypothesis R_commit : forall d s, R d s (set_currentListeners (nextListeners s) s).
Hypothesis R_record : forall d listener s, R d s (record_call d listener s).
Hypothesis R_write_this :
  writes = true -> forall d L content s, R d s (write_this (Some L) content s).
Hypothesis listeners_no_write : writes = false -> forall f, no_write (body f []).

(** The bodies the relation is kept by, called on [this] *)
Definition permitted (this : option nat) (p : prog) : Prop :=
  this = None \/ writes = true \/ no_write p.

Lemma preserved_exec (d : nat) (disp : dispatcher) (this : option nat) :
  (forall a s s' r, disp a s = Some (s', r) -> R d s s') ->
  forall p, permitted this p ->
  forall s s' r, exec disp this p s = Some (s', r) -> R d s s'.
Proof.
  intros Hdisp.
  assert (Hsub : forall p q, permitted this p ->
                   (no_write p -> no_write q) -> permitted this q).
  { intros p q [H|[H|H]] Hq; [left; exact H|right; left; exact H|right; right; auto]. }
  induction p as [v|e|k IH|action k IH|listener k IH|handle k IH|nextReducer k IH
                  |k IH|vars p IH|k IH|content p IH];
    intros Hp s s' r; cbn [exec].
  - intros H; inversion H; subst. apply R_refl.
  - intros H; inversion H; subst. apply R_refl.
  - unfold getState. destruct (isDispatching s); apply IH;
      (apply (Hsub _ _ Hp); intros Hn; inversion Hn; auto).
  - destruct (disp action s) as [[s1 r1]|] eqn:E; [|discriminate].
    intros H. apply (R_trans d s s1 s'); [eapply Hdisp; exact E | eapply IH; [|exact H]].
    apply (Hsub _ _ Hp); intros Hn; inversion Hn; auto.
  - pose proof (R_subscribe d listener s) as H1.
    destruct (subscribe listener s) as [s1 r1]. simpl in H1.
    intros H. apply (R_trans d s s1 s'); [exact H1 | eapply IH; [|exact H]].
    apply (Hsub _ _ Hp); intros Hn; inversion Hn; auto.
  - pose proof (R_unsubscribe d handle s) as H1.
    destruct (unsubscribe handle s) as [s1 r1]. simpl in H1.
    intros H. apply (R_trans d s s1 s'); [exact H1 | eapply IH; [|exact H]].
    apply (Hsub _ _ Hp); intros Hn; inversion Hn; auto.
  - destruct (replaceReducer_with disp nextReducer s) as [[s1 r1]|] eqn:E; [|discriminate].
    intros H. apply (R_trans d s s1 s');
      [|eapply IH; [apply (Hsub _ _ Hp); intros Hn; inversion Hn; auto|exact H]].
    revert E. unfold replaceReducer_with. destruct (negb _).
    + intros E; inversion E; subst. apply R_refl.
    + set (s0 := set_next_loc _ (set_currentReducer nextReducer s)).
      destruct (disp _ s0) as [[s2 [v|e]]|] eqn:E'; intros E; inversion E; subst;
        (apply (R_trans d s s0 s1);
         [ apply (R_trans d s (set_currentReducer nextReducer s) s0);
           [apply R_currentReducer | apply R_next_loc]
         | eapply Hdisp; exact E' ]).
  - apply IH. apply (Hsub _ _ Hp); intros Hn; inversion Hn; auto.
  - intros H. apply (R_trans d s (set_client_vars vars s) s');
      [apply R_client_vars | eapply IH; [|exact H]].
    apply (Hsub _ _ Hp); intros Hn; inversion Hn; auto.
  - apply IH. apply (Hsub _ _ Hp); intros Hn; inversion Hn; auto.
  - intros H. apply (R_trans d s (write_this this content s) s').
    + destruct Hp as [->|[Hw|Hn]]; [apply R_refl| |inversion Hn].
      destruct this as [L|]; [apply R_write_this; exact Hw|apply R_refl].
    + eapply IH; [|exact H].
      destruct Hp as [Ht|[Hw|Hn]]; [left; exact Ht|right; left; exact Hw|inversion Hn].
Qed.

Lemma preserved_call (d : nat) (disp : dispatcher) (this : option nat) :
  (forall a s s' r, disp a s = Some (s', r) -> R d s s') ->
  forall fn args,
    (forall f, fn = VFun f -> permitted this (body f args)) ->
    forall s s' r, call disp fn this args s = Some (s', r) -> R d s s'.
Proof.
  intros Hdisp fn args Hp s s' r. destruct fn; cbn [call];
    try (intros H; inversion H; subst; apply R_refl).
  apply preserved_exec; [exact Hdisp|]. apply Hp. reflexivity.
Qed.

(** A listener, called on the array the loop iterates *)
Lemma listener_permitted (L : nat) (f : nat) : permitted (Some L) (body f []).
Proof.
  destruct (Bool.bool_dec writes true) as [E|E]; [right; left; exact E|].
  right. right. apply listeners_no_write. apply Bool.not_true_is_false. exact E.
Qed.

Lemma preserved_dispatch_notify (fuel : nat) :
  (forall d a s s' r, dispatch fuel d a s = Some (s', r) -> R d s s')
  /\ (forall d L i s s' r, notify fuel d L i s = Some (s', r) -> R d s s').
Proof.
  induction fuel as [|fuel [IHd IHn]].
  - split.
    + intros d a s s' r. cbn [dispatch].
      destruct (negb _); [intros H; inversion H; subst; apply R_refl|].
      destruct (get_prop _ _ _); [|intros H; inversion H; subst; apply R_refl].
      destruct (String.eqb _ _); [intros H; inversion H; subst; apply R_refl|].
      destruct (isDispatching s); [intros H; inversion H; subst; apply R_refl|discriminate].
    + intros d L i s s' r. cbn [notify].
      destruct (array s L !! i); [discriminate|].
      intros H; inversion H; subst; apply R_refl.
  - assert (Hn : forall d L i s s' r, notify (S fuel) d L i s = Some (s', r) -> R d s s').
    { intros d L i s s' r. cbn [notify].
      destruct (array s L !! i) as [listener|]; [|intros H; inversion H; subst; apply R_refl].
      destruct (call (dispatch fuel (S d)) listener (Some L) [] (record_call d listener s))
        as [[s1 [v|e]]|] eqn:E; [| |discriminate].
      - intros H. apply (R_trans d s (record_call d listener s) s'); [apply R_record|].
        apply (R_trans d _ s1 s'); [|eapply IHn; exact H].
        apply R_deeper. eapply preserved_call; [| |exact E].
        + intros; eapply IHd; eassumption.
        + intros f _. apply listener_permitted.
      - intros H; inversion H; subst.
        apply (R_trans d s (record_call d listener s) s'); [apply R_record|].
        apply R_deeper. eapply preserved_call; [| |exact E].
        + intros; eapply IHd; eassumption.
        + intros f _. apply listener_permitted. }
    split; [|exact Hn].
    intros d a s s' r. cbn [dispatch].
    destruct (negb _); [intros H; inversion H; subst; apply R_refl|].
    destruct (get_prop _ _ _); [|intros H; inversion H; subst; apply R_refl].
    destruct (String.eqb _ _); [intros H; inversion H; subst; apply R_refl|].
    destruct (isDispatching s) eqn:Hs; [intros H; inversion H; subst; apply R_refl|].
    destruct (call_while_dispatching fuel (S d) (currentReducer (set_isDispatching true s))
                [currentState (set_isDispatching true s); a] (set_isDispatching true s) eq_refl)
      as (s2 & r2 & -> & Hfr).
    pose proof (after_same_transition s s2 Hs Hfr) as Heq.
    assert (H2 : R d s (set_isDispatching false s2)).
    { rewrite Heq.
      eapply R_trans; [eapply R_trans; [apply R_currentReducer | apply R_next_loc]|].
      apply R_client_vars. }
    destruct r2 as [nextState|e].
    + destruct (notify fuel d _ 0 _) as [[s3 r3]|] eqn:E; [|discriminate].
      intros H. apply IHn in E.
      assert (H3 : R d s s3).
      { eapply R_trans; [|exact E].
        eapply R_trans; [|apply R_commit].
        assert (Hsw : set_isDispatching false (set_currentState nextState s2)
                      = set_currentState nextState (set_isDispatching false s2)) by reflexivity.
        rewrite Hsw. eapply R_trans; [exact H2 | apply R_currentState]. }
      destruct r3; inversion H; subst; exact H3.
    + intros H; inversion H; subst. exact H2.
Qed.

Lemma preserved_dispatch (fuel d : nat) (a : value) (s s' : store) (r : result value) :
  dispatch fuel d a s = Some (s', r) -> R d s s'.
Proof. apply (proj1 (preserved_dispatch_notify fuel)). Qed.

Lemma preserved_notify (fuel d L i : nat) (s s' : store) (r : result unit) :
  notify fuel d L i s = Some (s', r) -> R d s s'.
Proof. apply (proj2 (preserved_dispatch_notify fuel)). Qed.

End Preservation.

(** ** The array a notification loop iterates

    An array [L] is frozen when no mutation made by the store can reach it:
    it is not the array [nextListeners] holds, or [nextListeners] still
    aliases [currentListeners], so that [ensureCanMutateNextListeners] will
    copy before any mutation.  A listener that writes to its [this] does
    reach it: [listeners_respect] below assumes that none does. *)
Definition frozen (L : nat) (s : store) : Prop :=
  (L < length (arrays s))%nat
  /\ (L <> nextListeners s \/ nextListeners s = currentListeners s).

Definition keeps_array (L : nat) (d : nat) (s s' : store) : Prop :=
  frozen L s -> frozen L s' /\ array s' L = array s L.

Lemma ensure_frozen (L : nat) (s : store) :
  frozen L s ->
  (L < length (arrays (ensureCanMutateNextListeners s)))%nat
  /\ L <> nextListeners (ensureCanMutateNextListeners s)
  /\ array (ensureCanMutateNextListeners s) L = array s L.
Proof.
  intros [Hlt Hor]. unfold ensureCanMutateNextListeners.
  destruct (Nat.eqb_spec (nextListeners s) (currentListeners s)) as [Heq|Hne].
  - unfold array. simpl. rewrite length_app. simpl. split; [lia|]. split; [lia|].
    rewrite lookup_app_l by exact Hlt. reflexivity.
  - split; [exact Hlt|]. split; [|reflexivity].
    destruct Hor as [H|H]; [exact H|contradiction].
Qed.

Lemma mutate_next_frozen (L : nat) (s : store) (l : list value) :
  (L < length (arrays s))%nat -> L <> nextListeners s ->
  frozen L (set_arrays (<[nextListeners s := l]> (arrays s)) s)
  /\ array (set_arrays (<[nextListeners s := l]> (arrays s)) s) L = array s L.
Proof.
  intros Hlt Hne. unfold frozen, array. simpl. rewrite length_insert.
  split; [split; [exact Hlt|left; exact Hne]|].
  rewrite list_lookup_insert_ne by congruence. reflexivity.
Qed.

Lemma keeps_array_subscribe (L d : nat) (listener : value) (s : store) :
  keeps_array L d s (subscribe listener s).1.
Proof.
  intros Hf. unfold subscribe.
  destruct (negb _); [split; [exact Hf|reflexivity]|].
  destruct (isDispatching s); [split; [exact Hf|reflexivity]|].
  cbn [fst]. unfold push.
  set (s1 := set_subscriptions _ s).
  assert (Hf1 : frozen L s1) by exact Hf.
  destruct (ensure_frozen L s1 Hf1) as (Hlt & Hne & Harr).
  destruct (mutate_next_frozen L (ensureCanMutateNextListeners s1)
              (array (ensureCanMutateNextListeners s1)
                 (nextListeners (ensureCanMutateNextListeners s1)) ++ [listener]) Hlt Hne)
    as [H1 H2].
  split; [exact H1|]. rewrite H2, Harr. reflexivity.
Qed.

Lemma keeps_array_unsubscribe (L d : nat) (handle : nat) (s : store) :
  keeps_array L d s (unsubscribe handle s).1.
Proof.
  intros Hf. unfold unsubscribe.
  destruct (subscriptions s !! handle) as [[listener b]|]; [|split; [exact Hf|reflexivity]].
  destruct b; cbn [negb]; [|split; [exact Hf|reflexivity]].
  destruct (isDispatching s); [split; [exact Hf|reflexivity]|].
  cbn [fst].
  set (s1 := set_subscriptions _ s).
  assert (Hf1 : frozen L s1) by exact Hf.
  destruct (ensure_frozen L s1 Hf1) as (Hlt & Hne & Harr).
  destruct (mutate_next_frozen L (ensureCanMutateNextListeners s1)
              (splice1 (indexOf (array (ensureCanMutateNextListeners s1)
                                   (nextListeners (ensureCanMutateNextListeners s1))) listener)
                 (array (ensureCanMutateNextListeners s1)
                    (nextListeners (ensureCanMutateNextListeners s1)))) Hlt Hne)
    as [H1 H2].
  split; [exact H1|]. rewrite H2, Harr. reflexivity.
Qed.

Section Snapshot.

Hypothesis listeners_respect : forall f, no_write (body f []).

Lemma keeps_array_dispatch (L fuel d : nat) (a : value) (s s' : store) (r : result value) :
  dispatch fuel d a s = Some (s', r) -> keeps_array L d s s'.
Proof.
  apply (preserved_dispatch (keeps_array L) false); [..|discriminate|intros _; exact listeners_respect].
  - intros d0 s0 H. split; [exact H|reflexivity].
  - intros d0 s1 s2 s3 H12 H23 H. destruct (H12 H) as [H2 E2].
    destruct (H23 H2) as [H3 E3]. split; [exact H3|congruence].
  - intros d0 s0 s0' H. exact H.
  - apply keeps_array_subscribe.
  - apply keeps_array_unsubscribe.
  - intros d0 v s0 H. split; [exact H|reflexivity].
  - intros d0 n s0 H. split; [exact H|reflexivity].
  - intros d0 v s0 H. split; [exact H|reflexivity].
  - intros d0 v s0 H. split; [exact H|reflexivity].
  - intros d0 s0 [Hlt _]. split; [|reflexivity]. split; [exact Hlt|right; reflexivity].
  - intros d0 listener s0 H. split; [exact H|reflexivity].
Qed.

(** ** Calls recorded by nested dispatches are deeper *)

Definition records_deeper (d : nat) (s s' : store) : Prop :=
  exists tr, notified s' = notified s ++ tr /\ Forall (fun e => (d <= e.1)%nat) tr.

Lemma records_deeper_refl (d : nat) (s s' : store) :
  notified s' = notified s -> records_deeper d s s'.
Proof. intros H. exists []. rewrite app_nil_r. split; [exact H|constructor]. Qed.

Lemma notified_subscribe (listener : value) (s : store) :
  notified (subscribe listener s).1 = notified s.
Proof.
  unfold subscribe. destruct (negb _); [reflexivity|].
  destruct (isDispatching s); [reflexivity|].
  cbn [fst]. unfold push, ensureCanMutateNextListeners. simpl.
  destruct (_ =? _)%nat; reflexivity.
Qed.

Lemma notified_unsubscribe (handle : nat) (s : store) :
  notified (unsubscribe handle s).1 = notified s.
Proof.
  unfold unsubscribe. destruct (subscriptions s !! handle) as [[l b]|]; [|reflexivity].
  destruct b; [|reflexivity]. cbn [negb]. destruct (isDispatching s); [reflexivity|].
  cbn [fst]. unfold ensureCanMutateNextListeners. simpl.
  destruct (_ =? _)%nat; reflexivity.
Qed.

Lemma records_deeper_dispatch (fuel d : nat) (a : value) (s s' : store) (r : result value) :
  dispatch fuel d a s = Some (s', r) -> records_deeper d s s'.
Proof.
  apply (preserved_dispatch records_deeper true);
    [..|intros _ d0 L content s0; apply records_deeper_refl; reflexivity|discriminate].
  - intros d0 s0. apply records_deeper_refl. reflexivity.
  - intros d0 s1 s2 s3 (t1 & E1 & F1) (t2 & E2 & F2). exists (t1 ++ t2).
    rewrite E2, E1, app_assoc. split; [reflexivity|]. apply Forall_app. split; assumption.
  - intros d0 s0 s0' (t & E & F). exists t. split; [exact E|].
    eapply Forall_impl; [exact F|]. simpl. intros e He. lia.
  - intros d0 listener s0. apply records_deeper_refl. apply notified_subscribe.
  - intros d0 handle s0. apply records_deeper_refl. apply notified_unsubscribe.
  - intros d0 v s0. apply records_deeper_refl. reflexivity.
  - intros d0 n s0. apply records_deeper_refl. reflexivity.
  - intros d0 v s0. apply records_deeper_refl. reflexivity.
  - intros d0 v s0. apply records_deeper_refl. reflexivity.
  - intros d0 s0. apply records_deeper_refl. reflexivity.
  - intros d0 listener s0. exists [(d0, listener)]. split; [reflexivity|].
    constructor; [simpl; lia|constructor].
Qed.

Lemma keeps_array_call (L fuel d : nat) (fn : value) (this : option nat)
    (s s' : store) (r : result value) :
  call (dispatch fuel d) fn this [] s = Some (s', r) -> keeps_array L d s s'.
Proof.
  apply (preserved_call (keeps_array L) false);
    [..|discriminate|
     |intros f _; right; right; apply listeners_respect].
  - intros d0 s0 H. split; [exact H|reflexivity].
  - intros d0 s1 s2 s3 H12 H23 H. destruct (H12 H) as [H2 E2].
    destruct (H23 H2) as [H3 E3]. split; [exact H3|congruence].
  - apply keeps_array_subscribe.
  - apply keeps_array_unsubscribe.
  - intros d0 v s0 H. split; [exact H|reflexivity].
  - intros d0 n s0 H. split; [exact H|reflexivity].
  - intros d0 v s0 H. split; [exact H|reflexivity].
  - intros a s0 s0' r0. apply keeps_array_dispatch.
Qed.

Lemma records_deeper_call (fuel d : nat) (fn : value) (this : option nat)
    (args : list value) (s s' : store) (r : result value) :
  call (dispatch fuel d) fn this args s = Some (s', r) -> records_deeper d s s'.
Proof.
  apply (preserved_call records_deeper true);
    [..|intros _ d0 L content s0; apply records_deeper_refl; reflexivity|
     |intros f _; right; left; reflexivity].
  - intros d0 s0. apply records_deeper_refl. reflexivity.
  - intros d0 s1 s2 s3 (t1 & E1 & F1) (t2 & E2 & F2). exists (t1 ++ t2).
    rewrite E2, E1, app_assoc. split; [reflexivity|]. apply Forall_app. split; assumption.
  - intros d0 listener s0. apply records_deeper_refl. apply notified_subscribe.
  - intros d0 handle s0. apply records_deeper_refl. apply notified_unsubscribe.
  - intros d0 v s0. apply records_deeper_refl. reflexivity.
  - intros d0 n s0. apply records_deeper_refl. reflexivity.
  - intros d0 v s0. apply records_deeper_refl. reflexivity.
  - intros a s0 s0' r0. apply records_deeper_dispatch.
Qed.

(** The listeners that the loop of the [dispatch] of depth [d] called, among
    the calls [tr] recorded. *)
Definition called_at (d : nat) (tr : list (nat * value)) : list value :=
  map snd (filter (fun e => e.1 = d) tr).

Lemma called_at_app (d : nat) (t1 t2 : list (nat * value)) :
  called_at d (t1 ++ t2) = called_at d t1 ++ called_at d t2.
Proof. unfold called_at. rewrite filter_app, map_app. reflexivity. Qed.

Lemma called_at_deeper (d : nat) (tr : list (nat * value)) :
  Forall (fun e => (S d <= e.1)%nat) tr -> called_at d tr = [].
Proof.
  unfold called_at. induction 1 as [|e tr He _ IH]; [reflexivity|].
  rewrite filter_cons. destruct (decide (e.1 = d)); [lia|exact IH].
Qed.

(** The loop calls the listeners its array held when it started, in order:
    all of them when it completes, a first part of them when a listener
    throws. *)
Lemma notify_snapshot (fuel d L : nat) :
  forall i s s' r,
    frozen L s ->
    notify fuel d L i s = Some (s', r) ->
    exists tr,
      notified s' = notified s ++ tr
      /\ frozen L s' /\ array s' L = array s L
      /\ match r with
         | Normal _ => called_at d tr = drop i (array s L)
         | Raised _ => called_at d tr `prefix_of` drop i (array s L)
         end.
Proof.
  induction fuel as [|fuel IH]; intros i s s' r Hf; cbn [notify].
  - destruct (array s L !! i) eqn:E; [discriminate|].
    intros H; inversion H; subst. exists []. rewrite app_nil_r.
    split; [reflexivity|]. split; [exact Hf|]. split; [reflexivity|].
    apply lookup_ge_None in E. rewrite drop_ge by exact E. reflexivity.
  - destruct (array s L !! i) as [listener|] eqn:E.
    2:{ intros H; inversion H; subst. exists []. rewrite app_nil_r.
        split; [reflexivity|]. split; [exact Hf|]. split; [reflexivity|].
        apply lookup_ge_None in E. rewrite drop_ge by exact E. reflexivity. }
    set (s0 := record_call d listener s).
    assert (Hf0 : frozen L s0) by exact Hf.
    destruct (call (dispatch fuel (S d)) listener (Some L) [] s0) as [[s1 r1]|] eqn:Ec;
      [|discriminate].
    pose proof (keeps_array_call L fuel (S d) listener (Some L) s0 s1 r1 Ec) as Hk.
    pose proof (records_deeper_call fuel (S d) listener (Some L) [] s0 s1 r1 Ec) as Hk'.
    destruct Hk' as (t1 & E1 & F1). destruct (Hk Hf0) as [Hf1 Ea1].
    assert (Hdrop : drop i (array s L) = listener :: drop (S i) (array s L)).
    { apply drop_S. exact E. }
    assert (Hc1 : called_at d ((d, listener) :: t1) = [listener]).
    { change ((d, listener) :: t1) with ([(d, listener)] ++ t1).
      rewrite called_at_app, (called_at_deeper d t1 F1), app_nil_r.
      unfold called_at. rewrite filter_cons. simpl.
      rewrite decide_True by reflexivity. reflexivity. }
    destruct r1 as [v|e].
    + intros H. destruct (IH (S i) s1 s' r Hf1 H) as (t2 & E2 & Hf2 & Ea2 & Hr).
      exists (((d, listener) :: t1) ++ t2).
      split; [rewrite E2, E1; subst s0; simpl; rewrite <- !app_assoc; reflexivity|].
      split; [exact Hf2|]. split; [rewrite Ea2, Ea1; reflexivity|].
      rewrite called_at_app, Hc1, Hdrop. rewrite Ea1 in Hr. change (array s0 L) with (array s L) in Hr.
      destruct r; simpl.
      * rewrite Hr. reflexivity.
      * apply prefix_cons. exact Hr.
    + intros H; inversion H; subst s' r.
      exists ((d, listener) :: t1).
      split; [rewrite E1; subst s0; simpl; rewrite <- app_assoc; reflexivity|].
      split; [exact Hf1|]. split; [rewrite Ea1; reflexivity|].
      rewrite Hc1, Hdrop. apply prefix_cons. apply prefix_nil.
Qed.

Lemma dispatch_snapshot (fuel d : nat) (action : value) (s s' : store) (r : result value) :
  (nextListeners s < length (arrays s))%nat ->
  dispatch fuel d action s = Some (s', r) ->
  exists tr,
    notified s' = notified s ++ tr
    /\ match r with
       | Normal _ => called_at d tr = array s (nextListeners s)
       | Raised _ => called_at d tr `prefix_of` array s (nextListeners s)
       end.
Proof.
  intros Hwf.
  assert (Hrefl : forall e, Some (s, Raised e) = Some (s', r) ->
            exists tr, notified s' = notified s ++ tr
              /\ match r with
                 | Normal _ => called_at d tr = array s (nextListeners s)
                 | Raised _ => called_at d tr `prefix_of` array s (nextListeners s)
                 end).
  { intros e H. inversion H; subst. exists []. rewrite app_nil_r.
    split; [reflexivity|apply prefix_nil]. }
  destruct fuel as [|fuel]; cbn [dispatch].
  - destruct (negb _); [apply Hrefl|].
    destruct (get_prop _ _ _); [|apply Hrefl].
    destruct (String.eqb _ _); [apply Hrefl|].
    destruct (isDispatching s); [apply Hrefl|discriminate].
  - destruct (negb _); [apply Hrefl|].
    destruct (get_prop _ _ _); [|apply Hrefl].
    destruct (String.eqb _ _); [apply Hrefl|].
    destruct (isDispatching s) eqn:Hs; [apply Hrefl|].
    destruct (call_while_dispatching fuel (S d) (currentReducer (set_isDispatching true s))
                [currentState (set_isDispatching true s); action] (set_isDispatching true s) eq_refl)
      as (s2 & r2 & -> & Hfr).
    destruct Hfr as (H1 & H2 & H3 & H4 & H5 & H6 & H7). simpl in H2, H4, H7.
    destruct r2 as [nextState|e].
    + set (s3 := set_currentListeners _ _).
      destruct (notify fuel d (currentListeners s3) 0 s3) as [[s4 r4]|] eqn:E; [|discriminate].
      assert (Hf : frozen (currentListeners s3) s3).
      { subst s3. unfold frozen. simpl. rewrite H2, H4. split; [exact Hwf|right; reflexivity]. }
      destruct (notify_snapshot fuel d (currentListeners s3) 0 s3 s4 r4 Hf E)
        as (tr & Et & _ & _ & Hr).
      assert (Ha : array s3 (currentListeners s3) = array s (nextListeners s)).
      { subst s3. unfold array. simpl. rewrite H2, H4. reflexivity. }
      assert (Hn : notified s3 = notified s) by (subst s3; simpl; exact H7).
      rewrite Ha, drop_0 in Hr. rewrite Hn in Et.
      destruct r4 as [[]|e]; intros H; inversion H; subst; exists tr; split; assumption.
    + intros H; inversion H; subst. exists []. rewrite app_nil_r. simpl.
      split; [exact H7|apply prefix_nil].
Qed.

(** Calling the functions of a list one after the other, each on the
    array [L], as the loop would if the array held that list throughout. *)
Fixpoint call_each (fuel : nat) (d : nat) (L : nat) (listeners : list value) (s : store)
  : option (store * result unit) :=
  match listeners with
  | [] => Some (s, Normal tt)
  | listener :: rest =>
      match fuel with
      | O => None
      | S fuel' =>
          match call (dispatch fuel' (S d)) listener (Some L) []
                  (record_call d listener s) with
          | None => None
          | Some (s, Raised e) => Some (s, Raised e)
          | Some (s, Normal _) => call_each fuel' d L rest s
          end
      end
  end.

(** The loop over a frozen array calls the functions the array held when
    the loop started. *)
Lemma notify_call_each (fuel d L : nat) :
  forall i s,
    frozen L s ->
    notify fuel d L i s = call_each fuel d L (drop i (array s L)) s.
Proof.
  induction fuel as [|fuel IH]; intros i s Hf; cbn [notify].
  - destruct (array s L !! i) as [listener|] eqn:E.
    + rewrite (drop_S _ _ _ E). reflexivity.
    + apply lookup_ge_None in E. rewrite drop_ge by exact E. reflexivity.
  - destruct (array s L !! i) as [listener|] eqn:E.
    2:{ apply lookup_ge_None in E. rewrite drop_ge by exact E. reflexivity. }
    rewrite (drop_S _ _ _ E). cbn [call_each].
    set (s0 := record_call d listener s).
    assert (Hf0 : frozen L s0) by exact Hf.
    destruct (call (dispatch fuel (S d)) listener (Some L) [] s0) as [[s1 [v|e]]|] eqn:Ec;
      [|reflexivity|reflexivity].
    destruct (keeps_array_call L fuel (S d) listener (Some L) s0 s1 (Normal v) Ec Hf0)
      as [Hf1 Ea1].
    rewrite (IH (S i) s1 Hf1), Ea1. reflexivity.
Qed.

End Snapshot.

(** ** Subscriptions and the next array agree

    Each function occurs in the array [nextListeners] holds as many times
    as it has subscriptions that were not cancelled. *)
Definition occurrences (f : nat) (l : list value) : nat :=
  length (List.filter (fun x => strict_eq x (VFun f)) l).

Definition live (f : nat) (subs : list (value * bool)) : nat :=
  length (List.filter (fun sub : value * bool => sub.2 && strict_eq sub.1 (VFun f)) subs).

Definition consistent (s : store) : Prop :=
  (nextListeners s < length (arrays s))%nat
  /\ (forall handle l b, subscriptions s !! handle = Some (l, b) -> is_function l = true)
  /\ (forall f, occurrences f (array s (nextListeners s)) = live f (subscriptions s)).

Lemma strict_eq_VFun (x : value) (f : nat) :
  strict_eq x (VFun f) = true -> x = VFun f.
Proof.
  destruct x; simpl; try discriminate. intros H. apply Nat.eqb_eq in H. congruence.
Qed.

Lemma occurrences_app (f : nat) (l1 l2 : list value) :
  occurrences f (l1 ++ l2) = (occurrences f l1 + occurrences f l2)%nat.
Proof. unfold occurrences. rewrite List.filter_app, length_app. reflexivity. Qed.

Lemma live_app (f : nat) (l1 l2 : list (value * bool)) :
  live f (l1 ++ l2) = (live f l1 + live f l2)%nat.
Proof. unfold live. rewrite List.filter_app, length_app. reflexivity. Qed.

Lemma occurrences_delete (f i : nat) (x : value) (l : list value) :
  l !! i = Some x ->
  (occurrences f (delete i l) + (if strict_eq x (VFun f) then 1 else 0))%nat
  = occurrences f l.
Proof.
  unfold occurrences. revert i. induction l as [|y l IH]; intros i H; [discriminate|].
  destruct i as [|i]; simpl in *.
  - inversion H; subst. destruct (strict_eq x (VFun f)); simpl; lia.
  - specialize (IH i H). destruct (strict_eq y (VFun f)); simpl; lia.
Qed.

Lemma live_cancel (f handle : nat) (l : value) (subs : list (value * bool)) :
  subs !! handle = Some (l, true) ->
  (live f (<[handle := (l, false)]> subs) + (if strict_eq l (VFun f) then 1 else 0))%nat
  = live f subs.
Proof.
  unfold live. revert handle. induction subs as [|y subs IH]; intros h H; [discriminate|].
  destruct h as [|h]; simpl in *.
  - inversion H; subst. simpl. destruct (strict_eq l (VFun f)); simpl; lia.
  - specialize (IH h H). destruct (y.2 && strict_eq y.1 (VFun f)); simpl; lia.
Qed.

Lemma indexOf_from_found (x : value) (l : list value) (k : Z) :
  (exists y, y ∈ l /\ strict_eq y x = true) ->
  exists i y, indexOf_from x l k = k + Z.of_nat i /\ l !! i = Some y /\ strict_eq y x = true.
Proof.
  revert k. induction l as [|z l IH]; intros k (y & Hin & Hy).
  - apply elem_of_nil in Hin as [].
  - simpl. destruct (strict_eq z x) eqn:Ez.
    + exists 0%nat, z. split; [lia|]. split; [reflexivity|exact Ez].
    + apply elem_of_cons in Hin as [->|Hin]; [congruence|].
      destruct (IH (k + 1) (ex_intro _ y (conj Hin Hy))) as (i & y' & Hi & Hl & Hy').
      exists (S i), y'. split; [lia|]. split; assumption.
Qed.

Lemma occurrences_pos (f : nat) (l : list value) :
  (0 < occurrences f l)%nat -> exists y, y ∈ l /\ strict_eq y (VFun f) = true.
Proof.
  unfold occurrences. induction l as [|z l IH]; simpl; [lia|].
  destruct (strict_eq z (VFun f)) eqn:E.
  - intros _. exists z. split; [left|exact E].
  - intros H. destruct (IH H) as (y & Hin & Hy). exists y. split; [right; exact Hin|exact Hy].
Qed.

Lemma live_pos (f handle : nat) (subs : list (value * bool)) :
  subs !! handle = Some (VFun f, true) -> (0 < live f subs)%nat.
Proof.
  unfold live. revert handle. induction subs as [|y subs IH]; intros h H; [discriminate|].
  destruct h as [|h]; simpl in *.
  - inversion H; subst. simpl. rewrite Nat.eqb_refl. simpl. lia.
  - specialize (IH h H). destruct (y.2 && strict_eq y.1 (VFun f)); simpl; lia.
Qed.

Lemma splice1_found (i : nat) (l : list value) :
  (i < length l)%nat -> splice1 (Z.of_nat i) l = delete i l.
Proof.
  intros H. unfold splice1.
  destruct (Z.ltb_spec (Z.of_nat i) 0) as [Hlt|_]; [lia|].
  rewrite Z.min_l by lia. rewrite Nat2Z.id. reflexivity.
Qed.

(** A live subscription has its listener in the next array. *)
Lemma live_listener_in_next (s : store) (handle : nat) (l : value) :
  consistent s -> subscriptions s !! handle = Some (l, true) ->
  l ∈ array s (nextListeners s).
Proof.
  intros (_ & Hfun & Hcount) Hh.
  pose proof (Hfun handle l true Hh) as Hl. destruct l; try discriminate.
  pose proof (live_pos f handle (subscriptions s) Hh) as Hpos.
  rewrite <- Hcount in Hpos. apply occurrences_pos in Hpos as (y & Hin & Hy).
  apply strict_eq_VFun in Hy. subst y. exact Hin.
Qed.

Lemma ensure_next (s : store) :
  (nextListeners s < length (arrays s))%nat ->
  (nextListeners (ensureCanMutateNextListeners s)
   < length (arrays (ensureCanMutateNextListeners s)))%nat
  /\ array (ensureCanMutateNextListeners s) (nextListeners (ensureCanMutateNextListeners s))
     = array s (nextListeners s)
  /\ subscriptions (ensureCanMutateNextListeners s) = subscriptions s.
Proof.
  intros Hlt. unfold ensureCanMutateNextListeners.
  destruct (Nat.eqb_spec (nextListeners s) (currentListeners s)) as [Heq|Hne].
  - unfold array. simpl. rewrite length_app. simpl. split; [lia|]. split; [|reflexivity].
    rewrite lookup_app_r by lia. rewrite Nat.sub_diag. simpl. rewrite Heq. reflexivity.
  - split; [exact Hlt|]. split; reflexivity.
Qed.

Lemma consistent_subscribe (listener : value) (s : store) :
  consistent s -> consistent (subscribe listener s).1.
Proof.
  intros Hc. unfold subscribe. rewrite typeof_function.
  destruct (is_function listener) eqn:Hl; cbn [negb]; [|exact Hc].
  destruct (isDispatching s); [exact Hc|].
  cbn [fst]. destruct Hc as (Hlt & Hfun & Hcount).
  set (s1 := set_subscriptions _ s).
  destruct (ensure_next s1 Hlt) as (Hlt2 & Harr2 & Hsub2).
  unfold consistent, push, array. simpl. rewrite length_insert.
  split; [exact Hlt2|]. split.
  - rewrite Hsub2. subst s1. simpl. intros h l b Hh.
    apply lookup_app_Some in Hh as [Hh|[_ Hh]]; [eapply Hfun; exact Hh|].
    destruct (h - length (subscriptions s))%nat; simpl in Hh; [|discriminate].
    inversion Hh; subst. exact Hl.
  - intros f. rewrite list_lookup_insert_eq by exact Hlt2. simpl.
    rewrite Hsub2. subst s1. simpl.
    rewrite occurrences_app, live_app. fold (array (ensureCanMutateNextListeners
      (set_subscriptions (subscriptions s ++ [(listener, true)]) s))
      (nextListeners (ensureCanMutateNextListeners
         (set_subscriptions (subscriptions s ++ [(listener, true)]) s)))).
    rewrite Harr2. change (array (set_subscriptions _ s) (nextListeners (set_subscriptions _ s)))
      with (array s (nextListeners s)).
    rewrite Hcount. f_equal. unfold live, occurrences. simpl.
    destruct (strict_eq listener (VFun f)); reflexivity.
Qed.

Lemma consistent_unsubscribe (handle : nat) (s : store) :
  consistent s -> consistent (unsubscribe handle s).1.
Proof.
  intros Hc. unfold unsubscribe.
  destruct (subscriptions s !! handle) as [[listener b]|] eqn:Hh; [|exact Hc].
  destruct b; cbn [negb]; [|exact Hc].
  destruct (isDispatching s); [exact Hc|].
  cbn [fst]. pose proof (live_listener_in_next s handle listener Hc Hh) as Hin.
  destruct Hc as (Hlt & Hfun & Hcount).
  pose proof (Hfun handle listener true Hh) as Hl. destruct listener as [| | | | | |g|]; try discriminate.
  set (s1 := set_subscriptions _ s).
  destruct (ensure_next s1 Hlt) as (Hlt2 & Harr2 & Hsub2).
  change (array s1 (nextListeners s1)) with (array s (nextListeners s)) in Harr2.
  set (s2 := ensureCanMutateNextListeners s1) in *.
  rewrite Harr2.
  destruct (indexOf_from_found (VFun g) (array s (nextListeners s)) 0) as (i & y & Hi & Hy & Hyg).
  { exists (VFun g). split; [exact Hin|]. simpl. apply Nat.eqb_refl. }
  unfold indexOf. rewrite Hi. rewrite Z.add_0_l.
  rewrite splice1_found by (eapply lookup_lt_Some; exact Hy).
  unfold consistent, array. simpl. rewrite length_insert.
  split; [exact Hlt2|]. split.
  - rewrite Hsub2. subst s1. simpl. intros h l b Hh'.
    destruct (decide (h = handle)) as [->|Hne].
    + rewrite list_lookup_insert_eq in Hh' by (eapply lookup_lt_Some; exact Hh).
      inversion Hh'; subst. reflexivity.
    + rewrite list_lookup_insert_ne in Hh' by congruence. eapply Hfun; exact Hh'.
  - intros f. rewrite list_lookup_insert_eq by exact Hlt2. simpl.
    rewrite Hsub2. subst s1. simpl.
    pose proof (occurrences_delete f i y (array s (nextListeners s)) Hy) as Ho.
    pose proof (live_cancel f handle (VFun g) (subscriptions s) Hh) as Hv.
    apply strict_eq_VFun in Hyg. subst y. rewrite Hcount in Ho.
    change (default [] (arrays s !! nextListeners s)) with (array s (nextListeners s)).
    lia.
Qed.

Lemma consistent_dispatch (fuel d : nat) (a : value) (s s' : store) (r : result value) :
  (forall f, no_write (body f [])) ->
  dispatch fuel d a s = Some (s', r) -> consistent s -> consistent s'.
Proof.
  intros Hnw.
  apply (preserved_dispatch (fun _ s s' => consistent s -> consistent s') false);
    [..|discriminate|intros _; exact Hnw].
  - intros d0 s0 H. exact H.
  - intros d0 s1 s2 s3 H12 H23 H. exact (H23 (H12 H)).
  - intros d0 s0 s0' H. exact H.
  - intros d0 listener s0. apply consistent_subscribe.
  - intros d0 handle s0. apply consistent_unsubscribe.
  - intros d0 v s0 H. exact H.
  - intros d0 n s0 H. exact H.
  - intros d0 v s0 H. exact H.
  - intros d0 v s0 H. exact H.
  - intros d0 s0 H. exact H.
  - intros d0 listener s0 H. exact H.
Qed.

(** ** Listeners that always complete

    A body is calm when it neither throws nor calls [dispatch] or
    [replaceReducer], whatever the store answers, and does not write to the
    array it is called on: it may read the state, subscribe, unsubscribe,
    use its own variables and read its [this].  A pass over calm listeners
    completes. *)
Inductive calm : prog -> Prop :=
| calm_Return (v : value) : calm (Return v)
| calm_GetState (k : result value -> prog) :
    (forall r, calm (k r)) -> calm (GetState k)
| calm_Subscribe (listener : value) (k : result nat -> prog) :
    (forall r, calm (k r)) -> calm (Subscribe listener k)
| calm_Unsubscribe (handle : nat) (k : result value -> prog) :
    (forall r, calm (k r)) -> calm (Unsubscribe handle k)
| calm_ReadVars (k : value -> prog) :
    (forall vars, calm (k vars)) -> calm (ReadVars k)
| calm_WriteVars (vars : value) (p : prog) :
    calm p -> calm (WriteVars vars p)
| calm_ReadThis (k : option (list value) -> prog) :
    (forall content, calm (k content)) -> calm (ReadThis k).

Lemma exec_calm (disp : dispatcher) (this : option nat) (p : prog) (s : store) :
  calm p -> exists s' v, exec disp this p s = Some (s', Normal v).
Proof.
  intros H. revert s.
  induction H as [v|k _ IH|listener k _ IH|handle k _ IH|k _ IH|vars p _ IH|k _ IH];
    intros s; cbn [exec].
  - eauto.
  - destruct (getState s) as [s1 r]. apply IH.
  - destruct (subscribe listener s) as [s1 r]. apply IH.
  - destruct (unsubscribe handle s) as [s1 r]. apply IH.
  - apply IH.
  - apply IH.
  - apply IH.
Qed.

(** A calm body leaves every frozen array as it is. *)
Lemma keeps_array_calm (L d : nat) (disp : dispatcher) (this : option nat) (p : prog) :
  calm p ->
  forall s s' r, exec disp this p s = Some (s', r) -> keeps_array L d s s'.
Proof.
  assert (Htrans : forall s1 s2 s3,
             keeps_array L d s1 s2 -> keeps_array L d s2 s3 -> keeps_array L d s1 s3).
  { intros s1 s2 s3 H12 H23 H. destruct (H12 H) as [H2 E2].
    destruct (H23 H2) as [H3 E3]. split; [exact H3|congruence]. }
  intros H.
  induction H as [v|k _ IH|listener k _ IH|handle k _ IH|k _ IH|vars p _ IH|k _ IH];
    intros s s' r; cbn [exec].
  - intros E; inversion E; subst. intros Hf. split; [exact Hf|reflexivity].
  - unfold getState. destruct (isDispatching s); apply IH.
  - pose proof (keeps_array_subscribe L d listener s) as H1.
    destruct (subscribe listener s) as [s1 r1]. cbn [fst] in H1.
    intros E. apply (Htrans s s1 s'); [exact H1|eapply IH; exact E].
  - pose proof (keeps_array_unsubscribe L d handle s) as H1.
    destruct (unsubscribe handle s) as [s1 r1]. cbn [fst] in H1.
    intros E. apply (Htrans s s1 s'); [exact H1|eapply IH; exact E].
  - apply IH.
  - intros E. apply (Htrans s (set_client_vars vars s) s'); [|eapply IH; exact E].
    intros Hf. split; [exact Hf|reflexivity].
  - apply IH.
Qed.

Lemma calm_no_write (p : prog) : calm p -> no_write p.
Proof. induction 1; constructor; assumption. Qed.

Definition calm_listener (l : value) : Prop :=
  exists f, l = VFun f /\ calm (body f []).

Lemma notify_completes (fuel d L : nat) :
  forall i s,
    frozen L s ->
    Forall calm_listener (drop i (array s L)) ->
    (length (array s L) - i <= fuel)%nat ->
    exists s', notify fuel d L i s = Some (s', Normal tt).
Proof.
  induction fuel as [|fuel IH]; intros i s Hf Hall Hlen; cbn [notify].
  - destruct (array s L !! i) eqn:E; [|eauto].
    apply lookup_lt_Some in E. lia.
  - destruct (array s L !! i) as [listener|] eqn:E; [|eauto].
    rewrite (drop_S _ _ _ E) in Hall. apply Forall_cons in Hall as [(f & -> & Hcalm) Hall].
    set (s0 := record_call d (VFun f) s).
    destruct (exec_calm (dispatch fuel (S d)) (Some L) (body f []) s0 Hcalm) as (s1 & v & Ec).
    cbn [call]. rewrite Ec.
    destruct (keeps_array_calm L (S d) _ _ _ Hcalm s0 s1 (Normal v) Ec Hf) as [Hf1 Ea1].
    change (array s0 L) with (array s L) in Ea1.
    apply IH; [exact Hf1 | rewrite Ea1; exact Hall | rewrite Ea1; lia].
Qed.

(** ** The claims *)

(** What [dispatch] goes on to do once the reducer has completed, if its
    loop called the functions of the list [listeners] one after the other. *)
Definition after_reducer_each (fuel d : nat) (action : value) (listeners : list value)
    (s2 : store) (r : result value) : option (store * result value) :=
  match r with
  | Raised e => Some (set_isDispatching false s2, Raised e)
  | Normal nextState =>
      match call_each fuel d (nextListeners s2) listeners
              (set_currentListeners (nextListeners s2)
                 (set_isDispatching false (set_currentState nextState s2))) with
      | None => None
      | Some (s, Raised e) => Some (s, Raised e)
      | Some (s, Normal _) => Some (s, Normal action)
      end
  end.

Lemma subscribe_appends (l : value) (s : store) :
  (nextListeners s < length (arrays s))%nat ->
  isDispatching s = false -> is_function l = true ->
  exists s1,
    subscribe l s = (s1, Normal (length (subscriptions s)))
    /\ array s1 (nextListeners s1) = array s (nextListeners s) ++ [l].
Proof.
  intros Hlt Hi Hl. unfold subscribe. rewrite typeof_function, Hl, Hi. cbn [negb].
  eexists. split; [reflexivity|].
  set (s0 := set_subscriptions _ s).
  destruct (ensure_next s0 Hlt) as (Hlt1 & Ha1 & _).
  unfold push. unfold array at 1. cbn [arrays nextListeners set_arrays].
  rewrite list_lookup_insert_eq by exact Hlt1. cbn [default].
  rewrite Ha1. reflexivity.
Qed.


(** C3 — For a reducer [R] that computes its result without calling the
    store, [createStore(R)], with no preloaded state and no enhancer, returns
    a store whose [getState()] is [R(undefined, { type: INIT })]: creation
    has dispatched the init action once, before returning the handle. *)
Theorem createStore_initial_state (fuel l f : nat) (vars v : value) :
  body f [VUndefined; init_action l] = Return v ->
  exists s,
    createStore (S fuel) l vars (VFun f) VUndefined VUndefined = Some (Normal (Handle s))
    /\ getState s = (s, Normal v)
    /\ dispatch (S fuel) 0 (init_action l)
         (Store_ (VFun f) VUndefined [[]] 0 0 false [] (S l) [] vars)
       = Some (s, Normal (init_action l))
    /\ s = Store_ (VFun f) v [[]] 0 0 false [] (S l) [] vars.
Proof.
  intros Hb.
  assert (Hd : dispatch (S fuel) 0 (init_action l)
                 (Store_ (VFun f) VUndefined [[]] 0 0 false [] (S l) [] vars)
               = Some (Store_ (VFun f) v [[]] 0 0 false [] (S l) [] vars,
                       Normal (init_action l))).
  { rewrite (dispatch_idle fuel 0 (init_action l)
               (Store_ (VFun f) VUndefined [[]] 0 0 false [] (S l) [] vars)
               (valid_init_action l) eq_refl).
    cbn [call currentReducer currentState set_isDispatching]. rewrite Hb. cbn [exec].
    destruct fuel; reflexivity. }
  exists (Store_ (VFun f) v [[]] 0 0 false [] (S l) [] vars).
  split; [|split; [reflexivity|split; [exact Hd|reflexivity]]].
  unfold createStore. rewrite !typeof_undefined, !typeof_function.
  cbn [is_undefined is_function andb negb]. rewrite Hd. reflexivity.
Qed.

(** C4 — While the reducer is executing ([isDispatching] is set), a call of
    [dispatch] with a valid action raises "Reducers may not dispatch
    actions.", and [getState], [subscribe] and a first [unsubscribe] raise
    their own error, each leaving the store as it was.  The reducer therefore
    completes with the transition in flight untouched, and the outer
    [dispatch] goes on with its result. *)
Theorem reentrant_calls_rejected (fuel d : nat) (action : value) (f : nat) (s0 : store) :
  isDispatching s0 = false -> valid_action action -> currentReducer s0 = VFun f ->
  (forall s, isDispatching s = true ->
     (forall fuel' d' a, valid_action a ->
        dispatch fuel' d' a s = Some (s, Raised err_dispatch))
     /\ getState s = (s, Raised err_getState)
     /\ (forall listener, is_function listener = true ->
           subscribe listener s = (s, Raised err_subscribe))
     /\ (forall handle listener, subscriptions s !! handle = Some (listener, true) ->
           unsubscribe handle s = (s, Raised err_unsubscribe)))
  /\ exists s2 r,
       exec (dispatch fuel (S d)) None (body f [currentState s0; action]) (set_isDispatching true s0)
       = Some (s2, r)
       /\ same_transition (set_isDispatching true s0) s2
       /\ dispatch (S fuel) d action s0 = after_reducer fuel d action s2 r.
Proof.
  intros Hs Hv Hf. split.
  - intros s H. split; [|split; [|split]].
    + intros fuel' d' a Ha. apply dispatch_reentrant; assumption.
    + apply getState_reentrant. exact H.
    + intros listener Hl. apply subscribe_reentrant; assumption.
    + intros handle listener Hh. apply (unsubscribe_reentrant handle listener); assumption.
  - apply dispatch_runs_reducer; assumption.
Qed.

(** C6 — When the reducer raises [e] on a valid action, [dispatch] raises
    that same [e]; the current state is the one before the call, no listener
    has been called, and [isDispatching] is reset: [getState] answers, and a
    later [dispatch] runs its reducer and commits the result. *)
Theorem reducer_error_propagates (fuel d : nat) (action : value) (f : nat)
    (s0 s2 : store) (e : exn) :
  isDispatching s0 = false -> valid_action action -> currentReducer s0 = VFun f ->
  exec (dispatch fuel (S d)) None (body f [currentState s0; action]) (set_isDispatching true s0)
  = Some (s2, Raised e) ->
  exists s',
    dispatch (S fuel) d action s0 = Some (s', Raised e)
    /\ currentState s' = currentState s0
    /\ notified s' = notified s0
    /\ arrays s' = arrays s0
    /\ currentListeners s' = currentListeners s0
    /\ nextListeners s' = nextListeners s0
    /\ isDispatching s' = false
    /\ getState s' = (s', Normal (currentState s0))
    /\ (forall fuel' d' action' f' v,
          valid_action action' -> currentReducer s' = VFun f' ->
          body f' [currentState s'; action'] = Return v ->
          dispatch (S fuel') d' action' s'
          = after_reducer fuel' d' action' (set_isDispatching true s') (Normal v)).
Proof.
  intros Hs Hv Hf He.
  destruct (dispatch_runs_reducer fuel d action f s0 Hv Hs Hf) as (s2' & r & He' & Hfr & Hd).
  rewrite He in He'. inversion He'; subst s2' r. clear He'.
  destruct Hfr as (H1 & H2 & H3 & H4 & H5 & H6 & H7).
  exists (set_isDispatching false s2). split; [exact Hd|].
  repeat split; try assumption.
  - unfold getState. cbn. rewrite H1. reflexivity.
  - intros fuel' d' action' f' v Hv' Hf' Hb.
    rewrite (dispatch_idle fuel' d' action' (set_isDispatching false s2) Hv' eq_refl).
    rewrite Hf'. cbn [call]. rewrite Hb. reflexivity.
Qed.

(** ** More fuel changes no answer *)

Lemma dispatch_cases (d : nat) (action : value) (s : store) :
  (valid_action action /\ isDispatching s = false)
  \/ (exists e, forall fuel, dispatch fuel d action s = Some (s, Raised e)).
Proof.
  destruct (isPlainObject action) eqn:Hp.
  2:{ right. exists err_plain. intros [|fuel]; cbn [dispatch]; rewrite Hp; reflexivity. }
  destruct (get_prop inherited action "type") as [type|e] eqn:Ht.
  2:{ right. exists e. intros [|fuel]; cbn [dispatch]; rewrite Hp, Ht; reflexivity. }
  destruct (is_undefined type) eqn:Hd.
  { right. exists err_type.
    intros [|fuel]; cbn [dispatch]; rewrite Hp, Ht, typeof_undefined, Hd; reflexivity. }
  destruct (isDispatching s) eqn:Hs.
  { right. exists err_dispatch.
    intros [|fuel]; cbn [dispatch]; rewrite Hp, Ht, typeof_undefined, Hd, Hs; reflexivity. }
  left. split; [|reflexivity]. split; [exact Hp|]. exists type. split; assumption.
Qed.

Lemma dispatch_no_fuel (d : nat) (action : value) (s : store) :
  valid_action action -> isDispatching s = false -> dispatch 0 d action s = None.
Proof.
  intros (Hp & type & Ht & Hd) Hs. cbn [dispatch].
  rewrite Hp, Ht, typeof_undefined, Hd, Hs. reflexivity.
Qed.

Lemma notify_S (fuel d L i : nat) (s : store) :
  notify (S fuel) d L i s
  = match array s L !! i with
    | None => Some (s, Normal tt)
    | Some listener =>
        match call (dispatch fuel (S d)) listener (Some L) [] (record_call d listener s) with
        | None => None
        | Some (s, Raised e) => Some (s, Raised e)
        | Some (s, Normal _) => notify fuel d L (S i) s
        end
    end.
Proof. reflexivity. Qed.

Lemma exec_mono (disp1 disp2 : dispatcher) :
  (forall a s x, disp1 a s = Some x -> disp2 a s = Some x) ->
  forall this p s x, exec disp1 this p s = Some x -> exec disp2 this p s = Some x.
Proof.
  intros Hd this.
  induction p as [v|e|k IH|action k IH|listener k IH|handle k IH|nextReducer k IH
                  |k IH|vars p IH|k IH|content p IH];
    intros s x; cbn [exec]; try (intros H; exact H).
  - destruct (getState s) as [s1 r1]. apply IH.
  - destruct (disp1 action s) as [[s1 r1]|] eqn:E; [|discriminate].
    rewrite (Hd _ _ _ E). apply IH.
  - destruct (subscribe listener s) as [s1 r1]. apply IH.
  - destruct (unsubscribe handle s) as [s1 r1]. apply IH.
  - unfold replaceReducer_with. destruct (negb _); [apply IH|].
    destruct (disp1 _ _) as [[s1 r1]|] eqn:E; [|discriminate].
    rewrite (Hd _ _ _ E). destruct r1; apply IH.
  - apply IH.
  - apply IH.
  - apply IH.
  - apply IH.
Qed.

Lemma call_mono (disp1 disp2 : dispatcher) :
  (forall a s x, disp1 a s = Some x -> disp2 a s = Some x) ->
  forall fn this args s x,
    call disp1 fn this args s = Some x -> call disp2 fn this args s = Some x.
Proof.
  intros Hd fn this args s x. destruct fn; cbn [call]; try (intros H; exact H).
  apply exec_mono. exact Hd.
Qed.

Lemma dispatch_notify_S (fuel : nat) :
  (forall d a s x, dispatch fuel d a s = Some x -> dispatch (S fuel) d a s = Some x)
  /\ (forall d L i s x, notify fuel d L i s = Some x -> notify (S fuel) d L i s = Some x).
Proof.
  induction fuel as [|fuel [IHd IHn]].
  - split.
    + intros d a s x H. destruct (dispatch_cases d a s) as [[Hv Hs]|[e He]].
      * rewrite (dispatch_no_fuel d a s Hv Hs) in H. discriminate.
      * rewrite He in H. rewrite He. exact H.
    + intros d L i s x. rewrite notify_S. cbn [notify].
      destruct (array s L !! i); [discriminate|]. intros H; exact H.
  - assert (Hn : forall d L i s x,
               notify (S fuel) d L i s = Some x -> notify (S (S fuel)) d L i s = Some x).
    { intros d L i s x. rewrite (notify_S (S fuel)), (notify_S fuel).
      destruct (array s L !! i) as [listener|]; [|intros H; exact H].
      destruct (call (dispatch fuel (S d)) listener (Some L) [] (record_call d listener s))
        as [[s1 r1]|] eqn:E; [|discriminate].
      rewrite (call_mono (dispatch fuel (S d)) (dispatch (S fuel) (S d))
                 (IHd (S d)) _ _ _ _ _ E).
      destruct r1; [apply IHn|intros H; exact H]. }
    split; [|exact Hn].
    intros d a s x H. destruct (dispatch_cases d a s) as [[Hv Hs]|[e He]].
    + rewrite (dispatch_idle fuel d a s Hv Hs) in H.
      rewrite (dispatch_idle (S fuel) d a s Hv Hs).
      destruct (call (dispatch fuel (S d)) (currentReducer s) None [currentState s; a]
                  (set_isDispatching true s)) as [[s1 r1]|] eqn:E; [|discriminate].
      rewrite (call_mono (dispatch fuel (S d)) (dispatch (S fuel) (S d))
                 (IHd (S d)) _ _ _ _ _ E).
      destruct r1 as [v|e]; [|exact H].
      destruct (notify fuel d _ 0 _) as [[s2 r2]|] eqn:E2; [|discriminate].
      rewrite (IHn _ _ _ _ _ E2). exact H.
    + rewrite He in H. rewrite He. exact H.
Qed.

(** An answer obtained with some fuel is the answer with any larger fuel. *)
Lemma dispatch_more_fuel (fuel fuel' d : nat) (a : value) (s : store)
    (x : store * result value) :
  (fuel <= fuel')%nat -> dispatch fuel d a s = Some x -> dispatch fuel' d a s = Some x.
Proof.
  induction 1 as [|fuel' _ IH]; [auto|].
  intros H. apply (proj1 (dispatch_notify_S fuel')). apply IH. exact H.
Qed.

(** ** Stores built through the interface *)

Lemma idle_dispatch (fuel d : nat) (a : value) (s s' : store) (r : result value) :
  dispatch fuel d a s = Some (s', r) -> isDispatching s = false -> isDispatching s' = false.
Proof.
  apply (preserved_dispatch
           (fun _ s s' => isDispatching s = false -> isDispatching s' = false) true);
    [..|intros _ d0 L content s0 H; exact H|discriminate].
  - intros d0 s0 H. exact H.
  - intros d0 s1 s2 s3 H12 H23 H. exact (H23 (H12 H)).
  - intros d0 s0 s0' H. exact H.
  - intros d0 listener s0 H. unfold subscribe. destruct (negb _); [exact H|].
    rewrite H. cbn [fst]. unfold push, ensureCanMutateNextListeners. simpl.
    destruct (_ =? _)%nat; exact H.
  - intros d0 handle s0 H. unfold unsubscribe.
    destruct (subscriptions s0 !! handle) as [[l b]|]; [|exact H].
    destruct b; [|exact H]. cbn [negb]. rewrite H. cbn [fst].
    unfold ensureCanMutateNextListeners. simpl. destruct (_ =? _)%nat; exact H.
  - intros d0 v s0 H. exact H.
  - intros d0 n s0 H. exact H.
  - intros d0 v s0 H. exact H.
  - intros d0 v s0 H. exact H.
  - intros d0 s0 H. exact H.
  - intros d0 listener s0 H. exact H.
Qed.

(** The store [createStore] returns is idle and consistent; [subscribe],
    [unsubscribe] and [dispatch] keep it so (see [consistent_subscribe],
    [consistent_unsubscribe], [consistent_dispatch] and [idle_dispatch]). *)
Lemma createStore_ready (fuel l : nat) (vars reducer preloadedState enhancer : value)
    (s : store) :
  createStore fuel l vars reducer preloadedState enhancer = Some (Normal (Handle s)) ->
  consistent s /\ isDispatching s = false.
Proof.
  unfold createStore. rewrite !typeof_undefined, !typeof_function.
  set (normalize := is_function preloadedState && is_undefined enhancer).
  destruct (negb (is_undefined (if normalize then preloadedState else enhancer))).
  { destruct (negb _); discriminate. }
  destruct (negb (is_function reducer)); [discriminate|].
  set (s0 := Store_ _ _ _ _ _ _ _ _ _ _).
  destruct (dispatch fuel 0 (init_action l) s0) as [[s1 [v|e]]|] eqn:E; try discriminate.
  intros H; inversion H; subst s1. split.
  - destruct fuel as [|fuel];
      [rewrite (dispatch_no_fuel 0 _ s0 (valid_init_action l) eq_refl) in E; discriminate|].
    rewrite (dispatch_idle fuel 0 _ s0 (valid_init_action l) eq_refl) in E.
    destruct (call_while_dispatching fuel 1 (currentReducer s0)
                [currentState s0; init_action l] (set_isDispatching true s0) eq_refl)
      as (s2 & r2 & Hcall & Hsame).
    rewrite Hcall in E. destruct r2 as [nextState|e]; [|discriminate].
    destruct Hsame as (_ & Harr & _ & Hnext & _ & Hsub & _).
    cbn [s0 arrays nextListeners subscriptions set_isDispatching] in Harr, Hnext, Hsub.
    set (s3 := set_currentListeners _ _) in E.
    assert (Hn : notify fuel 0 (nextListeners s2) 0 s3 = Some (s3, Normal tt)).
    { assert (Hl : array s3 (nextListeners s2) !! 0%nat = None).
      { unfold array. cbn. rewrite Harr, Hnext. reflexivity. }
      destruct fuel; cbn [notify]; rewrite Hl; reflexivity. }
    rewrite Hn in E. inversion E; subst s.
    unfold consistent, array. cbn. rewrite Harr, Hnext, Hsub. cbn.
    split; [lia|]. split; [intros h l0 b Hh; discriminate|reflexivity].
  - apply (idle_dispatch fuel 0 (init_action l) s0 s (Normal v) E). reflexivity.
Qed.

(** The stores a caller can hold between two calls: the one [createStore]
    returned, and those left by its methods called from outside any
    reducer or listener. *)
Inductive reachable : store -> Prop :=
| reach_createStore (fuel l : nat) (vars reducer preloadedState enhancer : value)
    (s : store) :
    createStore fuel l vars reducer preloadedState enhancer = Some (Normal (Handle s)) ->
    reachable s
| reach_dispatch (fuel : nat) (action : value) (s s' : store) (r : result value) :
    reachable s -> dispatch fuel 0 action s = Some (s', r) -> reachable s'
| reach_subscribe (listener : value) (s : store) :
    reachable s -> reachable (subscribe listener s).1
| reach_unsubscribe (handle : nat) (s : store) :
    reachable s -> reachable (unsubscribe handle s).1
| reach_replaceReducer (fuel : nat) (nextReducer : value) (s s' : store) (r : result value) :
    reachable s -> replaceReducer fuel nextReducer s = Some (s', r) -> reachable s'.

Lemma reachable_ready (s : store) :
  (forall f, no_write (body f [])) ->
  reachable s -> consistent s /\ isDispatching s = false.
Proof.
  intros Hnw.
  induction 1 as [fuel l vars reducer pre enh s Hc
                 |fuel action s s' r _ [IHc IHi] Hd
                 |listener s _ [IHc IHi]
                 |handle s _ [IHc IHi]
                 |fuel nextReducer s s' r _ [IHc IHi] Hr].
  - eapply createStore_ready. exact Hc.
  - split; [eapply (consistent_dispatch _ _ _ _ _ _ Hnw); eassumption
           | eapply idle_dispatch; eassumption].
  - split; [apply consistent_subscribe; exact IHc|].
    unfold subscribe. destruct (negb _); [exact IHi|]. rewrite IHi. cbn [fst].
    unfold push, ensureCanMutateNextListeners. simpl. destruct (_ =? _)%nat; exact IHi.
  - split; [apply consistent_unsubscribe; exact IHc|].
    unfold unsubscribe. destruct (subscriptions s !! handle) as [[l b]|]; [|exact IHi].
    destruct b; [|exact IHi]. cbn [negb]. rewrite IHi. cbn [fst].
    unfold ensureCanMutateNextListeners. simpl. destruct (_ =? _)%nat; exact IHi.
  - revert Hr. unfold replaceReducer, replaceReducer_with.
    destruct (negb _); [intros Hr; inversion Hr; subst; split; assumption|].
    set (s0 := set_next_loc _ (set_currentReducer nextReducer s)).
    destruct (dispatch fuel 0 _ s0) as [[s1 r1]|] eqn:E; [|discriminate].
    assert (H0 : consistent s0 /\ isDispatching s0 = false) by (split; assumption).
    intros Hr.
    assert (Hs : s' = s1) by (destruct r1; inversion Hr; reflexivity). subst s'.
    split; [eapply (consistent_dispatch _ _ _ _ _ _ Hnw); [exact E|exact (proj1 H0)]
           | eapply idle_dispatch; [exact E|exact (proj2 H0)]].
Qed.

(** ** Calls that are refused *)

(** X8 — [createStore] and its arguments: a callable enhancer is handed the
    creation, with the reducer and the preloaded state as they are, and no
    store is made by this call; a callable second argument with no third
    one is taken as the enhancer; an enhancer that is given and is not
    callable is refused, before the reducer is looked at; with no enhancer,
    a reducer that is not callable is refused. *)
Theorem createStore_arguments (fuel l : nat) (vars reducer preloadedState enhancer : value) :
  (is_function enhancer = true ->
     createStore fuel l vars reducer preloadedState enhancer
     = Some (Normal (Enhanced enhancer reducer preloadedState)))
  /\ (is_function preloadedState = true ->
        createStore fuel l vars reducer preloadedState VUndefined
        = Some (Normal (Enhanced preloadedState reducer VUndefined)))
  /\ (is_undefined enhancer = false -> is_function enhancer = false ->
        createStore fuel l vars reducer preloadedState enhancer = Some (Raised err_enhancer))
  /\ (is_function preloadedState = false -> is_function reducer = false ->
        createStore fuel l vars reducer preloadedState VUndefined = Some (Raised err_reducer)).
Proof.
  unfold createStore. rewrite !typeof_undefined, !typeof_function.
  split; [|split; [|split]].
  - intros He. destruct enhancer; try discriminate. rewrite andb_false_r. reflexivity.
  - intros Hp. destruct preloadedState; try discriminate. reflexivity.
  - intros Hu Hf. destruct enhancer; try discriminate; rewrite andb_false_r; reflexivity.
  - intros Hp Hr. rewrite Hp, Hr. reflexivity.
Qed.

(** X9 — The methods check their argument before anything else: an action
    that is no plain object, or whose [type] is [undefined], a listener
    that is not callable and a next reducer that is not callable are
    refused with the error of that check, and the store is left as it
    was, whether or not a reducer is executing. *)
Theorem invalid_arguments_rejected (s : store) :
  (forall fuel d action,
      isPlainObject action = false ->
      dispatch fuel d action s = Some (s, Raised err_plain))
  /\ (forall fuel d action,
        isPlainObject action = true ->
        get_prop inherited action "type" = Normal VUndefined ->
        dispatch fuel d action s = Some (s, Raised err_type))
  /\ (forall listener,
        is_function listener = false -> subscribe listener s = (s, Raised err_listener))
  /\ (forall fuel nextReducer,
        is_function nextReducer = false ->
        replaceReducer fuel nextReducer s = Some (s, Raised err_nextReducer)).
Proof.
  split; [|split; [|split]].
  - intros fuel d action Hp. destruct fuel; cbn [dispatch]; rewrite Hp; reflexivity.
  - intros fuel d action Hp Ht. destruct fuel; cbn [dispatch]; rewrite Hp, Ht; reflexivity.
  - intros listener Hl. unfold subscribe. rewrite typeof_function, Hl. reflexivity.
  - intros fuel nextReducer Hn. unfold replaceReducer, replaceReducer_with.
    rewrite typeof_function, Hn. reflexivity.
Qed.

(** ** A pass over calm listeners *)

(** What subscribing and unsubscribing leave alone. *)
Definition quiet (s s' : store) : Prop :=
  currentState s' = currentState s
  /\ currentReducer s' = currentReducer s
  /\ isDispatching s' = isDispatching s
  /\ currentListeners s' = currentListeners s
  /\ notified s' = notified s.

Lemma quiet_refl (s : store) : quiet s s.
Proof. repeat split. Qed.

Lemma quiet_trans (s1 s2 s3 : store) : quiet s1 s2 -> quiet s2 s3 -> quiet s1 s3.
Proof.
  intros (H1 & H2 & H3 & H4 & H5) (G1 & G2 & G3 & G4 & G5). repeat split; congruence.
Qed.

Lemma quiet_subscribe (listener : value) (s : store) : quiet s (subscribe listener s).1.
Proof.
  unfold subscribe. destruct (negb _); [apply quiet_refl|].
  destruct (isDispatching s); [apply quiet_refl|].
  cbn [fst]. unfold push, ensureCanMutateNextListeners. simpl.
  destruct (_ =? _)%nat; repeat split.
Qed.

Lemma quiet_unsubscribe (handle : nat) (s : store) : quiet s (unsubscribe handle s).1.
Proof.
  unfold unsubscribe. destruct (subscriptions s !! handle) as [[l b]|]; [|apply quiet_refl].
  destruct b; [|apply quiet_refl]. cbn [negb].
  destruct (isDispatching s); [apply quiet_refl|].
  cbn [fst]. unfold ensureCanMutateNextListeners. simpl.
  destruct (_ =? _)%nat; repeat split.
Qed.

(** A calm body completes, whatever [dispatch] is, and leaves the state,
    the reducer, the guard and the record of calls as they were. *)
Lemma exec_calm_quiet (this : option nat) (p : prog) (s : store) :
  calm p ->
  exists s' v, (forall disp, exec disp this p s = Some (s', Normal v)) /\ quiet s s'.
Proof.
  intros H. revert s.
  induction H as [v|k _ IH|listener k _ IH|handle k _ IH|k _ IH|vars p _ IH|k _ IH];
    intros s.
  - exists s, v. split; [reflexivity|apply quiet_refl].
  - destruct (IH (getState s).2 s) as (s' & v & He & Hq).
    exists s', v. split; [|exact Hq].
    intros disp. cbn [exec]. specialize (He disp). revert He.
    unfold getState. destruct (isDispatching s); exact (fun H => H).
  - pose proof (quiet_subscribe listener s) as Hq1.
    destruct (subscribe listener s) as [s1 r] eqn:E. cbn [fst] in Hq1.
    destruct (IH r s1) as (s' & v & He & Hq).
    exists s', v. split; [|exact (quiet_trans _ _ _ Hq1 Hq)].
    intros disp. cbn [exec]. rewrite E. apply He.
  - pose proof (quiet_unsubscribe handle s) as Hq1.
    destruct (unsubscribe handle s) as [s1 r] eqn:E. cbn [fst] in Hq1.
    destruct (IH r s1) as (s' & v & He & Hq).
    exists s', v. split; [|exact (quiet_trans _ _ _ Hq1 Hq)].
    intros disp. cbn [exec]. rewrite E. apply He.
  - destruct (IH (client_vars s) s) as (s' & v & He & Hq).
    exists s', v. split; [|exact Hq]. intros disp. cbn [exec]. apply He.
  - destruct (IH (set_client_vars vars s)) as (s' & v & He & Hq).
    exists s', v. split; [intros disp; cbn [exec]; apply He|].
    apply (quiet_trans s (set_client_vars vars s) s'); [repeat split|exact Hq].
  - destruct (IH (read_this this s) s) as (s' & v & He & Hq).
    exists s', v. split; [|exact Hq]. intros disp. cbn [exec]. apply He.
Qed.

(** The loop over a run of calm listeners: it calls each of them, in
    order, and goes on with the listener after them; the store it has then
    is the one that calling them one after the other gives. *)
Lemma notify_calm_prefix (d L : nat) (pre : list value) :
  forall i s rest,
    frozen L s ->
    drop i (array s L) = pre ++ rest ->
    Forall calm_listener pre ->
    exists s1,
      (forall fuel,
         notify (length pre + fuel) d L i s = notify fuel d L (i + length pre) s1)
      /\ (forall fuel, call_each (length pre + fuel) d L pre s = Some (s1, Normal tt))
      /\ currentState s1 = currentState s
      /\ currentReducer s1 = currentReducer s
      /\ isDispatching s1 = isDispatching s
      /\ currentListeners s1 = currentListeners s
      /\ notified s1 = notified s ++ map (fun l => (d, l)) pre
      /\ frozen L s1 /\ array s1 L = array s L.
Proof.
  induction pre as [|l pre IH]; intros i s rest Hf Hdrop Hall.
  - exists s. cbn [length Nat.add map]. rewrite Nat.add_0_r, app_nil_r.
    split; [reflexivity|]. split; [intros fuel; destruct fuel; reflexivity|].
    repeat split; try reflexivity; apply Hf.
  - apply Forall_cons in Hall as [(f & -> & Hcalm) Hall].
    assert (Hi : array s L !! i = Some (VFun f)).
    { rewrite <- (Nat.add_0_r i), <- lookup_drop, Hdrop. reflexivity. }
    assert (Hdrop' : drop (S i) (array s L) = pre ++ rest).
    { pose proof (drop_S _ _ _ Hi) as H. rewrite Hdrop in H. simpl in H.
      inversion H. reflexivity. }
    set (s0 := record_call d (VFun f) s).
    destruct (exec_calm_quiet (Some L) (body f []) s0 Hcalm)
      as (s0' & v & He & Hq1 & Hq2 & Hq3 & Hq4 & Hq5).
    assert (Hf0 : frozen L s0) by exact Hf.
    destruct (keeps_array_calm L (S d) _ _ _ Hcalm s0 s0' (Normal v)
                (He (fun _ _ => None)) Hf0) as [Hf' Ha'].
    change (array s0 L) with (array s L) in Ha'.
    destruct (IH (S i) s0' rest Hf') as (s1 & Heq & Hce & H1 & H2 & H3 & H4 & H5 & H6 & H7).
    { rewrite Ha'. exact Hdrop'. }
    { exact Hall. }
    exists s1. split; [|split].
    + intros fuel. cbn [length Nat.add]. rewrite notify_S, Hi. cbn [call].
      fold s0. rewrite He, Heq. f_equal. lia.
    + intros fuel. cbn [length Nat.add call_each call]. fold s0. rewrite He. apply Hce.
    + subst s0. cbn [record_call currentState currentReducer isDispatching currentListeners
                       notified] in Hq1, Hq2, Hq3, Hq4, Hq5.
      split; [congruence|]. split; [congruence|]. split; [congruence|].
      split; [congruence|]. split; [|split; [exact H6|congruence]].
      rewrite H5, Hq5. cbn [map]. rewrite <- app_assoc. reflexivity.
Qed.


Lemma notify_end (fuel d L i : nat) (s : store) :
  array s L !! i = None -> notify fuel d L i s = Some (s, Normal tt).
Proof. intros H. destruct fuel; cbn [notify]; rewrite H; reflexivity. Qed.

(** The store once the reducer has returned [v]: the state is assigned, the
    guard reset, and [currentListeners] holds the array [nextListeners]
    holds. *)
Definition committed (v : value) (s : store) : store :=
  set_currentListeners (nextListeners s) (set_isDispatching false (set_currentState v s)).

(** A [dispatch] on a store whose reducer returns [v] and whose first
    listeners [pre] are calm: the state is committed, the listeners of [pre]
    are called, and the loop goes on with the listener after them. *)
Lemma dispatch_over_calm (d : nat) (action : value) (s : store) (g : nat) (v : value)
    (pre rest : list value) :
  (nextListeners s < length (arrays s))%nat ->
  isDispatching s = false -> valid_action action ->
  currentReducer s = VFun g -> body g [currentState s; action] = Return v ->
  array s (nextListeners s) = pre ++ rest ->
  Forall calm_listener pre ->
  exists s1,
    (forall fuel,
       dispatch (S (length pre + fuel)) d action s
       = match notify fuel d (nextListeners s) (length pre) s1 with
         | None => None
         | Some (s', Raised e) => Some (s', Raised e)
         | Some (s', Normal _) => Some (s', Normal action)
         end)
    /\ (forall fuel,
          call_each (length pre + fuel) d (nextListeners s) pre (committed v s)
          = Some (s1, Normal tt))
    /\ currentState s1 = v
    /\ currentReducer s1 = VFun g
    /\ isDispatching s1 = false
    /\ currentListeners s1 = nextListeners s
    /\ notified s1 = notified s ++ map (fun l => (d, l)) pre
    /\ frozen (nextListeners s) s1
    /\ array s1 (nextListeners s) = pre ++ rest.
Proof.
  intros Hlt Hs Hv Hg Hb Harr Hall.
  assert (Hf : frozen (nextListeners s) (committed v s))
    by (split; [exact Hlt|right; reflexivity]).
  destruct (notify_calm_prefix d (nextListeners s) pre 0 (committed v s) rest Hf)
    as (s1 & Heq & Hce & H1 & H2 & H3 & H4 & H5 & H6 & H7).
  { rewrite drop_0. exact Harr. }
  { exact Hall. }
  exists s1. split; [|split; [exact Hce|]].
  - intros fuel.
    rewrite (dispatch_idle (length pre + fuel) d action s Hv Hs). rewrite Hg. cbn [call].
    cbn [currentState set_isDispatching]. rewrite Hb. cbn [exec].
    change (nextListeners (set_isDispatching true s)) with (nextListeners s).
    change (set_currentListeners (nextListeners s)
              (set_isDispatching false (set_currentState v (set_isDispatching true s))))
      with (committed v s).
    rewrite Heq. reflexivity.
  - cbn in H1, H2, H3, H4, H5.
    split; [exact H1|]. split; [congruence|]. split; [exact H3|]. split; [exact H4|].
    split; [exact H5|]. split; [exact H6|]. rewrite H7. exact Harr.
Qed.

Lemma dispatch_calm_pass (fuel d : nat) (action : value) (s : store) (g : nat) (v : value) :
  (nextListeners s < length (arrays s))%nat ->
  isDispatching s = false -> valid_action action ->
  currentReducer s = VFun g -> body g [currentState s; action] = Return v ->
  Forall calm_listener (array s (nextListeners s)) ->
  (length (array s (nextListeners s)) <= fuel)%nat ->
  exists s',
    dispatch (S fuel) d action s = Some (s', Normal action)
    /\ call_each fuel d (nextListeners s) (array s (nextListeners s)) (committed v s)
       = Some (s', Normal tt)
    /\ currentState s' = v
    /\ currentReducer s' = VFun g
    /\ isDispatching s' = false
    /\ notified s' = notified s ++ map (fun l => (d, l)) (array s (nextListeners s)).
Proof.
  intros Hlt Hs Hv Hg Hb Hall Hfuel.
  set (arr := array s (nextListeners s)) in *.
  destruct (dispatch_over_calm d action s g v arr [] Hlt Hs Hv Hg Hb)
    as (s1 & Heq & Hce & H1 & H2 & H3 & H4 & H5 & H6 & H7).
  { rewrite app_nil_r. reflexivity. }
  { exact Hall. }
  specialize (Heq (fuel - length arr)%nat). specialize (Hce (fuel - length arr)%nat).
  replace (length arr + (fuel - length arr))%nat with fuel in Heq, Hce by lia.
  rewrite notify_end in Heq.
  2:{ rewrite H7, app_nil_r. apply lookup_ge_None. lia. }
  exists s1. repeat split; assumption.
Qed.

(** X10 — [dispatch] on an idle store, for a valid action and a reducer that
    returns [v]: the state becomes [v], every listener subscribed at that
    time is called once, in the order of subscription, and the action is
    returned; [getState] then gives [v].  The store left is the one obtained
    from the store with the state committed by calling these listeners one
    after the other.  (The listeners are taken to be calm: they may read
    the state, subscribe and unsubscribe, and they do not write to the array
    they are called on.) *)
Theorem dispatch_commits_and_notifies
    (fuel d : nat) (action : value) (s : store) (g : nat) (v : value) :
  (nextListeners s < length (arrays s))%nat ->
  isDispatching s = false -> valid_action action ->
  currentReducer s = VFun g -> body g [currentState s; action] = Return v ->
  Forall calm_listener (array s (nextListeners s)) ->
  (length (array s (nextListeners s)) <= fuel)%nat ->
  exists s',
    dispatch (S fuel) d action s = Some (s', Normal action)
    /\ call_each fuel d (nextListeners s) (array s (nextListeners s)) (committed v s)
       = Some (s', Normal tt)
    /\ currentState s' = v
    /\ getState s' = (s', Normal v)
    /\ currentReducer s' = VFun g
    /\ notified s' = notified s ++ map (fun l => (d, l)) (array s (nextListeners s)).
Proof.
  intros Hlt Hs Hv Hg Hb Hall Hfuel.
  destruct (dispatch_calm_pass fuel d action s g v Hlt Hs Hv Hg Hb Hall Hfuel)
    as (s' & Hd & Hce & H1 & H2 & H3 & H4).
  exists s'. split; [exact Hd|]. split; [exact Hce|]. split; [exact H1|].
  split; [|split; assumption].
  unfold getState. rewrite H3, H1. reflexivity.
Qed.

(** X11 — A listener that throws ends the pass: the listeners before it
    have been called (they are taken to be calm), those after it are not,
    and [dispatch] throws what the listener threw.  The store left is the
    one obtained from the store with the state committed by calling the
    listeners before it one after the other: the state is the new one all
    the same, and the store is not left with its guard set. *)
Theorem listener_error_aborts_pass
    (fuel d : nat) (action : value) (s : store) (g : nat) (v : value)
    (pre post : list value) (f : nat) (e : exn) :
  (nextListeners s < length (arrays s))%nat ->
  isDispatching s = false -> valid_action action ->
  currentReducer s = VFun g -> body g [currentState s; action] = Return v ->
  array s (nextListeners s) = pre ++ VFun f :: post ->
  Forall calm_listener pre ->
  body f [] = Throw e ->
  (length pre < fuel)%nat ->
  exists s1,
    call_each fuel d (nextListeners s) pre (committed v s) = Some (s1, Normal tt)
    /\ dispatch (S fuel) d action s = Some (record_call d (VFun f) s1, Raised e)
    /\ currentState s1 = v
    /\ isDispatching s1 = false
    /\ getState (record_call d (VFun f) s1) = (record_call d (VFun f) s1, Normal v)
    /\ notified (record_call d (VFun f) s1)
       = notified s ++ map (fun l => (d, l)) (pre ++ [VFun f]).
Proof.
  intros Hlt Hs Hv Hg Hb Harr Hall Hf Hfuel.
  destruct (dispatch_over_calm d action s g v pre (VFun f :: post) Hlt Hs Hv Hg Hb Harr Hall)
    as (s1 & Heq & Hce & H1 & H2 & H3 & H4 & H5 & H6 & H7).
  specialize (Heq (fuel - length pre)%nat). specialize (Hce (fuel - length pre)%nat).
  replace (length pre + (fuel - length pre))%nat with fuel in Heq, Hce by lia.
  destruct (fuel - length pre)%nat as [|fuel1] eqn:Ef; [lia|].
  rewrite notify_S in Heq. rewrite H7, list_lookup_middle in Heq by reflexivity.
  cbn [call] in Heq. rewrite Hf in Heq. cbn [exec] in Heq.
  exists s1. split; [exact Hce|]. split; [exact Heq|].
  split; [exact H1|]. split; [exact H3|]. split.
  - unfold getState. cbn. rewrite H3, H1. reflexivity.
  - cbn. rewrite H5, map_app, app_assoc. reflexivity.
Qed.

(** X12 — Whenever [dispatch] returns, what it returns is the action it
    was given; the action was a plain object with a defined [type], the
    call was made outside any reducer, and the store is left with its guard
    unset, whatever the reducer and the listeners did. *)
Theorem dispatch_returns_its_action
    (fuel d : nat) (action : value) (s s' : store) (r : value) :
  dispatch fuel d action s = Some (s', Normal r) ->
  r = action
  /\ valid_action action
  /\ isDispatching s = false
  /\ isDispatching s' = false.
Proof.
  intros H. destruct (dispatch_cases d action s) as [[Hv Hs]|[e He]].
  2:{ rewrite He in H. discriminate. }
  assert (Hr : r = action).
  { destruct fuel as [|fuel]; [rewrite (dispatch_no_fuel d action s Hv Hs) in H; discriminate|].
    rewrite (dispatch_idle fuel d action s Hv Hs) in H.
    destruct (call _ _ _ _) as [[s1 [v|e]]|]; try discriminate.
    destruct (notify _ _ _ _ _) as [[s2 [[]|e]]|]; try discriminate.
    inversion H. reflexivity. }
  split; [exact Hr|]. split; [exact Hv|]. split; [exact Hs|].
  eapply idle_dispatch; [exact H|exact Hs].
Qed.

(** X13 — [createStore(reducer, preloadedState)], for a preloaded state
    that is not callable and a reducer that computes its result without
    calling the store: the store is created with the state the reducer
    returns for the preloaded state and the init action, no listener, and
    its guard unset. *)
Theorem createStore_preloaded_state (fuel l f : nat) (vars preloadedState v : value) :
  is_function preloadedState = false ->
  body f [preloadedState; init_action l] = Return v ->
  exists s,
    createStore (S fuel) l vars (VFun f) preloadedState VUndefined = Some (Normal (Handle s))
    /\ getState s = (s, Normal v)
    /\ currentReducer s = VFun f
    /\ array s (nextListeners s) = []
    /\ subscriptions s = [].
Proof.
  intros Hp Hb.
  assert (Hd : dispatch (S fuel) 0 (init_action l)
                 (Store_ (VFun f) preloadedState [[]] 0 0 false [] (S l) [] vars)
               = Some (Store_ (VFun f) v [[]] 0 0 false [] (S l) [] vars,
                       Normal (init_action l))).
  { rewrite (dispatch_idle fuel 0 (init_action l)
               (Store_ (VFun f) preloadedState [[]] 0 0 false [] (S l) [] vars)
               (valid_init_action l) eq_refl).
    cbn [call currentReducer currentState set_isDispatching]. rewrite Hb. cbn [exec].
    destruct fuel; reflexivity. }
  exists (Store_ (VFun f) v [[]] 0 0 false [] (S l) [] vars).
  split; [|repeat split].
  unfold createStore. rewrite !typeof_undefined, !typeof_function, Hp.
  cbn [is_undefined is_function andb negb]. rewrite Hd. reflexivity.
Qed.

(** ** replaceReducer *)

(** X14 — [replaceReducer] on an idle store installs the next reducer and
    dispatches the init action: the state becomes what the next reducer
    returns for the current state and that action, and the listeners are
    notified, each once and in order: the store left is the one obtained,
    once the reducer is installed and the state committed, by calling them
    one after the other.  (The listeners are taken to be calm: they neither
    throw nor dispatch, nor write to the array they are called on.) *)
Theorem replaceReducer_reinitialises (fuel : nat) (s : store) (g : nat) (v : value) :
  (nextListeners s < length (arrays s))%nat ->
  isDispatching s = false ->
  body g [currentState s; init_action (next_loc s)] = Return v ->
  Forall calm_listener (array s (nextListeners s)) ->
  (length (array s (nextListeners s)) <= fuel)%nat ->
  exists s',
    replaceReducer (S fuel) (VFun g) s = Some (s', Normal VUndefined)
    /\ call_each fuel 0 (nextListeners s) (array s (nextListeners s))
         (committed v (set_next_loc (S (next_loc s)) (set_currentReducer (VFun g) s)))
       = Some (s', Normal tt)
    /\ currentReducer s' = VFun g
    /\ currentState s' = v
    /\ notified s' = notified s ++ map (fun l => (0%nat, l)) (array s (nextListeners s)).
Proof.
  intros Hlt Hs Hb Hall Hfuel.
  unfold replaceReducer, replaceReducer_with. cbn [typeof String.eqb negb].
  set (s0 := set_next_loc _ (set_currentReducer (VFun g) s)).
  destruct (dispatch_calm_pass fuel 0 (init_action (next_loc s)) s0 g v)
    as (s' & Hd & Hce & H1 & H2 & H3 & H4); try assumption; try reflexivity.
  { apply valid_init_action. }
  change (next_loc (set_currentReducer (VFun g) s)) with (next_loc s).
  rewrite Hd. exists s'. repeat split; assumption.
Qed.

(** X15 — Called while a reducer is executing, [replaceReducer] throws
    "Reducers may not dispatch actions.", and yet the reducer has been
    replaced: the assignment comes before the [dispatch] that fails. *)
Theorem replaceReducer_inside_reducer
    (fuel d : nat) (nextReducer : value) (this : option nat) (k : result value -> prog)
    (s : store) :
  isDispatching s = true -> is_function nextReducer = true ->
  replaceReducer_with (dispatch fuel d) nextReducer s
  = Some (set_next_loc (S (next_loc s)) (set_currentReducer nextReducer s),
          Raised err_dispatch)
  /\ exec (dispatch fuel d) this (ReplaceReducer nextReducer k) s
     = exec (dispatch fuel d) this (k (Raised err_dispatch))
         (set_next_loc (S (next_loc s)) (set_currentReducer nextReducer s)).
Proof.
  intros Hs Hf.
  assert (H : replaceReducer_with (dispatch fuel d) nextReducer s
              = Some (set_next_loc (S (next_loc s)) (set_currentReducer nextReducer s),
                      Raised err_dispatch)).
  { unfold replaceReducer_with. rewrite typeof_function, Hf. cbn [negb].
    rewrite dispatch_reentrant; [reflexivity|apply valid_init_action|exact Hs]. }
  split; [exact H|]. cbn [exec]. rewrite H. reflexivity.
Qed.


(** ** Listener arrays hold functions *)

Definition listeners_callable (s : store) : Prop :=
  (nextListeners s < length (arrays s))%nat
  /\ Forall (fun l => is_function l = true) (array s (nextListeners s)).

Lemma array_write_next (s : store) (l : list value) :
  (nextListeners s < length (arrays s))%nat ->
  array (set_arrays (<[nextListeners s := l]> (arrays s)) s) (nextListeners s) = l.
Proof.
  intros H. unfold array. cbn. rewrite list_lookup_insert_eq by exact H. reflexivity.
Qed.

Lemma callable_subscribe (listener : value) (s : store) :
  listeners_callable s -> listeners_callable (subscribe listener s).1.
Proof.
  intros [Hlt Hall]. unfold subscribe. rewrite typeof_function.
  destruct (is_function listener) eqn:Hl; cbn [negb]; [|split; assumption].
  destruct (isDispatching s); [split; assumption|].
  cbn [fst]. set (s1 := set_subscriptions _ s).
  destruct (ensure_next s1 Hlt) as (Hlt2 & Harr2 & _).
  change (array s1 (nextListeners s1)) with (array s (nextListeners s)) in Harr2.
  set (s2 := ensureCanMutateNextListeners s1) in *.
  unfold listeners_callable, push. cbn [arrays nextListeners set_arrays].
  rewrite length_insert. split; [exact Hlt2|].
  rewrite array_write_next by exact Hlt2. rewrite Harr2.
  apply Forall_app. split; [exact Hall|]. repeat constructor. exact Hl.
Qed.

Lemma callable_unsubscribe (handle : nat) (s : store) :
  listeners_callable s -> listeners_callable (unsubscribe handle s).1.
Proof.
  intros [Hlt Hall]. unfold unsubscribe.
  destruct (subscriptions s !! handle) as [[listener b]|]; [|split; assumption].
  destruct b; cbn [negb]; [|split; assumption].
  destruct (isDispatching s); [split; assumption|].
  cbn [fst]. set (s1 := set_subscriptions _ s).
  destruct (ensure_next s1 Hlt) as (Hlt2 & Harr2 & _).
  change (array s1 (nextListeners s1)) with (array s (nextListeners s)) in Harr2.
  set (s2 := ensureCanMutateNextListeners s1) in *.
  unfold listeners_callable. cbn [arrays nextListeners set_arrays].
  rewrite length_insert. split; [exact Hlt2|].
  rewrite array_write_next by exact Hlt2. rewrite Harr2.
  unfold splice1. apply Forall_delete. exact Hall.
Qed.

Lemma callable_dispatch (fuel d : nat) (a : value) (s s' : store) (r : result value) :
  (forall f, no_write (body f [])) ->
  dispatch fuel d a s = Some (s', r) -> listeners_callable s -> listeners_callable s'.
Proof.
  intros Hnw.
  apply (preserved_dispatch
           (fun _ s s' => listeners_callable s -> listeners_callable s') false);
    [..|discriminate|intros _; exact Hnw].
  - intros d0 s0 H. exact H.
  - intros d0 s1 s2 s3 H12 H23 H. exact (H23 (H12 H)).
  - intros d0 s0 s0' H. exact H.
  - intros d0 listener s0. apply callable_subscribe.
  - intros d0 handle s0. apply callable_unsubscribe.
  - intros d0 v s0 H. exact H.
  - intros d0 n s0 H. exact H.
  - intros d0 v s0 H. exact H.
  - intros d0 v s0 H. exact H.
  - intros d0 s0 H. exact H.
  - intros d0 listener s0 H. exact H.
Qed.


(** ** The state is the fold of the reducer over the actions *)

(** The actions dispatched one after the other, from outside. *)
Fixpoint dispatch_all (fuel : nat) (actions : list value) (s : store) : option store :=
  match actions with
  | [] => Some s
  | action :: rest =>
      match dispatch fuel 0 action s with
      | Some (s', Normal _) => dispatch_all fuel rest s'
      | _ => None
      end
  end.

(** X17 — With a reducer that computes [R state action] without calling
    the store, and listeners that are calm (they neither throw nor
    dispatch, nor write to the array they are called on), dispatching the
    actions
    [a1, ..., an] one after the other leaves the state
    [R (... (R (R state a1) a2) ...) an]: each [dispatch] completes, and
    [getState] gives the fold of the reducer over the actions. *)
Theorem state_is_fold_of_reducer
    (R : value -> value -> value) (g : nat) (actions : list value) (s : store) :
  (forall state action, body g [state; action] = Return (R state action)) ->
  (forall f, calm (body f [])) ->
  listeners_callable s -> isDispatching s = false -> currentReducer s = VFun g ->
  Forall valid_action actions ->
  exists fuel s',
    (forall fuel', (fuel <= fuel')%nat -> dispatch_all fuel' actions s = Some s')
    /\ currentState s' = fold_left R actions (currentState s)
    /\ getState s' = (s', Normal (fold_left R actions (currentState s))).
Proof.
  intros HR Hcalm Hc Hs Hg Hv. revert s Hc Hs Hg.
  induction Hv as [|action rest Ha _ IH]; intros s Hc Hs Hg.
  - exists 0%nat, s. split; [reflexivity|]. split; [reflexivity|].
    unfold getState. rewrite Hs. reflexivity.
  - assert (Hall : Forall calm_listener (array s (nextListeners s))).
    { eapply Forall_impl; [exact (proj2 Hc)|]. intros l Hl. simpl in Hl.
      destruct l; try discriminate. eexists. split; [reflexivity|apply Hcalm]. }
    destruct (dispatch_calm_pass (length (array s (nextListeners s))) 0 action s g
                (R (currentState s) action) (proj1 Hc) Hs Ha Hg (HR _ _) Hall)
      as (s1 & Hd & _ & H1 & H2 & H3 & _); [lia|].
    assert (Hnw : forall f, no_write (body f [])) by (intros f; apply calm_no_write, Hcalm).
    destruct (IH s1 (callable_dispatch _ _ _ _ _ _ Hnw Hd Hc) H3 H2)
      as (fuel1 & s' & Hrun & Hst & Hget).
    exists (Nat.max (S (length (array s (nextListeners s)))) fuel1), s'.
    split; [|rewrite H1 in Hst, Hget; split; assumption].
    intros fuel' Hle. cbn [dispatch_all].
    assert (Hle' : (S (length (array s (nextListeners s))) <= fuel')%nat) by lia.
    rewrite (dispatch_more_fuel _ fuel' 0 action s _ Hle' Hd).
    apply Hrun. lia.
Qed.

(** ** Cancelling a subscription *)

Lemma cancelled_stays (handle : nat) (listener : value) (fuel d : nat) (a : value)
    (s s' : store) (r : result value) :
  dispatch fuel d a s = Some (s', r) ->
  subscriptions s !! handle = Some (listener, false) ->
  subscriptions s' !! handle = Some (listener, false).
Proof.
  apply (preserved_dispatch
           (fun _ s s' => subscriptions s !! handle = Some (listener, false) ->
                          subscriptions s' !! handle = Some (listener, false)) true);
    [..|intros _ d0 L content s0 H; exact H|discriminate].
  - intros d0 s0 H. exact H.
  - intros d0 s1 s2 s3 H12 H23 H. exact (H23 (H12 H)).
  - intros d0 s0 s0' H. exact H.
  - intros d0 l s0 H. unfold subscribe. destruct (negb _); [exact H|].
    destruct (isDispatching s0); [exact H|]. cbn [fst].
    unfold push, ensureCanMutateNextListeners. cbn.
    destruct (_ =? _)%nat; cbn; apply lookup_app_l_Some; exact H.
  - intros d0 h s0 H. unfold unsubscribe.
    destruct (subscriptions s0 !! h) as [[l b]|] eqn:E; [|exact H].
    destruct b; cbn [negb]; [|exact H].
    destruct (isDispatching s0); [exact H|]. cbn [fst].
    assert (Hne : h <> handle) by (intros ->; congruence).
    unfold ensureCanMutateNextListeners. cbn.
    destruct (_ =? _)%nat; cbn; rewrite list_lookup_insert_ne by exact Hne; exact H.
  - intros d0 v s0 H. exact H.
  - intros d0 n s0 H. exact H.
  - intros d0 v s0 H. exact H.
  - intros d0 v s0 H. exact H.
  - intros d0 s0 H. exact H.
  - intros d0 l s0 H. exact H.
Qed.

(** X18 — The function [unsubscribe] does its work once: on an idle store
    it cancels the subscription and returns; a second call changes nothing
    and returns, at once or after any number of dispatches, and also while
    a reducer is executing, where a first call would throw. *)
Theorem unsubscribe_is_idempotent (handle : nat) (listener : value) (s : store) :
  subscriptions s !! handle = Some (listener, true) -> isDispatching s = false ->
  exists s1,
    unsubscribe handle s = (s1, Normal VUndefined)
    /\ subscriptions s1 !! handle = Some (listener, false)
    /\ unsubscribe handle s1 = (s1, Normal VUndefined)
    /\ (forall fuel d action s2 r,
          dispatch fuel d action s1 = Some (s2, r) ->
          unsubscribe handle s2 = (s2, Normal VUndefined))
    /\ (forall s2,
          subscriptions s2 !! handle = Some (listener, false) -> isDispatching s2 = true ->
          unsubscribe handle s2 = (s2, Normal VUndefined)).
Proof.
  intros Hh Hs.
  assert (Hdone : forall s2, subscriptions s2 !! handle = Some (listener, false) ->
                             unsubscribe handle s2 = (s2, Normal VUndefined)).
  { intros s2 H2. unfold unsubscribe. rewrite H2. reflexivity. }
  assert (Hsub : subscriptions (unsubscribe handle s).1 !! handle = Some (listener, false)).
  { unfold unsubscribe. rewrite Hh, Hs. cbn [negb fst].
    unfold ensureCanMutateNextListeners. cbn.
    destruct (_ =? _)%nat; cbn; apply list_lookup_insert_eq;
      eapply lookup_lt_Some; exact Hh. }
  assert (Hret : (unsubscribe handle s).2 = Normal VUndefined).
  { unfold unsubscribe. rewrite Hh, Hs. reflexivity. }
  destruct (unsubscribe handle s) as [s1 r1]. cbn [fst snd] in *. subst r1.
  exists s1. split; [reflexivity|]. split; [exact Hsub|]. split; [apply Hdone; exact Hsub|].
  split.
  - intros fuel d action s2 r Hd. apply Hdone.
    eapply cancelled_stays; [exact Hd|exact Hsub].
  - intros s2 H2 _. apply Hdone. exact H2.
Qed.


(** ** Subscribing, then cancelling *)

Lemma indexOf_from_first (x x' : value) (pre post : list value) (k : Z) :
  (forall y, y ∈ pre -> strict_eq y x = false) -> strict_eq x' x = true ->
  indexOf_from x (pre ++ x' :: post) k = k + Z.of_nat (length pre).
Proof.
  revert k. induction pre as [|y pre IH]; intros k Hpre Hx; simpl.
  - rewrite Hx. lia.
  - rewrite (Hpre y) by left. rewrite IH; [lia| |exact Hx].
    intros z Hz. apply Hpre. right. exact Hz.
Qed.

Lemma strict_eq_other (y : value) (f : nat) : y <> VFun f -> strict_eq y (VFun f) = false.
Proof.
  intros H. destruct (strict_eq y (VFun f)) eqn:E; [|reflexivity].
  apply strict_eq_VFun in E. contradiction.
Qed.

Lemma ensure_noop (s : store) :
  nextListeners s <> currentListeners s -> ensureCanMutateNextListeners s = s.
Proof.
  intros H. unfold ensureCanMutateNextListeners.
  apply Nat.eqb_neq in H. rewrite H. reflexivity.
Qed.

Lemma ensure_separates (s : store) :
  (nextListeners s < length (arrays s))%nat ->
  nextListeners (ensureCanMutateNextListeners s)
  <> currentListeners (ensureCanMutateNextListeners s).
Proof.
  intros Hlt. unfold ensureCanMutateNextListeners.
  destruct (Nat.eqb_spec (nextListeners s) (currentListeners s)) as [Heq|Hne].
  - cbn. lia.
  - exact Hne.
Qed.

(** X19 — Subscribing a function and cancelling that subscription at once
    gives back the list of listeners there was, when the function was not
    in it.  When it was, because it had been subscribed before, the
    cancelling removes its oldest occurrence: the function stays subscribed
    once more than it is cancelled, but it has moved to the end of the
    list. *)
Theorem subscribe_then_unsubscribe (f : nat) (s : store) :
  (nextListeners s < length (arrays s))%nat -> isDispatching s = false ->
  exists s1 s2,
    subscribe (VFun f) s = (s1, Normal (length (subscriptions s)))
    /\ unsubscribe (length (subscriptions s)) s1 = (s2, Normal VUndefined)
    /\ array s1 (nextListeners s1) = array s (nextListeners s) ++ [VFun f]
    /\ (VFun f ∉ array s (nextListeners s) ->
        array s2 (nextListeners s2) = array s (nextListeners s))
    /\ (forall pre post,
          array s (nextListeners s) = pre ++ VFun f :: post -> VFun f ∉ pre ->
          array s2 (nextListeners s2) = pre ++ post ++ [VFun f]).
Proof.
  intros Hlt Hs.
  set (arr := array s (nextListeners s)).
  set (s0 := set_subscriptions (subscriptions s ++ [(VFun f, true)]) s).
  destruct (ensure_next s0 Hlt) as (Hlt1 & Harr1 & Hsub1).
  pose proof (ensure_separates s0 Hlt) as Hsep.
  change (array s0 (nextListeners s0)) with arr in Harr1.
  set (e1 := ensureCanMutateNextListeners s0) in *.
  set (s1 := push (VFun f) e1).
  assert (Hsub : subscribe (VFun f) s = (s1, Normal (length (subscriptions s)))).
  { unfold subscribe. cbn [typeof String.eqb negb]. rewrite Hs. reflexivity. }
  assert (Harr : array s1 (nextListeners s1) = arr ++ [VFun f]).
  { subst s1. unfold push. cbn [nextListeners set_arrays].
    rewrite array_write_next by exact Hlt1. rewrite Harr1. reflexivity. }
  assert (Hh : subscriptions s1 !! length (subscriptions s) = Some (VFun f, true)).
  { subst s1. unfold push. cbn [subscriptions set_arrays]. rewrite Hsub1. subst s0.
    cbn [subscriptions set_subscriptions]. apply list_lookup_middle. reflexivity. }
  assert (Hs1 : isDispatching s1 = false).
  { subst s1 e1. unfold push, ensureCanMutateNextListeners. cbn.
    destruct (_ =? _)%nat; exact Hs. }
  set (s1' := set_subscriptions
                (<[length (subscriptions s) := (VFun f, false)]> (subscriptions s1)) s1).
  assert (Hnoop : ensureCanMutateNextListeners s1' = s1').
  { apply ensure_noop. exact Hsep. }
  set (s2 := set_arrays
               (<[nextListeners s1' :=
                    splice1 (indexOf (array s1' (nextListeners s1')) (VFun f))
                      (array s1' (nextListeners s1'))]> (arrays s1')) s1').
  assert (Hun : unsubscribe (length (subscriptions s)) s1 = (s2, Normal VUndefined)).
  { unfold unsubscribe. rewrite Hh, Hs1. cbn [negb]. fold s1'. rewrite Hnoop. reflexivity. }
  assert (Harr2 : array s2 (nextListeners s2)
                  = splice1 (indexOf (arr ++ [VFun f]) (VFun f)) (arr ++ [VFun f])).
  { subst s2. cbn [nextListeners set_arrays].
    rewrite array_write_next.
    - change (array s1' (nextListeners s1')) with (array s1 (nextListeners s1)).
      rewrite Harr. reflexivity.
    - subst s1' s1. unfold push. cbn. rewrite length_insert. exact Hlt1. }
  exists s1, s2. split; [exact Hsub|]. split; [exact Hun|]. split; [exact Harr|].
  assert (Hself : strict_eq (VFun f) (VFun f) = true) by (simpl; apply Nat.eqb_refl).
  split.
  - intros Hnin. rewrite Harr2. unfold indexOf.
    rewrite indexOf_from_first; [|intros y Hy; apply strict_eq_other; congruence|exact Hself].
    rewrite Z.add_0_l, splice1_found by (rewrite length_app; simpl; lia).
    rewrite delete_middle, app_nil_r. reflexivity.
  - intros pre post Hsplit Hnin. rewrite Harr2, Hsplit. unfold indexOf.
    rewrite <- app_assoc. cbn [app].
    rewrite indexOf_from_first; [|intros y Hy; apply strict_eq_other; congruence|exact Hself].
    rewrite Z.add_0_l, splice1_found by (rewrite length_app; simpl; lia).
    rewrite delete_middle. reflexivity.
Qed.


(** ** The observable

    [observable()] returns an object whose [subscribe(observer)] checks the
    observer, calls the function [observeState] it has just created, and
    subscribes that function to the store.  [observeState] is a function of
    the store's own making: its identity [f] is a parameter of the model,
    and the table of bodies is taken to hold its body under [f]. *)

(** A body whose value is not used: [p;] *)
Fixpoint discard (p : prog) : prog :=
  match p with
  | Return _ => Return VUndefined
  | Throw e => Throw e
  | GetState k => GetState (fun r => discard (k r))
  | Dispatch action k => Dispatch action (fun r => discard (k r))
  | Subscribe listener k => Subscribe listener (fun r => discard (k r))
  | Unsubscribe handle k => Unsubscribe handle (fun r => discard (k r))
  | ReplaceReducer nextReducer k => ReplaceReducer nextReducer (fun r => discard (k r))
  | ReadVars k => ReadVars (fun vars => discard (k vars))
  | WriteVars vars p => WriteVars vars (discard p)
  | ReadThis k => ReadThis (fun content => discard (k content))
  | WriteThis content p => WriteThis content (discard p)
  end.

(** A body called on an object that is no array of the store, as [next]
    is in [observer.next(...)], on the observer: it finds no array under
    [this], whatever the caller was called on. *)
Fixpoint detach (p : prog) : prog :=
  match p with
  | Return v => Return v
  | Throw e => Throw e
  | GetState k => GetState (fun r => detach (k r))
  | Dispatch action k => Dispatch action (fun r => detach (k r))
  | Subscribe listener k => Subscribe listener (fun r => detach (k r))
  | Unsubscribe handle k => Unsubscribe handle (fun r => detach (k r))
  | ReplaceReducer nextReducer k => ReplaceReducer nextReducer (fun r => detach (k r))
  | ReadVars k => ReadVars (fun vars => detach (k vars))
  | WriteVars vars p => WriteVars vars (detach p)
  | ReadThis k => detach (k None)
  | WriteThis _ p => detach p
  end.

(** [function observeState() { if (observer.next) { observer.next(getState()) } }] *)
Definition observeState (observer : value) : prog :=
  match get_prop inherited observer "next" with
  | Raised e => Throw e
  | Normal next =>
      if truthy next then
        GetState (fun r =>
          match r with
          | Raised e => Throw e
          | Normal state =>
              match next with
              | VFun g => discard (detach (body g [state]))
              | _ => Throw (TypeError "observer.next is not a function")
              end
          end)
      else Return VUndefined
  end.

(** [observable().subscribe(observer)]; the object it returns holds the
    [unsubscribe] of the subscription, known by its handle. *)
Definition observable_subscribe (dispatch : dispatcher) (f : nat) (observer : value)
    (s : store) : option (store * result nat) :=
  if negb (String.eqb (typeof observer) "object")
  then Some (s, Raised (TypeError "Expected the observer to be an object."))
  else
    match exec dispatch None (observeState observer) s with
    | None => None
    | Some (s1, Raised e) => Some (s1, Raised e)
    | Some (s1, Normal _) => Some (subscribe (VFun f) s1)
    end.

Lemma exec_discard (disp : dispatcher) (this : option nat) (p : prog) (s : store) :
  exec disp this (discard p) s
  = match exec disp this p s with
    | Some (s1, Normal _) => Some (s1, Normal VUndefined)
    | other => other
    end.
Proof.
  revert s.
  induction p as [v|e|k IH|action k IH|listener k IH|handle k IH|nextReducer k IH
                  |k IH|vars p IH|k IH|content p IH];
    intros s; cbn [discard exec]; try reflexivity.
  - destruct (getState s) as [s1 r]. apply IH.
  - destruct (disp action s) as [[s1 r]|]; [apply IH|reflexivity].
  - destruct (subscribe listener s) as [s1 r]. apply IH.
  - destruct (unsubscribe handle s) as [s1 r]. apply IH.
  - destruct (replaceReducer_with disp nextReducer s) as [[s1 r]|]; [apply IH|reflexivity].
  - apply IH.
  - apply IH.
  - apply IH.
  - apply IH.
Qed.

Lemma exec_detach (disp : dispatcher) (this : option nat) (p : prog) (s : store) :
  exec disp this (detach p) s = exec disp None p s.
Proof.
  revert s.
  induction p as [v|e|k IH|action k IH|listener k IH|handle k IH|nextReducer k IH
                  |k IH|vars p IH|k IH|content p IH];
    intros s; cbn [detach exec read_this write_this]; try reflexivity.
  - destruct (getState s) as [s1 r]. apply IH.
  - destruct (disp action s) as [[s1 r]|]; [apply IH|reflexivity].
  - destruct (subscribe listener s) as [s1 r]. apply IH.
  - destruct (unsubscribe handle s) as [s1 r]. apply IH.
  - destruct (replaceReducer_with disp nextReducer s) as [[s1 r]|]; [apply IH|reflexivity].
  - apply IH.
  - apply IH.
  - apply IH.
  - apply IH.
Qed.

(** X20 — The observable's [subscribe] refuses an observer that is no
    object with a [TypeError], a function included; [null] passes that
    test, being an object for [typeof], and the call then fails on reading
    its [next].  Either way the store is left as it was, and nothing is
    subscribed. *)
Theorem observer_must_be_an_object (disp : dispatcher) (f : nat) (observer : value)
    (s : store) :
  (typeof observer <> "object" ->
     observable_subscribe disp f observer s
     = Some (s, Raised (TypeError "Expected the observer to be an object.")))
  /\ (exists msg, observable_subscribe disp f VNull s = Some (s, Raised (TypeError msg))).
Proof.
  split; [|eexists; reflexivity].
  intros H. unfold observable_subscribe.
  destruct (String.eqb_spec (typeof observer) "object") as [Heq|_]; [contradiction|].
  reflexivity.
Qed.

(** X21 — An observer whose [next] is a function is told the state: once
    when it subscribes, [next] being called with the current state before
    the subscription is made (so an error of [next] leaves nothing
    subscribed), and then at each notification, where the listener
    subscribed calls [next] with the state of that time.  What [next]
    returns is not used. *)
Theorem observer_is_told_the_state
    (disp : dispatcher) (f g : nat) (observer : value) (s : store) :
  typeof observer = "object" ->
  get_prop inherited observer "next" = Normal (VFun g) ->
  body f [] = observeState observer ->
  isDispatching s = false ->
  observable_subscribe disp f observer s
  = match exec disp None (body g [currentState s]) s with
    | None => None
    | Some (s1, Raised e) => Some (s1, Raised e)
    | Some (s1, Normal _) => Some (subscribe (VFun f) s1)
    end
  /\ (forall this s0, isDispatching s0 = false ->
        call disp (VFun f) this [] s0
        = match exec disp None (body g [currentState s0]) s0 with
          | Some (s1, Normal _) => Some (s1, Normal VUndefined)
          | other => other
          end).
Proof.
  intros Ht Hn Hf Hs.
  assert (Hobs : forall this s0, isDispatching s0 = false ->
             exec disp this (observeState observer) s0
             = match exec disp None (body g [currentState s0]) s0 with
               | Some (s1, Normal _) => Some (s1, Normal VUndefined)
               | other => other
               end).
  { intros this s0 H0. unfold observeState. rewrite Hn. cbn [truthy exec].
    unfold getState. rewrite H0. rewrite exec_discard, exec_detach. reflexivity. }
  split.
  - unfold observable_subscribe. rewrite Ht. cbn [String.eqb Ascii.eqb Bool.eqb negb].
    rewrite (Hobs None s Hs).
    destruct (exec disp None (body g [currentState s]) s) as [[s1 [v|e]]|]; reflexivity.
  - intros this s0 H0. cbn [call]. rewrite Hf. apply Hobs. exact H0.
Qed.


(** ** Listeners and the latest state

    The same [dispatch], keeping the calls it makes to listeners: each with
    the store at the time of the call.  Forgetting the calls gives back
    [dispatch] ([tdispatch_erase]). *)

(** A call of a listener: the store when it is called, and the listener *)
Definition event : Type := store * value.

Definition tdispatcher : Type :=
  value -> store -> option (store * result value * list event).

(** [x], its calls coming after the calls [tr] *)
Definition after {A : Type} (tr : list event) (x : option (store * A * list event))
  : option (store * A * list event) :=
  match x with
  | None => None
  | Some (s, a, tr') => Some (s, a, tr ++ tr')
  end.

Definition erase {A : Type} (x : option (store * A * list event)) : option (store * A) :=
  match x with
  | None => None
  | Some (s, a, _) => Some (s, a)
  end.

Definition treplaceReducer_with (dispatch : tdispatcher) (nextReducer : value) (s : store)
  : option (store * result value * list event) :=
  if negb (String.eqb (typeof nextReducer) "function")
  then Some (s, Raised err_nextReducer, [])
  else
    let s := set_currentReducer nextReducer s in
    let action := init_action (next_loc s) in
    match dispatch action (set_next_loc (S (next_loc s)) s) with
    | None => None
    | Some (s', Normal _, tr) => Some (s', Normal VUndefined, tr)
    | Some (s', Raised e, tr) => Some (s', Raised e, tr)
    end.

Fixpoint texec (dispatch : tdispatcher) (this : option nat) (p : prog) (s : store)
  : option (store * result value * list event) :=
  match p with
  | Return v => Some (s, Normal v, [])
  | Throw e => Some (s, Raised e, [])
  | GetState k =>
      let (s', r) := getState s in texec dispatch this (k r) s'
  | Dispatch action k =>
      match dispatch action s with
      | None => None
      | Some (s', r, tr) => after tr (texec dispatch this (k r) s')
      end
  | Subscribe listener k =>
      let (s', r) := subscribe listener s in texec dispatch this (k r) s'
  | Unsubscribe handle k =>
      let (s', r) := unsubscribe handle s in texec dispatch this (k r) s'
  | ReplaceReducer nextReducer k =>
      match treplaceReducer_with dispatch nextReducer s with
      | None => None
      | Some (s', r, tr) => after tr (texec dispatch this (k r) s')
      end
  | ReadVars k => texec dispatch this (k (client_vars s)) s
  | WriteVars vars p => texec dispatch this p (set_client_vars vars s)
  | ReadThis k => texec dispatch this (k (read_this this s)) s
  | WriteThis content p => texec dispatch this p (write_this this content s)
  end.

Definition tcall (dispatch : tdispatcher) (fn : value) (this : option nat)
    (args : list value) (s : store)
  : option (store * result value * list event) :=
  match fn with
  | VFun f => texec dispatch this (body f args) s
  | _ => Some (s, Raised (TypeError "not a function"), [])
  end.

Fixpoint tdispatch (fuel : nat) (d : nat) (action : value) (s : store) {struct fuel}
  : option (store * result value * list event) :=
  if negb (isPlainObject action) then Some (s, Raised err_plain, [])
  else
    match get_prop inherited action "type" with
    | Raised e => Some (s, Raised e, [])
    | Normal type =>
        if String.eqb (typeof type) "undefined" then Some (s, Raised err_type, [])
        else if isDispatching s then Some (s, Raised err_dispatch, [])
        else
          match fuel with
          | O => None
          | S fuel' =>
              let s := set_isDispatching true s in
              match tcall (tdispatch fuel' (S d)) (currentReducer s) None
                      [currentState s; action] s with
              | None => None
              | Some (s, Raised e, tr) => Some (set_isDispatching false s, Raised e, tr)
              | Some (s, Normal nextState, tr) =>
                  let s := set_currentState nextState s in
                  let s := set_isDispatching false s in
                  let s := set_currentListeners (nextListeners s) s in
                  let listeners := currentListeners s in
                  match tnotify fuel' d listeners 0 s with
                  | None => None
                  | Some (s, Raised e, tr') => Some (s, Raised e, tr ++ tr')
                  | Some (s, Normal _, tr') => Some (s, Normal action, tr ++ tr')
                  end
              end
          end
    end
with tnotify (fuel : nat) (d : nat) (listeners : nat) (i : nat) (s : store) {struct fuel}
  : option (store * result unit * list event) :=
  match array s listeners !! i with
  | None => Some (s, Normal tt, [])
  | Some listener =>
      match fuel with
      | O => None
      | S fuel' =>
          let s0 := record_call d listener s in
          match tcall (tdispatch fuel' (S d)) listener (Some listeners) [] s0 with
          | None => None
          | Some (s1, Raised e, tr) => Some (s1, Raised e, (s0, listener) :: tr)
          | Some (s1, Normal _, tr) =>
              after ((s0, listener) :: tr) (tnotify fuel' d listeners (S i) s1)
          end
      end
  end.

Lemma erase_after {A : Type} (tr : list event) (x : option (store * A * list event)) :
  erase (after tr x) = erase x.
Proof. destruct x as [[[s a] tr']|]; reflexivity. Qed.

Lemma texec_erase (td : tdispatcher) (disp : dispatcher) :
  (forall a s, erase (td a s) = disp a s) ->
  forall this p s, erase (texec td this p s) = exec disp this p s.
Proof.
  intros Hd this.
  induction p as [v|e|k IH|action k IH|listener k IH|handle k IH|nextReducer k IH
                  |k IH|vars p IH|k IH|content p IH];
    intros s; cbn [texec exec]; try reflexivity.
  - destruct (getState s) as [s1 r]. apply IH.
  - rewrite <- Hd. destruct (td action s) as [[[s1 r] tr]|]; [|reflexivity].
    cbn [erase]. rewrite erase_after. apply IH.
  - destruct (subscribe listener s) as [s1 r]. apply IH.
  - destruct (unsubscribe handle s) as [s1 r]. apply IH.
  - assert (Hr : erase (treplaceReducer_with td nextReducer s)
                 = replaceReducer_with disp nextReducer s).
    { unfold treplaceReducer_with, replaceReducer_with.
      destruct (negb _); [reflexivity|]. rewrite <- Hd.
      destruct (td _ _) as [[[s1 [v|e]] tr]|]; reflexivity. }
    rewrite <- Hr. destruct (treplaceReducer_with td nextReducer s) as [[[s1 r] tr]|];
      [|reflexivity].
    cbn [erase]. rewrite erase_after. apply IH.
  - apply IH.
  - apply IH.
  - apply IH.
  - apply IH.
Qed.

Lemma tcall_erase (td : tdispatcher) (disp : dispatcher) :
  (forall a s, erase (td a s) = disp a s) ->
  forall fn this args s, erase (tcall td fn this args s) = call disp fn this args s.
Proof.
  intros Hd fn this args s. destruct fn; cbn [tcall call]; try reflexivity.
  apply texec_erase. exact Hd.
Qed.

Lemma tdispatch_tnotify_erase (fuel : nat) :
  (forall d a s, erase (tdispatch fuel d a s) = dispatch fuel d a s)
  /\ (forall d L i s, erase (tnotify fuel d L i s) = notify fuel d L i s).
Proof.
  induction fuel as [|fuel [IHd IHn]].
  - split.
    + intros d a s. cbn [tdispatch dispatch].
      destruct (negb _); [reflexivity|]. destruct (get_prop _ _ _); [|reflexivity].
      destruct (String.eqb _ _); [reflexivity|]. destruct (isDispatching s); reflexivity.
    + intros d L i s. cbn [tnotify notify]. destruct (array s L !! i); reflexivity.
  - assert (Hn : forall d L i s, erase (tnotify (S fuel) d L i s) = notify (S fuel) d L i s).
    { intros d L i s. cbn [tnotify notify].
      destruct (array s L !! i) as [listener|]; [|reflexivity].
      rewrite <- (tcall_erase (tdispatch fuel (S d)) (dispatch fuel (S d)) (IHd (S d))).
      destruct (tcall _ _ _ _ _) as [[[s1 [v|e]] tr]|]; cbn [erase]; try reflexivity.
      rewrite erase_after. apply IHn. }
    split; [|exact Hn].
    intros d a s. cbn [tdispatch dispatch].
    destruct (negb _); [reflexivity|]. destruct (get_prop _ _ _); [|reflexivity].
    destruct (String.eqb _ _); [reflexivity|]. destruct (isDispatching s); [reflexivity|].
    rewrite <- (tcall_erase (tdispatch fuel (S d)) (dispatch fuel (S d)) (IHd (S d))).
    destruct (tcall _ _ _ _ _) as [[[s1 [v|e]] tr]|]; cbn [erase]; try reflexivity.
    rewrite <- IHn.
    destruct (tnotify _ _ _ _ _) as [[[s2 [[]|e]] tr']|]; reflexivity.
Qed.

(** Forgetting the calls gives [dispatch]. *)
Lemma tdispatch_erase (fuel d : nat) (a : value) (s : store) :
  erase (tdispatch fuel d a s) = dispatch fuel d a s.
Proof. apply (proj1 (tdispatch_tnotify_erase fuel)). Qed.

Lemma tnotify_erase (fuel d L i : nat) (s : store) :
  erase (tnotify fuel d L i s) = notify fuel d L i s.
Proof. apply (proj2 (tdispatch_tnotify_erase fuel)). Qed.


Lemma texec_exec (fuel d : nat) (this : option nat) (p : prog) (s s' : store)
    (r : result value) (tr : list event) :
  texec (tdispatch fuel d) this p s = Some (s', r, tr) ->
  exec (dispatch fuel d) this p s = Some (s', r).
Proof.
  intros H. rewrite <- (texec_erase (tdispatch fuel d) (dispatch fuel d)
                          (tdispatch_erase fuel d)).
  rewrite H. reflexivity.
Qed.

Lemma tdispatch_dispatch (fuel d : nat) (a : value) (s s' : store) (r : result value)
    (tr : list event) :
  tdispatch fuel d a s = Some (s', r, tr) -> dispatch fuel d a s = Some (s', r).
Proof. intros H. rewrite <- tdispatch_erase, H. reflexivity. Qed.

Lemma tnotify_notify (fuel d L i : nat) (s s' : store) (r : result unit)
    (tr : list event) :
  tnotify fuel d L i s = Some (s', r, tr) -> notify fuel d L i s = Some (s', r).
Proof. intros H. rewrite <- tnotify_erase, H. reflexivity. Qed.

(** A body with no [try] around its calls of [dispatch] and
    [replaceReducer]: what they throw, it throws. *)
Inductive uncaught : prog -> Prop :=
| uncaught_Return (v : value) : uncaught (Return v)
| uncaught_Throw (e : exn) : uncaught (Throw e)
| uncaught_GetState (k : result value -> prog) :
    (forall r, uncaught (k r)) -> uncaught (GetState k)
| uncaught_Dispatch (action : value) (k : result value -> prog) :
    (forall e, k (Raised e) = Throw e) -> (forall v, uncaught (k (Normal v))) ->
    uncaught (Dispatch action k)
| uncaught_Subscribe (listener : value) (k : result nat -> prog) :
    (forall r, uncaught (k r)) -> uncaught (Subscribe listener k)
| uncaught_Unsubscribe (handle : nat) (k : result value -> prog) :
    (forall r, uncaught (k r)) -> uncaught (Unsubscribe handle k)
| uncaught_ReplaceReducer (nextReducer : value) (k : result value -> prog) :
    (forall e, k (Raised e) = Throw e) -> (forall v, uncaught (k (Normal v))) ->
    uncaught (ReplaceReducer nextReducer k)
| uncaught_ReadVars (k : value -> prog) :
    (forall vars, uncaught (k vars)) -> uncaught (ReadVars k)
| uncaught_WriteVars (vars : value) (p : prog) :
    uncaught p -> uncaught (WriteVars vars p)
| uncaught_ReadThis (k : option (list value) -> prog) :
    (forall content, uncaught (k content)) -> uncaught (ReadThis k)
| uncaught_WriteThis (content : list value) (p : prog) :
    uncaught p -> uncaught (WriteThis content p).

(** Among the calls [tr], one of [l] made when the state was already the
    state of [s'], outside any reducer. *)
Definition told_now (l : value) (s' : store) (tr : list event) : Prop :=
  exists e, e ∈ tr /\ e.2 = l
            /\ currentState e.1 = currentState s' /\ isDispatching e.1 = false.

(** From [s] to [s'] the state has not changed, or [l] has been called
    with the state of [s']. *)
Definition told (l : value) (s s' : store) (tr : list event) : Prop :=
  currentState s' = currentState s \/ told_now l s' tr.

Lemma told_now_app_r (l : value) (s' : store) (tr1 tr2 : list event) :
  told_now l s' tr2 -> told_now l s' (tr1 ++ tr2).
Proof.
  intros (e & Hin & H). exists e. split; [apply elem_of_app; right; exact Hin|exact H].
Qed.

Lemma told_now_then (l : value) (s1 s' : store) (tr1 tr2 : list event) :
  told_now l s1 tr1 -> told l s1 s' tr2 -> told_now l s' (tr1 ++ tr2).
Proof.
  intros (e & Hin & Hl & Hst & Hi) [Heq|Hnow].
  - exists e. split; [apply elem_of_app; left; exact Hin|].
    split; [exact Hl|]. split; [congruence|exact Hi].
  - apply told_now_app_r. exact Hnow.
Qed.

Lemma told_then (l : value) (s s1 s' : store) (tr1 tr2 : list event) :
  told l s s1 tr1 -> told l s1 s' tr2 -> told l s s' (tr1 ++ tr2).
Proof.
  intros [Heq|Hnow] H2.
  - destruct H2 as [Heq2|Hnow2]; [left; congruence|right; apply told_now_app_r; exact Hnow2].
  - right. eapply told_now_then; eassumption.
Qed.

(** A subscription keeps its listener, and stays cancelled once it is. *)
Definition persists (h : nat) (l : value) (s s' : store) : Prop :=
  forall b, subscriptions s !! h = Some (l, b) ->
            exists b', subscriptions s' !! h = Some (l, b') /\ (b = false -> b' = false).

(** What each step of a pass keeps: the agreement of subscriptions and
    listeners, the guard unset, the subscriptions made. *)
Definition keeps (h : nat) (l : value) (s s' : store) : Prop :=
  (consistent s -> consistent s')
  /\ (isDispatching s = false -> isDispatching s' = false)
  /\ persists h l s s'.

Lemma keeps_same (h : nat) (l : value) (s s' : store) :
  arrays s' = arrays s -> nextListeners s' = nextListeners s ->
  subscriptions s' = subscriptions s -> isDispatching s' = isDispatching s ->
  keeps h l s s'.
Proof.
  intros Ha Hn Hsub Hi. unfold keeps, consistent, persists, array.
  rewrite Ha, Hn, Hsub, Hi. split; [auto|]. split; [auto|]. intros b Hb. eauto.
Qed.

Lemma keeps_trans (h : nat) (l : value) (s1 s2 s3 : store) :
  keeps h l s1 s2 -> keeps h l s2 s3 -> keeps h l s1 s3.
Proof.
  intros (H1 & H2 & H3) (G1 & G2 & G3). split; [auto|]. split; [auto|].
  intros b Hb. destruct (H3 b Hb) as (b' & Hb' & Hf).
  destruct (G3 b' Hb') as (b'' & Hb'' & Hf'). exists b''. split; [exact Hb''|]. auto.
Qed.

Lemma keeps_subscribe (h : nat) (l : value) (listener : value) (s : store) :
  keeps h l s (subscribe listener s).1.
Proof.
  split; [apply consistent_subscribe|]. split.
  - destruct (quiet_subscribe listener s) as (_ & _ & -> & _). auto.
  - intros b Hb. exists b. split; [|auto].
    unfold subscribe. destruct (negb _); [exact Hb|].
    destruct (isDispatching s); [exact Hb|]. cbn [fst].
    unfold push, ensureCanMutateNextListeners. cbn.
    destruct (_ =? _)%nat; cbn; apply lookup_app_l_Some; exact Hb.
Qed.

Lemma keeps_unsubscribe (h : nat) (l : value) (handle : nat) (s : store) :
  keeps h l s (unsubscribe handle s).1.
Proof.
  split; [apply consistent_unsubscribe|]. split.
  - destruct (quiet_unsubscribe handle s) as (_ & _ & -> & _). auto.
  - intros b Hb. unfold unsubscribe.
    destruct (subscriptions s !! handle) as [[l0 b0]|] eqn:E; [|eauto].
    destruct b0; cbn [negb]; [|eauto].
    destruct (isDispatching s); [eauto|]. cbn [fst].
    unfold ensureCanMutateNextListeners. cbn.
    destruct (decide (handle = h)) as [->|Hne].
    + rewrite Hb in E. inversion E; subst. exists false. split; [|auto].
      destruct (_ =? _)%nat; cbn; apply list_lookup_insert_eq;
        eapply lookup_lt_Some; exact Hb.
    + exists b. split; [|auto].
      destruct (_ =? _)%nat; cbn; rewrite list_lookup_insert_ne by exact Hne; exact Hb.
Qed.

Lemma keeps_dispatch (h : nat) (l : value) (fuel d : nat) (a : value) (s s' : store)
    (r : result value) :
  (forall f, no_write (body f [])) ->
  dispatch fuel d a s = Some (s', r) -> keeps h l s s'.
Proof.
  intros Hnw.
  apply (preserved_dispatch (fun _ => keeps h l) false);
    [..|discriminate|intros _; exact Hnw].
  - intros d0 s0. apply keeps_same; reflexivity.
  - intros d0 s1 s2 s3. apply keeps_trans.
  - intros d0 s0 s0' H. exact H.
  - intros d0 listener s0. apply keeps_subscribe.
  - intros d0 handle s0. apply keeps_unsubscribe.
  - intros d0 v s0. apply keeps_same; reflexivity.
  - intros d0 n s0. apply keeps_same; reflexivity.
  - intros d0 v s0. apply keeps_same; reflexivity.
  - intros d0 v s0. apply keeps_same; reflexivity.
  - intros d0 s0. apply keeps_same; reflexivity.
  - intros d0 listener s0. apply keeps_same; reflexivity.
Qed.

Lemma keeps_exec (h : nat) (l : value) (fuel d : nat) (this : option nat) (p : prog)
    (s s' : store) (r : result value) :
  (forall f, no_write (body f [])) -> no_write p ->
  exec (dispatch fuel d) this p s = Some (s', r) -> keeps h l s s'.
Proof.
  intros Hnw Hp.
  apply (preserved_exec (fun _ => keeps h l) false) with (d := d);
    [..|right; right; exact Hp].
  - intros d0 s0. apply keeps_same; reflexivity.
  - intros d0 s1 s2 s3. apply keeps_trans.
  - intros d0 listener s0. apply keeps_subscribe.
  - intros d0 handle s0. apply keeps_unsubscribe.
  - intros d0 v s0. apply keeps_same; reflexivity.
  - intros d0 n s0. apply keeps_same; reflexivity.
  - intros d0 v s0. apply keeps_same; reflexivity.
  - discriminate.
  - intros a s0 s0' r0. apply keeps_dispatch. exact Hnw.
Qed.

Lemma keeps_notify (h : nat) (l : value) (fuel d L i : nat) (s s' : store)
    (r : result unit) :
  (forall f, no_write (body f [])) ->
  notify fuel d L i s = Some (s', r) -> keeps h l s s'.
Proof.
  intros Hnw.
  apply (preserved_notify (fun _ => keeps h l) false);
    [..|discriminate|intros _; exact Hnw].
  - intros d0 s0. apply keeps_same; reflexivity.
  - intros d0 s1 s2 s3. apply keeps_trans.
  - intros d0 s0 s0' H. exact H.
  - intros d0 listener s0. apply keeps_subscribe.
  - intros d0 handle s0. apply keeps_unsubscribe.
  - intros d0 v s0. apply keeps_same; reflexivity.
  - intros d0 n s0. apply keeps_same; reflexivity.
  - intros d0 v s0. apply keeps_same; reflexivity.
  - intros d0 v s0. apply keeps_same; reflexivity.
  - intros d0 s0. apply keeps_same; reflexivity.
  - intros d0 listener s0. apply keeps_same; reflexivity.
Qed.

(** A subscription live before and after was live in between. *)
Lemma live_between (h : nat) (l : value) (s s1 s' : store) :
  keeps h l s s1 -> keeps h l s1 s' ->
  subscriptions s !! h = Some (l, true) -> subscriptions s' !! h = Some (l, true) ->
  subscriptions s1 !! h = Some (l, true).
Proof.
  intros (_ & _ & H1) (_ & _ & H2) Hs Hs'.
  destruct (H1 true Hs) as (b1 & Hb1 & _). destruct b1; [exact Hb1|].
  destruct (H2 false Hb1) as (b2 & Hb2 & Hf). rewrite (Hf eq_refl) in Hb2. congruence.
Qed.


Lemma tcall_call (fuel d : nat) (fn : value) (this : option nat) (args : list value)
    (s s' : store) (r : result value) (tr : list event) :
  tcall (tdispatch fuel d) fn this args s = Some (s', r, tr) ->
  call (dispatch fuel d) fn this args s = Some (s', r).
Proof.
  intros H. rewrite <- (tcall_erase (tdispatch fuel d) (dispatch fuel d)
                          (tdispatch_erase fuel d)).
  rewrite H. reflexivity.
Qed.

Lemma after_Some {A : Type} (tr : list event) (x : option (store * A * list event))
    (s' : store) (a : A) (tr' : list event) :
  after tr x = Some (s', a, tr') ->
  exists tr2, x = Some (s', a, tr2) /\ tr' = tr ++ tr2.
Proof.
  destruct x as [[[s1 a1] tr1]|]; [|discriminate]. cbn [after].
  intros H. inversion H; subst. eauto.
Qed.

Section Latest.

Variable h : nat.
Variable l : value.
Hypothesis bodies_uncaught : forall f, uncaught (body f []).
Hypothesis bodies_no_write : forall f, no_write (body f []).

Let live_at (s : store) : Prop := subscriptions s !! h = Some (l, true).

(** What a dispatch that returns gives a listener subscribed throughout *)
Let dispatch_tells (fuel d : nat) : Prop :=
  forall a s s' r tr,
    tdispatch fuel d a s = Some (s', Normal r, tr) ->
    consistent s -> live_at s -> live_at s' -> told_now l s' tr.

Lemma told_exec (fuel d : nat) (this : option nat) (p : prog) :
  dispatch_tells fuel d -> uncaught p -> no_write p ->
  forall s s' v tr,
    texec (tdispatch fuel d) this p s = Some (s', Normal v, tr) ->
    consistent s -> isDispatching s = false -> live_at s -> live_at s' ->
    told l s s' tr.
Proof.
  intros Hd Hp.
  induction Hp as [v0|e|k Hk IH|action k Hraise Hk IH|listener k Hk IH|handle k Hk IH
                   |nextReducer k Hraise Hk IH|k Hk IH|vars p Hp IH|k Hk IH|content p Hp IH];
    intros Hnw s s' v tr He Hc Hi Hl Hl'; cbn [texec] in He.
  - inversion He; subst. left. reflexivity.
  - discriminate.
  - assert (Hn : forall r, no_write (k r)) by (inversion Hnw; assumption).
    unfold getState in He. rewrite Hi in He. eapply IH; [apply Hn|eassumption..].
  - assert (Hn : forall r, no_write (k r)) by (inversion Hnw; assumption).
    destruct (tdispatch fuel d action s) as [[[s1 r1] tr1]|] eqn:E; [|discriminate].
    apply after_Some in He as (tr2 & He & ->).
    destruct r1 as [v1|e1]; [|rewrite Hraise in He; discriminate].
    pose proof (keeps_dispatch h l _ _ _ _ _ _ bodies_no_write
                  (tdispatch_dispatch _ _ _ _ _ _ _ E)) as K1.
    pose proof (keeps_exec h l _ _ _ _ _ _ _ bodies_no_write (Hn _)
                  (texec_exec _ _ _ _ _ _ _ _ He)) as K2.
    pose proof (live_between h l s s1 s' K1 K2 Hl Hl') as Hl1.
    destruct K1 as (Kc & Ki & _).
    right. apply (told_now_then l s1 s').
    + apply (Hd action s s1 v1 tr1 E Hc Hl Hl1).
    + apply (IH v1 (Hn _) s1 s' v tr2 He (Kc Hc) (Ki Hi) Hl1 Hl').
  - assert (Hn : forall r, no_write (k r)) by (inversion Hnw; assumption).
    destruct (subscribe listener s) as [s1 r1] eqn:E.
    pose proof (keeps_subscribe h l listener s) as K1. rewrite E in K1. cbn [fst] in K1.
    pose proof (quiet_subscribe listener s) as Q. rewrite E in Q. cbn [fst] in Q.
    pose proof (keeps_exec h l _ _ _ _ _ _ _ bodies_no_write (Hn _)
                  (texec_exec _ _ _ _ _ _ _ _ He)) as K2.
    pose proof (live_between h l s s1 s' K1 K2 Hl Hl') as Hl1.
    destruct K1 as (Kc & Ki & _). destruct Q as (Qs & _).
    destruct (IH r1 (Hn _) s1 s' v tr He (Kc Hc) (Ki Hi) Hl1 Hl') as [Heq|Hnow].
    + left. congruence.
    + right. exact Hnow.
  - assert (Hn : forall r, no_write (k r)) by (inversion Hnw; assumption).
    destruct (unsubscribe handle s) as [s1 r1] eqn:E.
    pose proof (keeps_unsubscribe h l handle s) as K1. rewrite E in K1. cbn [fst] in K1.
    pose proof (quiet_unsubscribe handle s) as Q. rewrite E in Q. cbn [fst] in Q.
    pose proof (keeps_exec h l _ _ _ _ _ _ _ bodies_no_write (Hn _)
                  (texec_exec _ _ _ _ _ _ _ _ He)) as K2.
    pose proof (live_between h l s s1 s' K1 K2 Hl Hl') as Hl1.
    destruct K1 as (Kc & Ki & _). destruct Q as (Qs & _).
    destruct (IH r1 (Hn _) s1 s' v tr He (Kc Hc) (Ki Hi) Hl1 Hl') as [Heq|Hnow].
    + left. congruence.
    + right. exact Hnow.
  - assert (Hn : forall r, no_write (k r)) by (inversion Hnw; assumption).
    destruct (treplaceReducer_with (tdispatch fuel d) nextReducer s)
      as [[[s1 r1] tr1]|] eqn:E; [|discriminate].
    apply after_Some in He as (tr2 & He & ->).
    destruct r1 as [v1|e1]; [|rewrite Hraise in He; discriminate].
    unfold treplaceReducer_with in E. destruct (negb _); [discriminate|].
    set (s0 := set_next_loc _ (set_currentReducer nextReducer s)) in E.
    destruct (tdispatch fuel d _ s0) as [[[s1' r1'] tr1']|] eqn:E0; [|discriminate].
    destruct r1' as [w|e']; [|discriminate]. inversion E; subst s1' v1 tr1'. clear E.
    pose proof (keeps_dispatch h l _ _ _ _ _ _ bodies_no_write
                  (tdispatch_dispatch _ _ _ _ _ _ _ E0)) as K1.
    pose proof (keeps_exec h l _ _ _ _ _ _ _ bodies_no_write (Hn _)
                  (texec_exec _ _ _ _ _ _ _ _ He)) as K2.
    assert (Hc0 : consistent s0) by exact Hc.
    assert (Hi0 : isDispatching s0 = false) by exact Hi.
    assert (Hl0 : subscriptions s0 !! h = Some (l, true)) by exact Hl.
    pose proof (live_between h l s0 s1 s' K1 K2 Hl0 Hl') as Hl1.
    destruct K1 as (Kc & Ki & _).
    right. apply (told_now_then l s1 s').
    + apply (Hd _ s0 s1 w tr1 E0 Hc0 Hl0 Hl1).
    + apply (IH VUndefined (Hn _) s1 s' v tr2 He (Kc Hc0) (Ki Hi0) Hl1 Hl').
  - assert (Hn : forall vars, no_write (k vars)) by (inversion Hnw; assumption).
    eapply IH; [apply Hn|eassumption..].
  - assert (Hn : no_write p) by (inversion Hnw; assumption).
    destruct (IH Hn (set_client_vars vars s) s' v tr He Hc Hi Hl Hl') as [Heq|Hnow].
    + left. exact Heq.
    + right. exact Hnow.
  - assert (Hn : forall content, no_write (k content)) by (inversion Hnw; assumption).
    eapply IH; [apply Hn|eassumption..].
  - inversion Hnw.
Qed.

Lemma told_dispatch_notify (fuel : nat) :
  (forall d, dispatch_tells fuel d)
  /\ (forall d L i s s' tr,
        tnotify fuel d L i s = Some (s', Normal tt, tr) ->
        consistent s -> isDispatching s = false -> frozen L s ->
        live_at s -> live_at s' ->
        told l s s' tr
        /\ (forall j, (i <= j)%nat -> array s L !! j = Some l -> told_now l s' tr)).
Proof.
  induction fuel as [|fuel [IHd IHn]].
  - split.
    + intros d a s s' r tr H. cbn [tdispatch] in H.
      destruct (negb _); [discriminate|]. destruct (get_prop _ _ _); [|discriminate].
      destruct (String.eqb _ _); [discriminate|]. destruct (isDispatching s); discriminate.
    + intros d L i s s' tr H _ _ _ _ _. cbn [tnotify] in H.
      destruct (array s L !! i) eqn:E; [discriminate|]. inversion H; subst.
      split; [left; reflexivity|]. intros j Hj Hlook.
      apply lookup_ge_None in E. apply lookup_lt_Some in Hlook. lia.
  - assert (Hn : forall d L i s s' tr,
        tnotify (S fuel) d L i s = Some (s', Normal tt, tr) ->
        consistent s -> isDispatching s = false -> frozen L s ->
        live_at s -> live_at s' ->
        told l s s' tr
        /\ (forall j, (i <= j)%nat -> array s L !! j = Some l -> told_now l s' tr)).
    { intros d L i s s' tr H Hc Hi Hf Hl Hl'. cbn [tnotify] in H.
      destruct (array s L !! i) as [x|] eqn:E.
      2:{ inversion H; subst. split; [left; reflexivity|]. intros j Hj Hlook.
          apply lookup_ge_None in E. apply lookup_lt_Some in Hlook. lia. }
      set (s0 := record_call d x s) in H.
      destruct (tcall (tdispatch fuel (S d)) x (Some L) [] s0) as [[[s1 r1] tr1]|] eqn:Ec;
        [|discriminate].
      destruct r1 as [v1|e1]; [|discriminate].
      apply after_Some in H as (tr2 & H & ->).
      assert (Hc0 : consistent s0) by exact Hc.
      assert (Hi0 : isDispatching s0 = false) by exact Hi.
      assert (Hf0 : frozen L s0) by exact Hf.
      assert (Hl0 : subscriptions s0 !! h = Some (l, true)) by exact Hl.
      assert (Hst0 : currentState s0 = currentState s) by reflexivity.
      destruct (keeps_array_call bodies_no_write L fuel (S d) x (Some L) s0 s1 (Normal v1)
                  (tcall_call _ _ _ _ _ _ _ _ _ Ec) Hf0) as [Hf1 Ha1].
      destruct x as [| | | | | |f|]; cbn [tcall] in Ec; try discriminate.
      pose proof (keeps_exec h l _ _ _ _ _ _ _ bodies_no_write (bodies_no_write f)
                    (texec_exec _ _ _ _ _ _ _ _ Ec)) as K1.
      pose proof (keeps_notify h l _ _ _ _ _ _ _ bodies_no_write
                    (tnotify_notify _ _ _ _ _ _ _ _ H)) as K2.
      pose proof (live_between h l s0 s1 s' K1 K2 Hl0 Hl') as Hl1.
      destruct K1 as (Kc & Ki & _).
      pose proof (told_exec fuel (S d) (Some L) (body f []) (IHd (S d)) (bodies_uncaught f)
                    (bodies_no_write f) s0 s1 v1 tr1 Ec Hc0 Hi0 Hl0 Hl1) as T1.
      destruct (IHn d L (S i) s1 s' tr2 H (Kc Hc0) (Ki Hi0) Hf1 Hl1 Hl') as [T2 N2].
      pose proof (told_then l s0 s1 s' tr1 tr2 T1 T2) as T.
      assert (Hcons : forall tr0, told_now l s' tr0 ->
                                  told_now l s' ((s0, VFun f) :: tr0)).
      { intros tr0 Hnow. apply (told_now_app_r l s' [(s0, VFun f)] tr0 Hnow). }
      split.
      - destruct T as [Heq|Hnow]; [left; congruence|right; apply Hcons; exact Hnow].
      - intros j Hj Hlook. destruct (decide (j = i)) as [->|Hne].
        + assert (l = VFun f) by congruence. subst l.
          destruct T as [Heq|Hnow]; [|apply Hcons; exact Hnow].
          exists (s0, VFun f). split; [apply elem_of_cons; left; reflexivity|].
          split; [reflexivity|]. split; [symmetry; exact Heq|exact Hi0].
        + apply Hcons. apply told_now_app_r. apply (N2 j); [lia|].
          rewrite Ha1. exact Hlook. }
    split; [|exact Hn].
    intros d a s s' r tr H Hc Hl Hl'. cbn [tdispatch] in H.
    destruct (negb _); [discriminate|]. destruct (get_prop _ _ _); [|discriminate].
    destruct (String.eqb _ _); [discriminate|].
    destruct (isDispatching s) eqn:Hi; [discriminate|].
    set (sd := set_isDispatching true s) in H.
    destruct (tcall (tdispatch fuel (S d)) (currentReducer sd) None [currentState sd; a] sd)
      as [[[s2 r2] tr1]|] eqn:Ec; [|discriminate].
    destruct r2 as [nextState|e2]; [|discriminate].
    destruct (call_while_dispatching fuel (S d) (currentReducer sd) [currentState sd; a] sd
                eq_refl) as (s2' & r2' & Hcall & Hsame).
    rewrite (tcall_call _ _ _ _ _ _ _ _ _ Ec) in Hcall. inversion Hcall; subst s2' r2'.
    destruct Hsame as (_ & Harr & _ & Hnext & _ & Hsub & _).
    cbn [sd arrays nextListeners subscriptions set_isDispatching] in Harr, Hnext, Hsub.
    set (s3 := set_currentListeners _ _) in H.
    destruct (tnotify fuel d _ 0 s3) as [[[s4 r4] tr2]|] eqn:En; [|discriminate].
    destruct r4 as [[]|e4]; [|discriminate]. inversion H; subst s4 r tr. clear H.
    assert (Hc3 : consistent s3).
    { unfold consistent, array in *. cbn. rewrite Harr, Hnext, Hsub. exact Hc. }
    assert (Hl3 : subscriptions s3 !! h = Some (l, true)).
    { cbn. rewrite Hsub. exact Hl. }
    assert (Hf3 : frozen (nextListeners s3) s3).
    { split; [exact (proj1 Hc3)|right; reflexivity]. }
    pose proof (live_listener_in_next s3 h l Hc3 Hl3) as Hin.
    apply list_elem_of_lookup in Hin as [j Hj].
    destruct (IHn d (nextListeners s3) 0%nat s3 s' tr2 En Hc3 eq_refl Hf3 Hl3 Hl')
      as [_ N].
    apply told_now_app_r. apply (N j); [lia|exact Hj].
Qed.

End Latest.


End Client.

(** ** Instances *)

Definition sample_inherited (o : value) (key : string) : value := VUndefined.

(** A client: 0 is a counting reducer; 1 is a listener that counts its own
    calls in the client's variables, subscribes listener 2 and then cancels
    the subscription of handle 0 (its own, when it was the first to
    subscribe); 2 is a listener that does nothing; 3 is a reducer that
    throws; 4 is a reducer that calls [dispatch], ignores what comes of it,
    and returns 5. *)
Definition sample_body (f : nat) (args : list value) : prog :=
  match f with
  | 0%nat => Return (match args with VNum n :: _ => VNum (n + 1) | _ => VNum 0 end)
  | 1%nat =>
      ReadVars (fun vars =>
        WriteVars (match vars with VNum n => VNum (n + 1) | _ => VNum 1 end)
          (Subscribe (VFun 2) (fun _ => Unsubscribe 0 (fun _ => Return VUndefined))))
  | 3%nat => Throw (Error "boom")
  | 4%nat => Dispatch (VObj 7 Plain [("type", VStr "inner")]) (fun _ => Return (VNum 5))
  | _ => Return VUndefined
  end.

Definition action_A : value := VObj 50 Plain [("type", VStr "A")].
Definition action_B : value := VObj 51 Plain [("type", VStr "B")].

Lemma valid_action_A : valid_action sample_inherited action_A.
Proof. split; [reflexivity|]. exists (VStr "A"). split; reflexivity. Qed.

Lemma createStore_initial_state_witness :
  exists s,
    createStore sample_inherited sample_body 1 0 VUndefined (VFun 0) VUndefined VUndefined
    = Some (Normal (Handle s))
    /\ getState s = (s, Normal (VNum 0))
    /\ dispatch sample_inherited sample_body 1 0 (init_action 0)
         (Store_ (VFun 0) VUndefined [[]] 0 0 false [] 1 [] VUndefined)
       = Some (s, Normal (init_action 0))
    /\ s = Store_ (VFun 0) (VNum 0) [[]] 0 0 false [] 1 [] VUndefined.
Proof.
  exact (createStore_initial_state sample_inherited sample_body 0 0 0 VUndefined (VNum 0)
           eq_refl).
Defined.

(** A store whose reducer is 4, about to dispatch [action_A] *)
Definition reentrant_store : store :=
  Store_ (VFun 4) (VNum 0) [[]] 0 0 false [] 1 [] VUndefined.

Lemma reentrant_calls_rejected_witness :
  (forall s, isDispatching s = true ->
     (forall fuel' d' a, valid_action sample_inherited a ->
        dispatch sample_inherited sample_body fuel' d' a s = Some (s, Raised err_dispatch))
     /\ getState s = (s, Raised err_getState)
     /\ (forall listener, is_function listener = true ->
           subscribe listener s = (s, Raised err_subscribe))
     /\ (forall handle listener, subscriptions s !! handle = Some (listener, true) ->
           unsubscribe handle s = (s, Raised err_unsubscribe)))
  /\ exists s2 r,
       exec (dispatch sample_inherited sample_body 1 1) None
         (sample_body 4 [VNum 0; action_A]) (set_isDispatching true reentrant_store)
       = Some (s2, r)
       /\ same_transition (set_isDispatching true reentrant_store) s2
       /\ dispatch sample_inherited sample_body 2 0 action_A reentrant_store
          = after_reducer sample_inherited sample_body 1 0 action_A s2 r.
Proof.
  exact (reentrant_calls_rejected sample_inherited sample_body 1 0 action_A 4
           reentrant_store eq_refl valid_action_A eq_refl).
Defined.

(** The outer dispatch of [reentrant_store] commits what the reducer
    returned after its inner [dispatch] was rejected. *)
Example reentrant_reducer_run :
  dispatch sample_inherited sample_body 2 0 action_A reentrant_store
  = Some (Store_ (VFun 4) (VNum 5) [[]] 0 0 false [] 1 [] VUndefined, Normal action_A).
Proof. reflexivity. Qed.

(** A store whose reducer is 3, which throws *)
Definition throwing_store : store :=
  Store_ (VFun 3) (VNum 0) [[VFun 2]] 0 0 false [(VFun 2, true)] 1 [] VUndefined.

Lemma reducer_error_propagates_witness :
  exists s',
    dispatch sample_inherited sample_body 2 0 action_A throwing_store
    = Some (s', Raised (Error "boom"))
    /\ currentState s' = VNum 0
    /\ notified s' = []
    /\ arrays s' = [[VFun 2]]
    /\ currentListeners s' = 0%nat
    /\ nextListeners s' = 0%nat
    /\ isDispatching s' = false
    /\ getState s' = (s', Normal (VNum 0))
    /\ (forall fuel' d' action' f' v,
          valid_action sample_inherited action' -> currentReducer s' = VFun f' ->
          sample_body f' [currentState s'; action'] = Return v ->
          dispatch sample_inherited sample_body (S fuel') d' action' s'
          = after_reducer sample_inherited sample_body fuel' d' action'
              (set_isDispatching true s') (Normal v)).
Proof.
  exact (reducer_error_propagates sample_inherited sample_body 1 0 action_A 3
           throwing_store (set_isDispatching true throwing_store) (Error "boom")
           eq_refl valid_action_A eq_refl eq_refl).
Defined.

(** The store of the scenario: created with reducer 0, then listener 1
    subscribed (handle 0). *)
Definition scenario_store : store :=
  Store_ (VFun 0) (VNum 0) [[]; [VFun 1]] 0 1 false [(VFun 1, true)] 1 [] (VNum 0).

Example scenario_store_built :
  exists s,
    createStore sample_inherited sample_body 1 0 (VNum 0) (VFun 0) VUndefined VUndefined
    = Some (Normal (Handle s))
    /\ subscribe (VFun 1) s = (scenario_store, Normal 0%nat).
Proof. eexists. split; reflexivity. Qed.

Lemma scenario_store_consistent : consistent scenario_store.
Proof.
  destruct scenario_store_built as (s & Hc & Hs).
  apply createStore_ready in Hc as [Hc _].
  pose proof (consistent_subscribe (VFun 1) s Hc) as H. rewrite Hs in H. exact H.
Defined.

(** During [dispatch(A)], listener 1 subscribes listener 2 and unsubscribes
    itself: 1 is called once (its counter says 1) and 2 is not called;
    [dispatch(B)] calls 2, and 1 no more. *)
Definition scenario_after_A : store :=
  Store_ (VFun 0) (VNum 1) [[]; [VFun 1]; [VFun 2]] 1 2 false
         [(VFun 1, false); (VFun 2, true)] 1 [(0%nat, VFun 1)] (VNum 1).

Definition scenario_after_B : store :=
  Store_ (VFun 0) (VNum 2) [[]; [VFun 1]; [VFun 2]] 2 2 false
         [(VFun 1, false); (VFun 2, true)] 1 [(0%nat, VFun 1); (0%nat, VFun 2)] (VNum 1).

Example scenario_run :
  dispatch sample_inherited sample_body 3 0 action_A scenario_store
  = Some (scenario_after_A, Normal action_A)
  /\ dispatch sample_inherited sample_body 3 0 action_B scenario_after_A
     = Some (scenario_after_B, Normal action_B).
Proof. split; vm_compute; reflexivity. Qed.

Lemma sample_no_write (g : nat) : no_write (sample_body g []).
Proof.
  do 5 (destruct g as [|g]; [simpl; repeat (intros; constructor)|]).
  simpl. constructor.
Qed.


(** A client whose listener 10 subscribes listener 11 and appends it to
    the array it is called on,
    [function () { store.subscribe(second); this.push(second) }],
    and whose listener 11 leaves a mark in the client's variables; 0 is the
    counting reducer. *)
Definition leaky_body (f : nat) (args : list value) : prog :=
  match f with
  | 10%nat =>
      Subscribe (VFun 11) (fun _ =>
        ReadThis (fun content =>
          WriteThis (default [] content ++ [VFun 11]) (Return VUndefined)))
  | 11%nat => WriteVars (VStr "second") (Return VUndefined)
  | _ => sample_body f args
  end.

(** The store created with reducer 0, then listener 10 subscribed *)
Definition leaky_store : store :=
  Store_ (VFun 0) (VNum 0) [[]; [VFun 10]] 0 1 false [(VFun 10, true)] 1 [] (VNum 0).

Lemma leaky_store_built :
  exists s,
    createStore sample_inherited leaky_body 1 0 (VNum 0) (VFun 0) VUndefined VUndefined
    = Some (Normal (Handle s))
    /\ subscribe (VFun 10) s = (leaky_store, Normal 0%nat).
Proof. eexists. split; reflexivity. Qed.

(** C5, on the code — The pass of [dispatch(A)] on this store begins with
    the one listener 10.  The loop calls it as [listeners[i]()], on the
    array it iterates: listener 10 subscribes listener 11, which goes to
    the array of the next pass, and appends it to its [this], the array of
    this pass.  Listener 11, subscribed during the pass, is called in the
    same pass: it has left its mark when [dispatch] returns. *)
Example pushed_listener_called_in_same_pass :
  array leaky_store (nextListeners leaky_store) = [VFun 10]
  /\ dispatch sample_inherited leaky_body 3 0 action_A leaky_store
     = Some (Store_ (VFun 0) (VNum 1) [[]; [VFun 10; VFun 11]; [VFun 10; VFun 11]] 1 2 false
               [(VFun 10, true); (VFun 11, true)] 1
               [(0%nat, VFun 10); (0%nat, VFun 11)] (VStr "second"),
             Normal action_A).
Proof. split; [reflexivity|vm_compute; reflexivity]. Qed.

(** Called as a plain function the same listener would leave the pass
    alone: with no array under [this], listener 11 is called by the next
    [dispatch] only. *)
Example detached_listener_keeps_the_pass :
  let detached f args := detach (leaky_body f args) in
  exists s1,
    dispatch sample_inherited detached 3 0 action_A leaky_store = Some (s1, Normal action_A)
    /\ client_vars s1 = VNum 0
    /\ notified s1 = [(0%nat, VFun 10)]
    /\ exists s2,
         dispatch sample_inherited detached 3 0 action_B s1 = Some (s2, Normal action_B)
         /\ client_vars s2 = VStr "second".
Proof.
  eexists. split; [vm_compute; reflexivity|]. split; [reflexivity|]. split; [reflexivity|].
  eexists. split; [vm_compute; reflexivity|]. reflexivity.
Qed.

(** ** Instances for the further properties *)

Lemma calm_listener_1 : calm_listener sample_body (VFun 1).
Proof.
  exists 1%nat. split; [reflexivity|]. simpl.
  apply calm_ReadVars. intros vars. apply calm_WriteVars.
  apply calm_Subscribe. intros r. apply calm_Unsubscribe. intros r'. apply calm_Return.
Qed.

Lemma calm_listener_2 : calm_listener sample_body (VFun 2).
Proof. exists 2%nat. split; [reflexivity|]. apply calm_Return. Qed.

(** [dispatch(A)] on the store of the scenario *)
Lemma dispatch_commits_and_notifies_witness :
  exists s',
    dispatch sample_inherited sample_body 3 0 action_A scenario_store
    = Some (s', Normal action_A)
    /\ call_each sample_inherited sample_body 2 0 1 [VFun 1]
         (committed (VNum 1) scenario_store)
       = Some (s', Normal tt)
    /\ currentState s' = VNum 1
    /\ getState s' = (s', Normal (VNum 1))
    /\ currentReducer s' = VFun 0
    /\ notified s' = [] ++ map (fun l => (0%nat, l)) [VFun 1].
Proof.
  refine (dispatch_commits_and_notifies sample_inherited sample_body 2 0 action_A
            scenario_store 0 (VNum 1) _ eq_refl valid_action_A eq_refl eq_refl _ _).
  - simpl. lia.
  - repeat constructor. exact calm_listener_1.
  - simpl. lia.
Defined.

(** A store with the listeners 2, 3 and 2, where 3 throws *)
Definition noisy_store : store :=
  Store_ (VFun 0) (VNum 0) [[VFun 2; VFun 3; VFun 2]] 0 0 false
         [(VFun 2, true); (VFun 3, true); (VFun 2, true)] 1 [] VUndefined.

Lemma listener_error_aborts_pass_witness :
  exists s1,
    call_each sample_inherited sample_body 2 0 0 [VFun 2] (committed (VNum 1) noisy_store)
    = Some (s1, Normal tt)
    /\ dispatch sample_inherited sample_body 3 0 action_A noisy_store
       = Some (record_call 0 (VFun 3) s1, Raised (Error "boom"))
    /\ currentState s1 = VNum 1
    /\ isDispatching s1 = false
    /\ getState (record_call 0 (VFun 3) s1) = (record_call 0 (VFun 3) s1, Normal (VNum 1))
    /\ notified (record_call 0 (VFun 3) s1)
       = [] ++ map (fun l => (0%nat, l)) ([VFun 2] ++ [VFun 3]).
Proof.
  refine (listener_error_aborts_pass sample_inherited sample_body 2 0 action_A
            noisy_store 0 (VNum 1) [VFun 2] [VFun 2] 3 (Error "boom")
            _ eq_refl valid_action_A eq_refl eq_refl eq_refl _ eq_refl _).
  - simpl. lia.
  - repeat constructor. exact calm_listener_2.
  - simpl. lia.
Defined.

Lemma dispatch_returns_its_action_witness :
  action_A = action_A
  /\ valid_action sample_inherited action_A
  /\ isDispatching scenario_store = false
  /\ isDispatching scenario_after_A = false.
Proof.
  exact (dispatch_returns_its_action sample_inherited sample_body 3 0 action_A
           scenario_store scenario_after_A action_A (proj1 scenario_run)).
Defined.

(** [createStore(counter, 41)] *)
Lemma createStore_preloaded_state_witness :
  exists s,
    createStore sample_inherited sample_body 1 0 VUndefined (VFun 0) (VNum 41) VUndefined
    = Some (Normal (Handle s))
    /\ getState s = (s, Normal (VNum 42))
    /\ currentReducer s = VFun 0
    /\ array s (nextListeners s) = []
    /\ subscriptions s = [].
Proof.
  exact (createStore_preloaded_state sample_inherited sample_body 0 0 0 VUndefined
           (VNum 41) (VNum 42) eq_refl eq_refl).
Defined.

Lemma replaceReducer_reinitialises_witness :
  exists s',
    replaceReducer sample_inherited sample_body 2 (VFun 0) scenario_store
    = Some (s', Normal VUndefined)
    /\ call_each sample_inherited sample_body 1 0 1 [VFun 1]
         (committed (VNum 1) (set_next_loc 2 (set_currentReducer (VFun 0) scenario_store)))
       = Some (s', Normal tt)
    /\ currentReducer s' = VFun 0
    /\ currentState s' = VNum 1
    /\ notified s' = [] ++ map (fun l => (0%nat, l)) [VFun 1].
Proof.
  refine (replaceReducer_reinitialises sample_inherited sample_body 1 scenario_store 0
            (VNum 1) _ eq_refl eq_refl _ _).
  - simpl. lia.
  - repeat constructor. exact calm_listener_1.
  - simpl. lia.
Defined.

Lemma replaceReducer_inside_reducer_witness :
  replaceReducer_with (dispatch sample_inherited sample_body 1 1) (VFun 0)
    (set_isDispatching true scenario_store)
  = Some (set_next_loc 2 (set_currentReducer (VFun 0) (set_isDispatching true scenario_store)),
          Raised err_dispatch)
  /\ exec (dispatch sample_inherited sample_body 1 1) None
       (ReplaceReducer (VFun 0) (fun _ => Return (VNum 5)))
       (set_isDispatching true scenario_store)
     = exec (dispatch sample_inherited sample_body 1 1) None (Return (VNum 5))
         (set_next_loc 2 (set_currentReducer (VFun 0) (set_isDispatching true scenario_store))).
Proof.
  exact (replaceReducer_inside_reducer sample_inherited sample_body 1 1 (VFun 0) None
           (fun _ => Return (VNum 5)) (set_isDispatching true scenario_store)
           eq_refl eq_refl).
Defined.

(** A client whose reducer 20 replaces itself by the counting reducer and
    returns 5: the call of [replaceReducer] throws inside the reducer, and
    the store has the counting reducer after the dispatch. *)
Definition swapping_body (f : nat) (args : list value) : prog :=
  match f with
  | 20%nat =>
      ReplaceReducer (VFun 0)
        (fun r => match r with
                  | Raised _ => Return (VNum 5)
                  | Normal _ => Return (VNum 6)
                  end)
  | _ => sample_body f args
  end.

Example reducer_replaced_despite_error :
  dispatch sample_inherited swapping_body 2 0 action_A
    (Store_ (VFun 20) (VNum 0) [[]] 0 0 false [] 1 [] VUndefined)
  = Some (Store_ (VFun 0) (VNum 5) [[]] 0 0 false [] 2 [] VUndefined, Normal action_A).
Proof. reflexivity. Qed.

Lemma scenario_store_reachable : reachable sample_inherited sample_body scenario_store.
Proof.
  exact (reach_subscribe sample_inherited sample_body (VFun 1)
           (Store_ (VFun 0) (VNum 0) [[]] 0 0 false [] 1 [] (VNum 0))
           (reach_createStore sample_inherited sample_body 1 0 (VNum 0) (VFun 0)
              VUndefined VUndefined _ eq_refl)).
Qed.


(** A client whose listeners are all calm: the counting reducer 0, the
    listener 1 of [sample_body], and functions that do nothing. *)
Definition calm_body (f : nat) (args : list value) : prog :=
  match f with
  | 0%nat | 1%nat => sample_body f args
  | _ => Return VUndefined
  end.

Definition count (state action : value) : value :=
  match state with VNum n => VNum (n + 1) | _ => VNum 0 end.

Lemma valid_action_B : valid_action sample_inherited action_B.
Proof. split; [reflexivity|]. exists (VStr "B"). split; reflexivity. Qed.

Lemma state_is_fold_of_reducer_witness :
  exists fuel s',
    (forall fuel', (fuel <= fuel')%nat ->
       dispatch_all sample_inherited calm_body fuel' [action_A; action_B] scenario_store
       = Some s')
    /\ currentState s' = fold_left count [action_A; action_B] (VNum 0)
    /\ getState s' = (s', Normal (fold_left count [action_A; action_B] (VNum 0))).
Proof.
  refine (state_is_fold_of_reducer sample_inherited calm_body count 0
            [action_A; action_B] scenario_store _ _ _ eq_refl eq_refl _).
  - intros state action. destruct state; reflexivity.
  - intros [|[|f]]; simpl.
    + apply calm_Return.
    + apply calm_ReadVars. intros vars. apply calm_WriteVars.
      apply calm_Subscribe. intros r. apply calm_Unsubscribe. intros r'. apply calm_Return.
    + apply calm_Return.
  - split; [simpl; lia|]. repeat constructor.
  - constructor; [exact valid_action_A|]. constructor; [exact valid_action_B|]. constructor.
Defined.

Lemma unsubscribe_is_idempotent_witness :
  exists s1,
    unsubscribe 0 scenario_store = (s1, Normal VUndefined)
    /\ subscriptions s1 !! 0%nat = Some (VFun 1, false)
    /\ unsubscribe 0 s1 = (s1, Normal VUndefined)
    /\ (forall fuel d action s2 r,
          dispatch sample_inherited sample_body fuel d action s1 = Some (s2, r) ->
          unsubscribe 0 s2 = (s2, Normal VUndefined))
    /\ (forall s2,
          subscriptions s2 !! 0%nat = Some (VFun 1, false) -> isDispatching s2 = true ->
          unsubscribe 0 s2 = (s2, Normal VUndefined)).
Proof.
  exact (unsubscribe_is_idempotent sample_inherited sample_body 0 (VFun 1) scenario_store
           eq_refl eq_refl).
Defined.

(** Function 1 is subscribed already in the store of the scenario, function
    2 is not. *)
Lemma subscribe_then_unsubscribe_witness :
  exists s1 s2,
    subscribe (VFun 2) scenario_store = (s1, Normal 1%nat)
    /\ unsubscribe 1 s1 = (s2, Normal VUndefined)
    /\ array s1 (nextListeners s1) = [VFun 1] ++ [VFun 2]
    /\ (VFun 2 ∉ [VFun 1] -> array s2 (nextListeners s2) = [VFun 1])
    /\ (forall pre post,
          [VFun 1] = pre ++ VFun 2 :: post -> VFun 2 ∉ pre ->
          array s2 (nextListeners s2) = pre ++ post ++ [VFun 2]).
Proof.
  refine (subscribe_then_unsubscribe 2 scenario_store _ eq_refl).
  simpl. lia.
Defined.

(** Subscribed a second time and cancelled at once, a function goes to the
    end of the list: with the listeners 1, 2, subscribing 1 again and
    cancelling that subscription leaves 2, 1. *)
Example resubscribed_listener_moves_last :
  let s := Store_ (VFun 0) (VNum 0) [[VFun 1; VFun 2]] 0 0 false
             [(VFun 1, true); (VFun 2, true)] 1 [] VUndefined in
  let s1 := (subscribe (VFun 1) s).1 in
  let s2 := (unsubscribe 2 s1).1 in
  array s1 (nextListeners s1) = [VFun 1; VFun 2; VFun 1]
  /\ array s2 (nextListeners s2) = [VFun 2; VFun 1]
  /\ subscriptions s2 = [(VFun 1, true); (VFun 2, true); (VFun 1, false)].
Proof. repeat split. Qed.

(** An observer whose [next] (function 11) keeps the state it is told in
    the client's variables; function 10 is the [observeState] made for
    it. *)
Definition recorder : value := VObj 70 Plain [("next", VFun 11)].

Definition observer_body (f : nat) (args : list value) : prog :=
  match f with
  | 10%nat =>
      GetState (fun r =>
        match r with
        | Raised e => Throw e
        | Normal state => WriteVars state (Return VUndefined)
        end)
  | 11%nat =>
      match args with
      | state :: _ => WriteVars state (Return (VNum 1))
      | [] => Return VUndefined
      end
  | _ => sample_body f args
  end.

Definition fresh_store : store :=
  Store_ (VFun 0) (VNum 0) [[]] 0 0 false [] 1 [] VUndefined.

Lemma observer_is_told_the_state_witness :
  observable_subscribe sample_inherited observer_body
    (dispatch sample_inherited observer_body 3 0) 10 recorder fresh_store
  = match exec (dispatch sample_inherited observer_body 3 0) None
            (observer_body 11 [currentState fresh_store]) fresh_store with
    | None => None
    | Some (s1, Raised e) => Some (s1, Raised e)
    | Some (s1, Normal _) => Some (subscribe (VFun 10) s1)
    end
  /\ (forall this s0, isDispatching s0 = false ->
        call observer_body (dispatch sample_inherited observer_body 3 0) (VFun 10) this [] s0
        = match exec (dispatch sample_inherited observer_body 3 0) None
                  (observer_body 11 [currentState s0]) s0 with
          | Some (s1, Normal _) => Some (s1, Normal VUndefined)
          | other => other
          end).
Proof.
  exact (observer_is_told_the_state sample_inherited observer_body
           (dispatch sample_inherited observer_body 3 0) 10 11 recorder fresh_store
           eq_refl eq_refl eq_refl eq_refl).
Defined.

(** The observer is told 0 when it subscribes, and 1 after [dispatch(A)]. *)
Example observer_run :
  exists s1,
    observable_subscribe sample_inherited observer_body
      (dispatch sample_inherited observer_body 3 0) 10 recorder fresh_store
    = Some (s1, Normal 0%nat)
    /\ client_vars s1 = VNum 0
    /\ exists s2,
         dispatch sample_inherited observer_body 3 0 action_A s1 = Some (s2, Normal action_A)
         /\ currentState s2 = VNum 1
         /\ client_vars s2 = VNum 1.
Proof.
  eexists. split; [vm_compute; reflexivity|]. split; [reflexivity|].
  eexists. split; [vm_compute; reflexivity|]. split; reflexivity.
Qed.

(** An observer that is a function is refused; so is [null], later. *)
Lemma observer_must_be_an_object_witness :
  observable_subscribe sample_inherited observer_body
    (dispatch sample_inherited observer_body 3 0) 10 (VFun 11) fresh_store
  = Some (fresh_store, Raised (TypeError "Expected the observer to be an object."))
  /\ (exists msg,
        observable_subscribe sample_inherited observer_body
          (dispatch sample_inherited observer_body 3 0) 10 VNull fresh_store
        = Some (fresh_store, Raised (TypeError msg))).
Proof.
  split.
  - refine (proj1 (observer_must_be_an_object sample_inherited observer_body
                     (dispatch sample_inherited observer_body 3 0) 10 (VFun 11) fresh_store) _).
    discriminate.
  - exact (proj2 (observer_must_be_an_object sample_inherited observer_body
                    (dispatch sample_inherited observer_body 3 0) 10 (VFun 11) fresh_store)).
Defined.

(** [createStore(reducer, 7, enhancer)], [createStore(reducer, enhancer)],
    [createStore(reducer, undefined, 1)] and [createStore(1)] *)
Lemma createStore_arguments_witness :
  createStore sample_inherited sample_body 0 0 VUndefined (VFun 0) (VNum 7) (VFun 9)
  = Some (Normal (Enhanced (VFun 9) (VFun 0) (VNum 7)))
  /\ createStore sample_inherited sample_body 0 0 VUndefined (VFun 0) (VFun 9) VUndefined
     = Some (Normal (Enhanced (VFun 9) (VFun 0) VUndefined))
  /\ createStore sample_inherited sample_body 0 0 VUndefined (VFun 0) VUndefined (VNum 1)
     = Some (Raised err_enhancer)
  /\ createStore sample_inherited sample_body 0 0 VUndefined (VNum 1) VUndefined VUndefined
     = Some (Raised err_reducer).
Proof.
  split; [|split; [|split]].
  - exact (proj1 (createStore_arguments sample_inherited sample_body 0 0 VUndefined
                    (VFun 0) (VNum 7) (VFun 9)) eq_refl).
  - exact (proj1 (proj2 (createStore_arguments sample_inherited sample_body 0 0 VUndefined
                           (VFun 0) (VFun 9) VUndefined)) eq_refl).
  - exact (proj1 (proj2 (proj2 (createStore_arguments sample_inherited sample_body 0 0
                                  VUndefined (VFun 0) VUndefined (VNum 1)))) eq_refl eq_refl).
  - exact (proj2 (proj2 (proj2 (createStore_arguments sample_inherited sample_body 0 0
                                  VUndefined (VNum 1) VUndefined VUndefined))) eq_refl eq_refl).
Defined.

(** On a store whose reducer is executing: [dispatch(3)], [dispatch({})],
    [subscribe(1)] and [replaceReducer(null)] *)
Lemma invalid_arguments_rejected_witness :
  dispatch sample_inherited sample_body 0 0 (VNum 3) (set_isDispatching true scenario_store)
  = Some (set_isDispatching true scenario_store, Raised err_plain)
  /\ dispatch sample_inherited sample_body 0 0 (VObj 5 Plain [])
       (set_isDispatching true scenario_store)
     = Some (set_isDispatching true scenario_store, Raised err_type)
  /\ subscribe (VNum 1) (set_isDispatching true scenario_store)
     = (set_isDispatching true scenario_store, Raised err_listener)
  /\ replaceReducer sample_inherited sample_body 0 VNull (set_isDispatching true scenario_store)
     = Some (set_isDispatching true scenario_store, Raised err_nextReducer).
Proof.
  destruct (invalid_arguments_rejected sample_inherited sample_body
              (set_isDispatching true scenario_store)) as (H1 & H2 & H3 & H4).
  split; [exact (H1 0%nat 0%nat (VNum 3) eq_refl)|].
  split; [exact (H2 0%nat 0%nat (VObj 5 Plain []) eq_refl eq_refl)|].
  split; [exact (H3 (VNum 1) eq_refl)|].
  exact (H4 0%nat VNull eq_refl).
Defined.

(** A client whose listener 1 dispatches [action_B] the first time it is
    called, and lets through what that throws; 0 is the counting reducer and
    every other function does nothing. *)
Definition chatty_body (f : nat) (args : list value) : prog :=
  match f with
  | 0%nat => sample_body 0 args
  | 1%nat =>
      ReadVars (fun vars =>
        match vars with
        | VNum 0 =>
            WriteVars (VNum 1)
              (Dispatch action_B (fun r =>
                 match r with Raised e => Throw e | Normal _ => Return VUndefined end))
        | _ => Return VUndefined
        end)
  | _ => Return VUndefined
  end.

(** The store with listeners 2 and 1 subscribed in this order, when the
    state is [state], the calls recorded are [calls] and the client's
    variable is [vars]. *)
Definition chatty (current : nat) (state : Z) (calls : list (nat * value)) (vars : Z)
  : store :=
  Store_ (VFun 0) (VNum state) [[]; [VFun 2; VFun 1]] current 1 false
    [(VFun 2, true); (VFun 1, true)] 1 calls (VNum vars).

Example chatty_store_built :
  exists s s1,
    createStore sample_inherited chatty_body 1 0 (VNum 0) (VFun 0) VUndefined VUndefined
    = Some (Normal (Handle s))
    /\ subscribe (VFun 2) s = (s1, Normal 0%nat)
    /\ subscribe (VFun 1) s1 = (chatty 0 0 [] 0, Normal 1%nat).
Proof.
  exists (Store_ (VFun 0) (VNum 0) [[]] 0 0 false [] 1 [] (VNum 0)),
    (Store_ (VFun 0) (VNum 0) [[]; [VFun 2]] 0 1 false [(VFun 2, true)] 1 [] (VNum 0)).
  split; [vm_compute; reflexivity|]. split; vm_compute; reflexivity.
Qed.

Lemma chatty_consistent : consistent (chatty 0 0 [] 0).
Proof.
  destruct chatty_store_built as (s & s1 & Hc & Hs & Hs1).
  apply createStore_ready in Hc as [Hc _].
  pose proof (consistent_subscribe (VFun 2) s Hc) as H. rewrite Hs in H.
  pose proof (consistent_subscribe (VFun 1) s1 H) as H1. rewrite Hs1 in H1. exact H1.
Qed.

Lemma chatty_no_write (f : nat) : no_write (chatty_body f []).
Proof.
  destruct f as [|[|f]]; simpl.
  - apply no_write_Return.
  - apply no_write_ReadVars. intros vars.
    assert (H : no_write (WriteVars (VNum 1)
                  (Dispatch action_B (fun r =>
                     match r with Raised e => Throw e | Normal _ => Return VUndefined end)))).
    { apply no_write_WriteVars. apply no_write_Dispatch.
      intros [v|e]; constructor. }
    destruct vars as [| | |[|p|p]| | | |]; try apply no_write_Return. exact H.
  - apply no_write_Return.
Qed.

Lemma chatty_uncaught (f : nat) : uncaught (chatty_body f []).
Proof.
  destruct f as [|[|f]]; simpl.
  - apply uncaught_Return.
  - apply uncaught_ReadVars. intros vars.
    assert (H : uncaught (WriteVars (VNum 1)
                  (Dispatch action_B (fun r =>
                     match r with Raised e => Throw e | Normal _ => Return VUndefined end)))).
    { apply uncaught_WriteVars. apply uncaught_Dispatch; [reflexivity|].
      intros v. apply uncaught_Return. }
    destruct vars as [| | |[|p|p]| | | |]; try apply uncaught_Return. exact H.
  - apply uncaught_Return.
Qed.

(** The calls of listeners made by dispatching [action_A]: listener 2 is
    called first, with state 1; listener 1 then dispatches [action_B], and
    the nested pass calls listener 2 again, with state 2, the state on
    return. *)
Definition chatty_calls : list event :=
  [(chatty 1 1 [(0, VFun 2)]%nat 0, VFun 2);
   (chatty 1 1 [(0, VFun 2); (0, VFun 1)]%nat 0, VFun 1);
   (chatty 1 2 [(0, VFun 2); (0, VFun 1); (1, VFun 2)]%nat 1, VFun 2);
   (chatty 1 2 [(0, VFun 2); (0, VFun 1); (1, VFun 2); (1, VFun 1)]%nat 1, VFun 1)].

Definition chatty_end : store :=
  chatty 1 2 [(0, VFun 2); (0, VFun 1); (1, VFun 2); (1, VFun 1)]%nat 1.

Lemma chatty_run :
  tdispatch sample_inherited chatty_body 8 0 action_A (chatty 0 0 [] 0)
  = Some (chatty_end, Normal action_A, chatty_calls).
Proof. vm_compute. reflexivity. Qed.


(** A client that catches: listener 1 throws once the client's variable is
    set, listener 3 sets it and dispatches [action_B], ignoring what comes
    of it.  The nested pass stops at listener 1, the outer [dispatch]
    returns, and listener 2 has only been called with state 1 while the
    store holds state 2. *)
Definition catching_body (f : nat) (args : list value) : prog :=
  match f with
  | 0%nat => sample_body 0 args
  | 1%nat =>
      ReadVars (fun vars =>
        match vars with
        | VNum 0 => Return VUndefined
        | _ => Throw (Error "boom")
        end)
  | 3%nat =>
      ReadVars (fun vars =>
        match vars with
        | VNum 0 =>
            WriteVars (VNum 1) (Dispatch action_B (fun _ => Return VUndefined))
        | _ => Return VUndefined
        end)
  | _ => Return VUndefined
  end.

Definition catching (current : nat) (state : Z) (calls : list (nat * value)) (vars : Z)
  : store :=
  Store_ (VFun 0) (VNum state) [[]; [VFun 1; VFun 2; VFun 3]] current 1 false
    [(VFun 1, true); (VFun 2, true); (VFun 3, true)] 1 calls (VNum vars).

Example caught_error_hides_latest_state :
  exists s' tr,
    tdispatch sample_inherited catching_body 8 0 action_A (catching 0 0 [] 0)
    = Some (s', Normal action_A, tr)
    /\ currentState s' = VNum 2
    /\ subscriptions s' !! 1%nat = Some (VFun 2, true)
    /\ List.filter (fun e : event => strict_eq e.2 (VFun 2)) tr
       = [(catching 1 1 [(0, VFun 1); (0, VFun 2)]%nat 0, VFun 2)].
Proof.
  exists (catching 1 2 [(0, VFun 1); (0, VFun 2); (0, VFun 3); (1, VFun 1)]%nat 1),
    [(catching 1 1 [(0, VFun 1)]%nat 0, VFun 1);
     (catching 1 1 [(0, VFun 1); (0, VFun 2)]%nat 0, VFun 2);
     (catching 1 1 [(0, VFun 1); (0, VFun 2); (0, VFun 3)]%nat 0, VFun 3);
     (catching 1 2 [(0, VFun 1); (0, VFun 2); (0, VFun 3); (1, VFun 1)]%nat 1, VFun 1)].
  split; [vm_compute; reflexivity|]. repeat split.
Qed.


End Store.

(* ================================================================== *)
(** * applyMiddleware *)
(* ================================================================== *)

Module ApplyMiddleware.
Import JS Compose.

Section Enhancer.

(** Everything the calls can change: the variables of the store that
    [createStore] builds, and whatever the middleware write to. *)
Variable World : Type.

(** A call changes the world and returns or throws; [None] when the model
    does not follow it to its end (see [pipeline]). *)
Definition Eff (A : Type) : Type := World -> option (World * result A).

(** [(action) => ...] *)
Definition DispatchFn : Type := value -> Eff value.

(** [{ getState, dispatch }], as given to each middleware *)
Record MiddlewareAPI := {
  api_getState : Eff value;
  api_dispatch : DispatchFn
}.

(** A middleware has the shape [api => next => action => ...]: it gives its
    transform, and the transform wraps [next], without effects; effects are
    those of the function that receives the action. *)
Definition Middleware : Type := MiddlewareAPI -> DispatchFn -> DispatchFn.

(** What a store creation returns *)
Record StoreHandle := {
  dispatch : DispatchFn;
  subscribe : value -> Eff value;
  getState : Eff value;
  replaceReducer : value -> Eff value;
  observable : Eff value
}.

(** The store creation primitive given to the enhancer *)
Definition StoreCreator : Type := value -> value -> value -> Eff StoreHandle.

Section Apply.

Variable middlewares : list Middleware.
Variable store : StoreHandle.

(** [middlewareAPI], where [dispatch] is what the variable [dispatch] holds
    when [(action) => dispatch(action)] is called *)
Definition middlewareAPI (dispatch : DispatchFn) : MiddlewareAPI :=
  {| api_getState := getState store;
     api_dispatch := fun action => dispatch action |}.

(** [chain = middlewares.map(middleware => middleware(middlewareAPI))] *)
Definition chain (dispatch : DispatchFn) : list (DispatchFn -> DispatchFn) :=
  map (fun middleware => middleware (middlewareAPI dispatch)) middlewares.

(** The function the variable [dispatch] holds after
    [dispatch = compose(...chain)(store.dispatch)].  The closure in
    [middlewareAPI] reads the variable when it is called, and building the
    chain calls nothing, so every read finds this same function: it is
    defined in terms of itself.  [pipeline n] follows [n - 1] nested
    re-entries through [middlewareAPI.dispatch], and gives no answer to a
    deeper one. *)
Fixpoint pipeline (n : nat) : DispatchFn :=
  match n with
  | O => fun _ _ => None
  | S n' => compose (chain (pipeline n')) (dispatch store)
  end.

End Apply.

(** [applyMiddleware(...middlewares)(createStore)(reducer, preloadedState,
    enhancer)] *)
Definition applyMiddleware (n : nat) (middlewares : list Middleware)
    (createStore : StoreCreator) (reducer preloadedState enhancer : value)
  : Eff StoreHandle :=
  fun w =>
    match createStore reducer preloadedState enhancer w with
    | None => None
    | Some (w', Raised e) => Some (w', Raised e)
    | Some (w', Normal store) =>
        let dispatch := pipeline middlewares store n in
        Some (w', Normal {| dispatch := dispatch;
                            subscribe := subscribe store;
                            getState := getState store;
                            replaceReducer := replaceReducer store;
                            observable := observable store |})
    end.

(** ** Middleware that leave a trace

    [tracing enter exit] changes the world by [enter] when the action comes
    in, calls [next], and changes the world by [exit] when [next] has
    returned, whose result it returns. *)
Definition tracing (mark : (value -> World -> World) * (value -> World -> World))
  : Middleware :=
  fun api next action w =>
    match next action (mark.1 action w) with
    | Some (w', Normal r) => Some (mark.2 action w', Normal r)
    | other => other
    end.

(** The marks left on the way in, first middleware first, and on the way
    out, last middleware first. *)
Definition enter_all (marks : list ((value -> World -> World) * (value -> World -> World)))
    (action : value) (w : World) : World :=
  fold_left (fun w mark => mark.1 action w) marks w.

Definition exit_all (marks : list ((value -> World -> World) * (value -> World -> World)))
    (action : value) (w : World) : World :=
  fold_right (fun mark w => mark.2 action w) w marks.

(** ** Properties *)

Lemma chain_nested (api : MiddlewareAPI) (raw : DispatchFn) (middlewares : list Middleware) :
  fold_right (fun f acc => f acc) raw (map (fun middleware => middleware api) middlewares)
  = fold_right (fun middleware next => middleware api next) raw middlewares.
Proof.
  induction middlewares as [|m rest IH]; [reflexivity|].
  simpl. rewrite IH. reflexivity.
Qed.

Lemma pipeline_nested (middlewares : list Middleware) (store : StoreHandle)
    (n : nat) (action : value) (w : World) :
  pipeline middlewares store (S n) action w
  = fold_right (fun middleware next =>
                  middleware (middlewareAPI store (pipeline middlewares store n)) next)
               (dispatch store) middlewares action w.
Proof.
  cbn [pipeline]. rewrite compose_fold_right. unfold chain.
  rewrite chain_nested. reflexivity.
Qed.

Lemma tracing_order (api : MiddlewareAPI) (raw : DispatchFn)
    (marks : list ((value -> World -> World) * (value -> World -> World)))
    (action : value) (w : World) :
  fold_right (fun middleware next => middleware api next) raw (map tracing marks) action w
  = match raw action (enter_all marks action w) with
    | Some (w', Normal r) => Some (exit_all marks action w', Normal r)
    | other => other
    end.
Proof.
  revert w. induction marks as [|mark rest IH]; intros w.
  - simpl. destruct (raw action w) as [[w' [r|e]]|]; reflexivity.
  - cbn [map fold_right]. unfold tracing at 1. rewrite IH. cbn [enter_all fold_left exit_all fold_right].
    fold (enter_all rest action (mark.1 action w)).
    destruct (raw action (enter_all rest action (mark.1 action w))) as [[w' [r|e]]|]; reflexivity.
Qed.

(** C7 — [applyMiddleware(mid1, ..., midN)] leaves every capability of the
    base store but [dispatch] as it is, and binds [dispatch] to
    [mid1(api)(mid2(api)(... midN(api)(store.dispatch)))]: the first
    middleware is outermost.  An action therefore goes in through
    [mid1], ..., [midN], reaches the raw [dispatch], and the result comes out
    through [midN], ..., [mid1] (shown on middleware that leave a trace).
    The [dispatch] of the API given to the middleware is the composed
    function itself. *)
Theorem applyMiddleware_pipeline (n : nat) (middlewares : list Middleware)
    (createStore : StoreCreator) (reducer preloadedState enhancer : value)
    (w w' : World) (store : StoreHandle) :
  createStore reducer preloadedState enhancer w = Some (w', Normal store) ->
  exists store',
    applyMiddleware (S n) middlewares createStore reducer preloadedState enhancer w
    = Some (w', Normal store')
    /\ subscribe store' = subscribe store
    /\ getState store' = getState store
    /\ replaceReducer store' = replaceReducer store
    /\ observable store' = observable store
    /\ (forall action w0,
          dispatch store' action w0
          = fold_right (fun middleware next =>
                          middleware (middlewareAPI store (pipeline middlewares store n)) next)
                       (dispatch store) middlewares action w0)
    /\ api_getState (middlewareAPI store (pipeline middlewares store n)) = getState store
    /\ (forall action w0,
          api_dispatch (middlewareAPI store (pipeline middlewares store n)) action w0
          = pipeline middlewares store n action w0)
    /\ (forall marks action w0,
          middlewares = map tracing marks ->
          dispatch store' action w0
          = match dispatch store action (enter_all marks action w0) with
            | Some (w1, Normal r) => Some (exit_all marks action w1, Normal r)
            | other => other
            end).
Proof.
  intros Hc. unfold applyMiddleware. rewrite Hc.
  eexists. split; [reflexivity|]. cbn [subscribe getState replaceReducer observable dispatch].
  repeat split.
  - intros action w0. apply pipeline_nested.
  - intros marks action w0 ->. rewrite pipeline_nested. apply tracing_order.
Qed.

(** X22 — A middleware that answers without calling [next] stops the
    action there: the middleware supplied after it and the [dispatch] of the
    base store are not reached, and the middleware supplied before it
    see its answer come back.  (Shown with middleware that leave a trace
    before it.) *)
Theorem blocking_middleware_stops_action (n : nat)
    (marks : list ((value -> World -> World) * (value -> World -> World)))
    (blocker : Middleware) (answer : DispatchFn) (post : list Middleware)
    (createStore : StoreCreator) (reducer preloadedState enhancer : value)
    (w w' : World) (store : StoreHandle) :
  (forall api next, blocker api next = answer) ->
  createStore reducer preloadedState enhancer w = Some (w', Normal store) ->
  exists store',
    applyMiddleware (S n) (map tracing marks ++ blocker :: post) createStore
      reducer preloadedState enhancer w
    = Some (w', Normal store')
    /\ (forall action w0,
          dispatch store' action w0
          = match answer action (enter_all marks action w0) with
            | Some (w1, Normal r) => Some (exit_all marks action w1, Normal r)
            | other => other
            end).
Proof.
  intros Hb Hc. unfold applyMiddleware. rewrite Hc.
  eexists. split; [reflexivity|]. cbn [dispatch].
  intros action w0. rewrite pipeline_nested.
  rewrite fold_right_app. cbn [fold_right]. rewrite Hb.
  apply tracing_order.
Qed.

End Enhancer.

(** ** Instances: a log of strings *)

Definition log (tag : string) (action : value) (w : list string) : list string :=
  w ++ [tag].

(** A base store whose raw [dispatch] logs [raw] and returns the action. *)
Definition logging_store : StoreHandle (list string) :=
  {| dispatch := fun action w => Some (w ++ ["raw"], Normal action);
     subscribe := fun _ w => Some (w, Normal VUndefined);
     getState := fun w => Some (w, Normal VUndefined);
     replaceReducer := fun _ w => Some (w, Normal VUndefined);
     observable := fun w => Some (w, Normal VUndefined) |}.

Definition logging_createStore : StoreCreator (list string) :=
  fun _ _ _ w => Some (w, Normal logging_store).

Definition mid1 : Middleware (list string) := tracing (list string) (log "in 1", log "out 1").
Definition mid2 : Middleware (list string) := tracing (list string) (log "in 2", log "out 2").

(** A middleware that sends the action of type [again] back through the
    API as [action_once], and passes any other action on. *)
Definition action_again : value := VObj 60 Plain [("type", VStr "again")].
Definition action_once : value := VObj 61 Plain [("type", VStr "once")].

Definition resend : Middleware (list string) :=
  fun api next action =>
    match action with
    | VObj 60 _ _ => api_dispatch (list string) api action_once
    | _ => next action
    end.

Lemma applyMiddleware_pipeline_witness :
  exists store',
    applyMiddleware (list string) 1 [mid1; mid2] logging_createStore
      (VFun 0) VUndefined VUndefined []
    = Some ([], Normal store')
    /\ subscribe (list string) store' = subscribe (list string) logging_store
    /\ getState (list string) store' = getState (list string) logging_store
    /\ replaceReducer (list string) store' = replaceReducer (list string) logging_store
    /\ observable (list string) store' = observable (list string) logging_store
    /\ (forall action w0,
          dispatch (list string) store' action w0
          = fold_right (fun middleware next =>
                          middleware (middlewareAPI (list string) logging_store
                                        (pipeline (list string) [mid1; mid2] logging_store 0)) next)
                       (dispatch (list string) logging_store) [mid1; mid2] action w0)
    /\ api_getState (list string)
         (middlewareAPI (list string) logging_store
            (pipeline (list string) [mid1; mid2] logging_store 0))
       = getState (list string) logging_store
    /\ (forall action w0,
          api_dispatch (list string)
            (middlewareAPI (list string) logging_store
               (pipeline (list string) [mid1; mid2] logging_store 0)) action w0
          = pipeline (list string) [mid1; mid2] logging_store 0 action w0)
    /\ (forall marks action w0,
          [mid1; mid2] = map (tracing (list string)) marks ->
          dispatch (list string) store' action w0
          = match dispatch (list string) logging_store action
                    (enter_all (list string) marks action w0) with
            | Some (w1, Normal r) => Some (exit_all (list string) marks action w1, Normal r)
            | other => other
            end).
Proof.
  exact (applyMiddleware_pipeline (list string) 0 [mid1; mid2] logging_createStore
           (VFun 0) VUndefined VUndefined [] [] logging_store eq_refl).
Defined.

(** [applyMiddleware(mid1, mid2)]: one action goes in through 1 then 2,
    reaches the raw dispatch, and comes back through 2 then 1. *)
Example two_middlewares_log :
  pipeline (list string) [mid1; mid2] logging_store 1 action_once []
  = Some (["in 1"; "in 2"; "raw"; "out 2"; "out 1"], Normal action_once).
Proof. reflexivity. Qed.

(** [applyMiddleware(mid1, resend, mid2)]: the action [again] enters 1, is
    sent back by [resend] through the API, and goes through the whole chain
    again, 1 included, before 1 is left for the first time. *)
Example resend_reenters_pipeline :
  pipeline (list string) [mid1; resend; mid2] logging_store 2 action_again []
  = Some (["in 1"; "in 1"; "in 2"; "raw"; "out 2"; "out 1"; "out 1"], Normal action_once).
Proof. reflexivity. Qed.

(** A middleware that answers 0 to every action, between [mid1] and
    [mid2]: the log shows [mid1] only. *)
Definition stop : Middleware (list string) :=
  fun api next action w => Some (w, Normal (VNum 0)).

Lemma blocking_middleware_stops_action_witness :
  exists store',
    applyMiddleware (list string) 1 (map (tracing (list string)) [(log "in 1", log "out 1")]
                                     ++ stop :: [mid2])
      logging_createStore (VFun 0) VUndefined VUndefined []
    = Some ([], Normal store')
    /\ (forall action w0,
          dispatch (list string) store' action w0
          = match Some (enter_all (list string) [(log "in 1", log "out 1")] action w0,
                        Normal (VNum 0)) with
            | Some (w1, Normal r) =>
                Some (exit_all (list string) [(log "in 1", log "out 1")] action w1, Normal r)
            | other => other
            end).
Proof.
  exact (blocking_middleware_stops_action (list string) 0 [(log "in 1", log "out 1")]
           stop (fun action w => Some (w, Normal (VNum 0))) [mid2]
           logging_createStore (VFun 0) VUndefined VUndefined [] [] logging_store
           (fun api next => eq_refl) eq_refl).
Defined.

Example stopped_action_log :
  pipeline (list string) [mid1; stop; mid2] logging_store 1 action_once []
  = Some (["in 1"; "out 1"], Normal (VNum 0)).
Proof. reflexivity. Qed.

End ApplyMiddleware.
